(** * flatland-marl: PPO training script for one train on a single track

    Shallow embedding of [flatland_ppo_training_one_train_single_track.py]
    and the properties the specification states about it.  In the order of
    the file:
    - the arithmetic of the script and the command-line arguments;
    - the advantage estimator (lines 399-423);
    - the boolean flags of [parse_args] and the reward rule of
      [RailEnvTd.update_step_rewards];
    - minibatches, the learning rate schedule and the policy update with
      its early stop (lines 359-367 and 426-501);
    - tensordicts, [RailEnvTd.reset] and [RailEnvTd.step], the rollout loop
      (lines 369-388) and the training loop that puts the parts together;
    - concrete inputs, and then the properties.

    Numbers.  The script computes with two floating-point formats: Python
    [float] (IEEE binary64) for command-line constants and scalars, and
    [torch.float32] (IEEE binary32) for tensor elements.  The embedding is
    written once over an interface of arithmetic operations and instantiated
    - with the IEEE formats of [SpecFloat] (round to nearest even), which is
      what the script executes, and
    - with the canonical rationals [Qc], which is arithmetic without
      rounding.
    Properties of the structure of the computation are proved over the
    interface and so hold for both; algebraic identities are proved for
    [Qc], and checked against the IEEE formats on examples.

    Errors.  A function that can raise returns an [option]; [None] is the
    exception, named in the comment of the place that raises.

    What lies outside the script (the flatland simulator, the observation
    builder, the network and its optimizer, the random generator, torch's
    reductions) is a parameter of the section that uses it. *)

From Stdlib Require Import ZArith QArith Qcanon List Lia Bool Ascii String.
From Stdlib Require Import Floats.SpecFloat.
From stdpp Require Import base option list gmap strings.

Open Scope Z_scope.

(** ** Arithmetic interface *)

(** The operations the script applies to numbers of one format. *)
Class FloatOps (T : Type) := {
  of_Z   : Z -> T;            (* conversion of a Python int / int64 entry *)
  fadd   : T -> T -> T;
  fsub   : T -> T -> T;
  fmul   : T -> T -> T;
  fdiv   : T -> T -> T;
  fopp   : T -> T;
  fabs   : T -> T;
  fltb   : T -> T -> bool;    (* [x < y]; false when either side is NaN *)
  is_nan : T -> bool;
}.

(** A Python scalar entering an operation with a tensor is converted to the
    tensor's dtype. *)
Class Promote (P F : Type) := promote : P -> F.

(** [x > y] on numbers. *)
Definition fgtb `{FloatOps T} (x y : T) : bool := fltb y x.

(** [torch.max(a, b)] on one pair of entries: NaN is propagated. *)
Definition fmax `{FloatOps T} (x y : T) : T :=
  if is_nan x then x else if is_nan y then y else if fltb x y then y else x.

(** [min] counterpart, used by [torch.clamp]. *)
Definition fmin `{FloatOps T} (x y : T) : T :=
  if is_nan x then x else if is_nan y then y else if fltb y x then y else x.

(** [torch.clamp(x, lo, hi)] on one entry, [min(max(x, lo), hi)]. *)
Definition clamp `{FloatOps T} (x lo hi : T) : T := fmin (fmax x lo) hi.

(** A decimal literal [n / d] of the source, correctly rounded. *)
Definition dec {T} `{!FloatOps T} (n d : Z) : T := fdiv (of_Z n) (of_Z d).

(** *** Exact arithmetic: canonical rationals *)

Definition Qc_ltb (x y : Qc) : bool :=
  match (x ?= y)%Qc with Lt => true | _ => false end.

#[export] Instance Qc_ops : FloatOps Qc := {|
  of_Z z := Q2Qc (inject_Z z);
  fadd := Qcplus; fsub := Qcminus; fmul := Qcmult; fdiv := Qcdiv;
  fopp := Qcopp;
  fabs x := if Qc_ltb x (Q2Qc 0) then Qcopp x else x;
  fltb := Qc_ltb;
  is_nan _ := false;
|}.

#[export] Instance Qc_promote : Promote Qc Qc := fun x => x.

(** *** IEEE arithmetic: binary64 (Python float) and binary32 (float32) *)

Record binary64 := B64 { b64 : spec_float }.
Record binary32 := B32 { b32 : spec_float }.

Definition sf_is_nan (x : spec_float) : bool :=
  match x with S754_nan => true | _ => false end.

#[export] Instance binary64_ops : FloatOps binary64 := {|
  of_Z z := B64 (binary_normalize 53 1024 z 0 false);
  fadd x y := B64 (SFadd 53 1024 (b64 x) (b64 y));
  fsub x y := B64 (SFsub 53 1024 (b64 x) (b64 y));
  fmul x y := B64 (SFmul 53 1024 (b64 x) (b64 y));
  fdiv x y := B64 (SFdiv 53 1024 (b64 x) (b64 y));
  fopp x := B64 (SFopp (b64 x));
  fabs x := B64 (SFabs (b64 x));
  fltb x y := SFltb (b64 x) (b64 y);
  is_nan x := sf_is_nan (b64 x);
|}.

#[export] Instance binary32_ops : FloatOps binary32 := {|
  of_Z z := B32 (binary_normalize 24 128 z 0 false);
  fadd x y := B32 (SFadd 24 128 (b32 x) (b32 y));
  fsub x y := B32 (SFsub 24 128 (b32 x) (b32 y));
  fmul x y := B32 (SFmul 24 128 (b32 x) (b32 y));
  fdiv x y := B32 (SFdiv 24 128 (b32 x) (b32 y));
  fopp x := B32 (SFopp (b32 x));
  fabs x := B32 (SFabs (b32 x));
  fltb x y := SFltb (b32 x) (b32 y);
  is_nan x := sf_is_nan (b32 x);
|}.

(** Rounding a binary64 number to binary32. *)
Definition round_to_b32 (x : spec_float) : spec_float :=
  match x with
  | S754_finite s m e =>
      binary_normalize 24 128 (if s then Z.neg m else Z.pos m) e s
  | _ => x
  end.

#[export] Instance b64_b32_promote : Promote binary64 binary32 :=
  fun x => B32 (round_to_b32 (b64 x)).

(** ** Command-line arguments *)

(** The numeric fields of [args] that the modelled code reads (the boolean
    flags parsed with [type=bool] are in [BoolFlags] below); [batch_size]
    and [minibatch_size] are the two derived fields set at the end of
    [parse_args]. *)
Record Args (P : Type) := {
  num_agents : Z;
  total_timesteps : Z;
  learning_rate : P;
  num_envs : Z;
  num_steps : Z;
  anneal_lr : bool;
  gamma : P;
  gae_lambda : P;
  num_minibatches : Z;
  update_epochs : Z;
  norm_adv : bool;
  clip_coef : P;
  clip_vloss : bool;
  ent_coef : P;
  vf_coef : P;
  max_grad_norm : P;
  target_kl : option P;
}.
Arguments learning_rate {P}.
Arguments num_agents {P}.
Arguments num_envs {P}.
Arguments num_steps {P}.
Arguments anneal_lr {P}.
Arguments gamma {P}.
Arguments gae_lambda {P}.
Arguments num_minibatches {P}.
Arguments update_epochs {P}.
Arguments norm_adv {P}.
Arguments clip_coef {P}.
Arguments ent_coef {P}.
Arguments vf_coef {P}.
Arguments max_grad_norm {P}.
Arguments clip_vloss {P}.
Arguments target_kl {P}.
Arguments total_timesteps {P}.

(** [args.batch_size = int(args.num_envs * args.num_steps)]. *)
Definition batch_size {P} (args : Args P) : Z := num_envs args * num_steps args.

(** [args.minibatch_size = int(args.batch_size // args.num_minibatches)];
    [//] by zero raises [ZeroDivisionError]. *)
Definition minibatch_size {P} (args : Args P) : option Z :=
  if num_minibatches args =? 0 then None
  else Some (batch_size args / num_minibatches args).

(** ** Tensors *)

(** A float32 tensor of shape (A) is a list of entries, one of shape (H, A) a
    list of rows. *)
Abbreviation vec F := (list F) (only parsing).
Abbreviation mat F := (list (list F)) (only parsing).

(** Elementwise binary operation on two tensors of the same shape; shapes
    that differ raise in torch (all rows of the rollout buffer have
    [num_agents] columns, so size-1 broadcasting never comes into play). *)
Definition vop {F} (f : F -> F -> F) (x y : vec F) : option (vec F) :=
  if decide (length x = length y) then Some (zip_with f x y) else None.

Fixpoint mop {F} (f : F -> F -> F) (x y : mat F) : option (mat F) :=
  match x, y with
  | [], [] => Some []
  | r :: x', s :: y' =>
      row ← vop f r s; rest ← mop f x' y'; Some (row :: rest)
  | _, _ => None
  end.

(** Entry (t, a) of a matrix. *)
Definition tget {F} (m : mat F) (t a : nat) : option F :=
  row ← m !! t; row !! a.

(** [m[t] = row]: assignment to a row of an (H, A) tensor; the index must be
    in range and the row must have the tensor's row shape. *)
Definition set_row {F} (m : mat F) (t : nat) (row : vec F) : option (mat F) :=
  old ← m !! t;
  if decide (length old = length row) then Some (<[t := row]> m) else None.

(** Every row of [m] has [A] entries and there are [H] rows. *)
Definition shape {F} (H A : nat) (m : mat F) : Prop :=
  length m = H /\ Forall (fun r => length r = A) m.

(** The (m, A) tensor whose entry (i, a) is [g i a]. *)
Definition tabulate {F} (m A : nat) (g : nat -> nat -> F) : mat F :=
  map (fun i => map (g i) (seq 0 A)) (seq 0 m).

(** [torch.zeros(n)] and [torch.zeros_like(m)]. *)
Definition zeros `{FloatOps F} (n : nat) : vec F := replicate n (of_Z 0).
Definition zeros_like `{FloatOps F} (m : mat F) : mat F :=
  map (fun r => zeros (length r)) m.

(** ** Rollout buffer *)

(** [rollout_data]: a tensordict of tensors whose first dimension is
    [num_steps]; one list entry per timestep in every column.  [Obs] is one
    timestep's nested ["observations"] tensordict. *)
Record Rollout (Obs F : Type) := {
  observations : list Obs;
  actions : list (list Z);
  logprobs : mat F;
  entropy : list F;
  rewards : mat F;
  done : list bool;
  values : mat F;
}.
Arguments observations {Obs F}.
Arguments actions {Obs F}.
Arguments logprobs {Obs F}.
Arguments entropy {Obs F}.
Arguments rewards {Obs F}.
Arguments done {Obs F}.
Arguments values {Obs F}.

(** ** Advantage estimator (lines 399-423) *)

Section Estimator.
Context {P F Obs : Type} `{!FloatOps P, !FloatOps F, !Promote P F}.

(** [1.0 - flag.item()]: the flag is a Python bool, converted to float. *)
Definition nonterminal (flag : bool) : P :=
  fsub (of_Z 1) (of_Z (if flag then 1 else 0)).

(** [c * v] for a Python float [c] and a tensor [v]. *)
Definition scale_l (c : P) (v : vec F) : vec F :=
  map (fun x => fmul (promote c) x) v.

(** [v * c] for a tensor [v] and a Python float [c]. *)
Definition scale_r (v : vec F) (c : P) : vec F :=
  map (fun x => fmul x (promote c)) v.

(** The [if t == args.num_steps - 1] branch: the pair
    [(nextnonterminal, nextvalues)]. *)
Definition gae_next (args : Args P) (buf : Rollout Obs F)
    (next_value : vec F) (next_done : bool) (t : nat) : option (P * vec F) :=
  if Z.of_nat t =? num_steps args - 1 then
    Some (nonterminal next_done, next_value)
  else
    d ← done buf !! (t + 1)%nat;
    v ← values buf !! (t + 1)%nat;
    Some (nonterminal d, v).

(** The value assigned to [advantages[t]] and [lastgaelam] in iteration [t]. *)
Definition gae_row (args : Args P) (buf : Rollout Obs F)
    (next_value : vec F) (next_done : bool) (t : nat) (lastgaelam : vec F)
    : option (vec F) :=
  '(nextnonterminal, nextvalues) ← gae_next args buf next_value next_done t;
  r ← rewards buf !! t;
  v ← values buf !! t;
  x ← vop fadd r (scale_r (scale_l (gamma args) nextvalues) nextnonterminal);
  delta ← vop fsub x v;
  vop fadd delta
    (scale_l (fmul (fmul (gamma args) (gae_lambda args)) nextnonterminal)
             lastgaelam).

(** [for t in reversed(range(args.num_steps))]: [gae_loop n] runs the
    iterations t = n-1, ..., 0 on the loop state [(advantages, lastgaelam)]. *)
Fixpoint gae_loop (args : Args P) (buf : Rollout Obs F)
    (next_value : vec F) (next_done : bool)
    (n : nat) (advantages : mat F) (lastgaelam : vec F)
    : option (mat F * vec F) :=
  match n with
  | O => Some (advantages, lastgaelam)
  | S t =>
      row ← gae_row args buf next_value next_done t lastgaelam;
      advantages' ← set_row advantages t row;
      gae_loop args buf next_value next_done t advantages' row
  end.

(** The whole [with torch.no_grad()] block after [next_value] is computed:
    returns [(advantages, returns)]. *)
Definition estimate (args : Args P) (buf : Rollout Obs F)
    (next_value : vec F) (next_done : bool) : option (mat F * mat F) :=
  '(advantages, _) ←
     gae_loop args buf next_value next_done
       (Z.to_nat (num_steps args))
       (zeros_like (rewards buf))
       (zeros (Z.to_nat (num_agents args)));
  returns ← mop fadd advantages (values buf);
  Some (advantages, returns).

(** *** The recursion as the specification writes it, entry by entry *)

(** Entry (t, a) with the default 0 outside the tensor. *)
Definition at2 (m : mat F) (t a : nat) : F := default (of_Z 0) (tget m t a).

Definition spec_nextnonterminal (args : Args P) (buf : Rollout Obs F)
    (bootstrap_done : bool) (t : nat) : P :=
  if Z.of_nat t =? num_steps args - 1 then nonterminal bootstrap_done
  else nonterminal (default false (done buf !! (t + 1)%nat)).

Definition spec_nextvalue (args : Args P) (buf : Rollout Obs F)
    (bootstrap_value : vec F) (t a : nat) : F :=
  if Z.of_nat t =? num_steps args - 1 then default (of_Z 0) (bootstrap_value !! a)
  else at2 (values buf) (t + 1) a.

Definition spec_delta (args : Args P) (buf : Rollout Obs F)
    (bootstrap_value : vec F) (bootstrap_done : bool) (t a : nat) : F :=
  fsub
    (fadd (at2 (rewards buf) t a)
       (fmul (fmul (promote (gamma args))
                (spec_nextvalue args buf bootstrap_value t a))
          (promote (spec_nextnonterminal args buf bootstrap_done t))))
    (at2 (values buf) t a).

(** [lastgaelam] when iteration [t] starts: the advantage of [t+1], zero at
    the first iteration. *)
Definition spec_lastgaelam (args : Args P) (advantages : mat F) (t a : nat) : F :=
  if Z.of_nat t =? num_steps args - 1 then of_Z 0
  else at2 advantages (t + 1) a.

Definition spec_advantage (args : Args P) (buf : Rollout Obs F)
    (bootstrap_value : vec F) (bootstrap_done : bool)
    (advantages : mat F) (t a : nat) : F :=
  fadd (spec_delta args buf bootstrap_value bootstrap_done t a)
    (fmul
       (promote (fmul (fmul (gamma args) (gae_lambda args))
                   (spec_nextnonterminal args buf bootstrap_done t)))
       (spec_lastgaelam args advantages t a)).

(** A filled buffer: every column the estimator reads has [num_steps] rows of
    [num_agents] entries. *)
Definition filled (args : Args P) (buf : Rollout Obs F) : Prop :=
  shape (Z.to_nat (num_steps args)) (Z.to_nat (num_agents args)) (rewards buf)
  /\ shape (Z.to_nat (num_steps args)) (Z.to_nat (num_agents args)) (values buf)
  /\ length (done buf) = Z.to_nat (num_steps args).

(** *** Monte-Carlo return, as the specification words it *)

(** The undiscounted return accumulated from [t] to the end of the episode:
    the rewards of t, t+1, ... up to the step after which the episode is
    done; when the horizon ends first the bootstrap value is added (nothing
    is added when the bootstrap step is itself terminal).  [n] counts the
    steps left in the horizon, [n = num_steps - t]. *)
Fixpoint episode_return (args : Args P) (buf : Rollout Obs F)
    (bootstrap_value : vec F) (bootstrap_done : bool) (n t a : nat) : F :=
  match n with
  | O => of_Z 0
  | S n' =>
      fadd (at2 (rewards buf) t a)
        (if Z.of_nat t =? num_steps args - 1 then
           if bootstrap_done then of_Z 0
           else default (of_Z 0) (bootstrap_value !! a)
         else if default false (done buf !! (t + 1)%nat) then of_Z 0
         else episode_return args buf bootstrap_value bootstrap_done
                n' (t + 1) a)
  end.

(** The identity "advantage = Monte-Carlo return - value" for [gamma = 1] and
    [gae_lambda = 1], as a statement about the estimator over a given
    arithmetic. *)
Definition monte_carlo_identity : Prop :=
  forall (args : Args P) (buf : Rollout Obs F) (next_value : vec F)
         (next_done : bool) (advantages returns : mat F),
    gamma args = of_Z 1 -> gae_lambda args = of_Z 1 ->
    filled args buf ->
    length next_value = Z.to_nat (num_agents args) ->
    estimate args buf next_value next_done = Some (advantages, returns) ->
    forall t a, (t < Z.to_nat (num_steps args))%nat ->
                (a < Z.to_nat (num_agents args))%nat ->
      at2 advantages t a =
      fsub (episode_return args buf next_value next_done
              (Z.to_nat (num_steps args) - t) t a)
           (at2 (values buf) t a).

End Estimator.

(** ** Boolean command-line flags (lines 90-97) *)

(** Python's [bool(x)] on a [str]: a string is true exactly when it is not
    empty.  This is the [type=bool] converter of the three flags. *)
Definition py_bool (s : string) : bool :=
  match s with
  | EmptyString => false
  | String _ _ => true
  end.

(** The destinations of [--use-pretrained-network], [--do-training] and
    [--do-render]. *)
Record BoolFlags := {
  use_pretrained_network : bool;
  do_training : bool;
  do_render : bool;
}.

(** The [default=] values of the three flags. *)
Definition default_flags : BoolFlags := {|
  use_pretrained_network := true;
  do_training := true;
  do_render := false;
|}.

(** The store action of one flag: the converted value replaces the field. *)
Definition store_flag (opt : string) (value : bool) (ns : BoolFlags)
    : option BoolFlags :=
  if String.eqb opt "--use-pretrained-network" then
    Some {| use_pretrained_network := value;
            do_training := do_training ns;
            do_render := do_render ns |}
  else if String.eqb opt "--do-training" then
    Some {| use_pretrained_network := use_pretrained_network ns;
            do_training := value;
            do_render := do_render ns |}
  else if String.eqb opt "--do-render" then
    Some {| use_pretrained_network := use_pretrained_network ns;
            do_training := do_training ns;
            do_render := value |}
  else None.

Section ParseFlags.

(** argparse decides by its own rules (negative numbers, embedded spaces,
    known option strings and their abbreviations) whether a command-line
    word that starts with a dash is the value of the preceding flag or an
    option of its own; that decision is a parameter here. *)
Variable dash_word_is_value : string -> bool.

(** Whether a word can be consumed as the value of a flag: the empty word
    and every word that does not start with a dash can. *)
Definition is_value (word : string) : bool :=
  match word with
  | String "-"%char _ => dash_word_is_value word
  | _ => true
  end.

(** [parser.parse_args()] on a command line that holds only the three flags,
    each written [--flag VALUE]; a flag without a value or an unknown option
    ends the program with a usage error ([None]). *)
Fixpoint parse_flags (argv : list string) (ns : BoolFlags) : option BoolFlags :=
  match argv with
  | [] => Some ns
  | opt :: rest =>
      match rest with
      | [] => None
      | word :: rest' =>
          if is_value word then
            ns' ← store_flag opt (py_bool word) ns;
            parse_flags rest' ns'
          else None
      end
  end.

Definition parse_bool_flags (argv : list string) : option BoolFlags :=
  parse_flags argv default_flags.

End ParseFlags.

(** ** Environment adapter: [RailEnvTd] *)

(** [flatland.envs.step_utils.states.TrainState], the enumeration imported
    at line 22, with its two classification methods. *)
Inductive TrainState :=
  | WAITING | READY_TO_DEPART | MALFUNCTION_OFF_MAP
  | MOVING | STOPPED | MALFUNCTION
  | DONE.

#[export] Instance TrainState_eq_dec : EqDecision TrainState.
Proof. solve_decision. Defined.

Definition is_off_map_state (s : TrainState) : bool :=
  match s with
  | WAITING | READY_TO_DEPART | MALFUNCTION_OFF_MAP => true
  | _ => false
  end.

Definition is_on_map_state (s : TrainState) : bool :=
  match s with
  | MOVING | STOPPED | MALFUNCTION => true
  | _ => false
  end.

(** The attributes of a flatland agent that [update_step_rewards] reads;
    [arrival_time] is [None] until the agent has arrived. *)
Record Agent := {
  state : TrainState;
  latest_arrival : Z;
  arrival_time : option Z;
}.

Section Rewards.

(** The two flatland methods called on the agent:
    [agent.get_travel_time_on_shortest_path(self.distance_map)] and
    [agent.get_current_delay(self._elapsed_steps, self.distance_map)].  The
    distance map and the step counter belong to the simulator state [Sim]. *)
Variable Sim : Type.
Variable get_travel_time_on_shortest_path : Agent -> Sim -> Z.
Variable get_current_delay : Agent -> Sim -> Z.

(** The fields of the environment that [update_step_rewards] touches. *)
Record RewardEnv := {
  agents : list Agent;
  sim : Sim;
  cancellation_factor : Z;
  cancellation_time_buffer : Z;
  rewards_dict : gmap nat Z;
}.

(** The value of the local variable [reward] when line 210 is reached.
    [None] stands for the two ways in which the method raises [TypeError]
    there or before: the subtraction from a missing [arrival_time], and
    [+= None] when no branch has assigned [reward]. *)
Definition step_reward (env : RewardEnv) (agent : Agent) : option Z :=
  if decide (state agent = DONE) then
    arrival ← arrival_time agent;
    Some (Z.min (latest_arrival agent - arrival) 0)
  else
    let reward : option Z := None in
    let reward :=
      if is_off_map_state (state agent) then
        Some (-1 * cancellation_factor env
              * (get_travel_time_on_shortest_path agent (sim env)
                 + cancellation_time_buffer env))
      else reward in
    let reward :=
      if is_on_map_state (state agent) then
        Some (get_current_delay agent (sim env))
      else reward in
    reward.

(** [update_step_rewards(i_agent)]: the reward is added to the agent's entry
    of [rewards_dict]. *)
Definition update_step_rewards (env : RewardEnv) (i_agent : nat)
    : option RewardEnv :=
  agent ← agents env !! i_agent;
  reward ← step_reward env agent;
  total ← rewards_dict env !! i_agent;
  Some {| agents := agents env;
          sim := sim env;
          cancellation_factor := cancellation_factor env;
          cancellation_time_buffer := cancellation_time_buffer env;
          rewards_dict := <[i_agent := total + reward]> (rewards_dict env) |}.

End Rewards.

Arguments agents {Sim}.
Arguments sim {Sim}.
Arguments cancellation_factor {Sim}.
Arguments cancellation_time_buffer {Sim}.
Arguments rewards_dict {Sim}.
Arguments step_reward {Sim}.
Arguments update_step_rewards {Sim}.

(** ** Python ranges and slices *)

(** [range(0, stop, step)]; a zero step raises [ValueError]. *)
Definition py_range (stop step : Z) : option (list Z) :=
  if step =? 0 then None
  else
    let len :=
      if 0 <? step then (if 0 <? stop then 1 + (stop - 1) / step else 0)
      else (if stop <? 0 then 1 + (- stop - 1) / (- step) else 0) in
    Some (map (fun k => Z.of_nat k * step) (seq 0 (Z.to_nat len))).

(** A slice bound brought into [0, len]: negative bounds count from the
    end, bounds past the end are clipped. *)
Definition slice_bound (len i : Z) : Z :=
  if i <? 0 then Z.max (i + len) 0 else Z.min i len.

(** [l[start:stop]]. *)
Definition py_slice {A} (l : list A) (start stop : Z) : list A :=
  let lo := slice_bound (Z.of_nat (length l)) start in
  let hi := slice_bound (Z.of_nat (length l)) stop in
  take (Z.to_nat (hi - lo)) (drop (Z.to_nat lo) l).

(** [np.arange(n)]. *)
Definition arange (n : Z) : list nat := seq 0 (Z.to_nat n).

(** [m[inds]] for an index array: one row per index, [IndexError] when an
    index is past the end. *)
Definition gather {A} (m : list A) (inds : list nat) : option (list A) :=
  mapM (fun i => m !! i) inds.

(** ** Minibatches of one epoch (lines 430-432) *)

(** The index arrays [mb_inds] of the iterations of
    [for start in range(0, args.batch_size, args.minibatch_size)], given the
    shuffled [b_inds]. *)
Definition minibatches {P} (args : Args P) (b_inds : list nat)
    : option (list (list nat)) :=
  size ← minibatch_size args;
  starts ← py_range (batch_size args) size;
  Some (map (fun start => py_slice b_inds start (start + size)) starts).

(** The partition as the specification words it, for every command line
    with [num_steps = 20] and [num_minibatches = 20]: the minibatch size is
    1, and the minibatches of an epoch split any shuffled order of the
    indices, each index of [0, 20) in exactly one of them, all of them
    together the whole horizon. *)
Definition partitions_horizon (P : Type) : Prop :=
  forall (args : Args P) (b_inds : list nat),
    num_steps args = 20 -> num_minibatches args = 20 ->
    b_inds ≡ₚ arange (num_steps args) ->
    minibatch_size args = Some 1
    /\ exists mbs,
         minibatches args b_inds = Some mbs
         /\ concat mbs = b_inds
         /\ forall i, (i < 20)%nat ->
              exists k mb,
                mbs !! k = Some mb /\ i ∈ mb
                /\ forall k' mb', mbs !! k' = Some mb' -> i ∈ mb' -> k' = k.

(** ** Learning rate schedule (lines 359-367) *)

(** [num_updates = args.total_timesteps // args.batch_size]. *)
Definition num_updates {P} (args : Args P) : option Z :=
  if batch_size args =? 0 then None
  else Some (total_timesteps args / batch_size args).

(** [frac * args.learning_rate] with
    [frac = 1.0 - (update - 1.0) / num_updates]. *)
Definition lrnow {P} `{!FloatOps P} (args : Args P) (n update : Z) : P :=
  let frac := fsub (of_Z 1) (fdiv (fsub (of_Z update) (of_Z 1)) (of_Z n)) in
  fmul frac (learning_rate args).

(** The optimizer's learning rate during update [update], given the rate
    [lr] it had before: only annealing writes to it. *)
Definition lr_of_update {P} `{!FloatOps P} (args : Args P) (n update : Z)
    (lr : P) : P :=
  if anneal_lr args then lrnow args n update else lr.

(** [range(1, num_updates + 1)]. *)
Definition updates (n : Z) : list Z :=
  map (fun k => Z.of_nat k + 1) (seq 0 (Z.to_nat n)).

(** The rates of a whole run, update by update, starting from the rate the
    optimizer is created with. *)
Definition lr_schedule {P} `{!FloatOps P} (args : Args P) : option (list P) :=
  n ← num_updates args;
  Some (map (fun u => lr_of_update args n u (learning_rate args)) (updates n)).

(** The schedule as the specification words it: the rate reaches zero at
    the last update of the run. *)
Definition anneals_to_zero (P : Type) `{!FloatOps P} : Prop :=
  forall (args : Args P) (n : Z),
    anneal_lr args = true -> num_updates args = Some n -> 1 <= n ->
    lr_of_update args n n (learning_rate args) = of_Z 0.

(** ** Policy update (lines 426-501) *)

(** What [td_module] writes for a batch of rows: the out-keys ["actions"],
    ["logprobs"], ["entropy"] and ["values"]. *)
Record ModuleOut (F : Type) := {
  out_actions : list (list Z);
  out_logprobs : mat F;
  out_entropy : list F;
  out_values : mat F;
}.
Arguments out_actions {F}.
Arguments out_logprobs {F}.
Arguments out_entropy {F}.
Arguments out_values {F}.

(** [f] applied to every entry of an (m, A) tensor. *)
Definition mmap {F G} (f : F -> G) (m : mat F) : mat G := map (map f) m.

Section Update.
Context {P F Obs : Type} `{!FloatOps P, !FloatOps F, !Promote P F}.

(** Library operations on float32 tensors that are taken as given: the
    reductions [.mean()] and [.std()] over all entries and [torch.exp]. *)
Variable tmean : list F -> F.
Variable tstd : list F -> F.
Variable texp : F -> F.

(** The network with its optimizer: [Net] is the state that gradient steps
    change, [forward] is [td_module] on a batch of observations and stored
    actions, and [optimize] is the sequence [optimizer.zero_grad()],
    [loss.backward()], [clip_grad_norm_], [optimizer.step()] for the loss of
    one minibatch at learning rate [lr]. *)
Variable Net : Type.
Variable forward : Net -> list Obs -> list (list Z) -> ModuleOut F.
Variable optimize :
  P -> Net -> Rollout Obs F -> mat F -> mat F -> list nat -> Net.

(** [np.random.shuffle] on the generator state [Rng]. *)
Variable Rng : Type.
Variable shuffle : Rng -> list nat -> Rng * list nat.

(** *** Value loss (lines 466-480) *)

(** [x ** 2] on tensors. *)
Definition msquare (m : mat F) : mat F := mmap (fun x => fmul x x) m.

(** [v_loss] for the minibatch [mb_inds], from the re-evaluated values
    [newvalue], the stored values and the returns. *)
Definition v_loss (args : Args P) (newvalue old_values returns : mat F)
    (mb_inds : list nat) : option F :=
  if clip_vloss args then
    returns_mb ← gather returns mb_inds;
    err ← mop fsub newvalue returns_mb;
    let v_loss_unclipped := msquare err in
    old_mb ← gather old_values mb_inds;
    change ← mop fsub newvalue old_mb;
    v_clipped ←
      mop fadd old_mb
        (mmap (fun x => clamp x (promote (fopp (clip_coef args)))
                                (promote (clip_coef args))) change);
    err_clipped ← mop fsub v_clipped returns_mb;
    let v_loss_clipped := msquare err_clipped in
    v_loss_max ← mop fmax v_loss_unclipped v_loss_clipped;
    Some (fmul (promote (dec 5 10)) (tmean (concat v_loss_max)))
  else
    returns_mb ← gather returns mb_inds;
    err ← mop fsub newvalue returns_mb;
    Some (fmul (promote (dec 5 10)) (tmean (concat (msquare err)))).

(** *** Value loss, as the specification words it *)

(** Squared error of one value against one return. *)
Definition squared_error (value ret : F) : F :=
  fmul (fsub value ret) (fsub value ret).

(** The old stored value plus the value change clamped to
    [-clip_coef, +clip_coef]. *)
Definition spec_v_clipped (args : Args P) (new old : F) : F :=
  fadd old (clamp (fsub new old) (promote (fopp (clip_coef args)))
                                 (promote (clip_coef args))).

(** The loss term of one entry of the minibatch. *)
Definition spec_v_term (args : Args P) (new old ret : F) : F :=
  if clip_vloss args then
    fmax (squared_error new ret)
         (squared_error (spec_v_clipped args new old) ret)
  else squared_error new ret.

(** The entries (i, a) of the minibatch, row by row. *)
Definition spec_v_terms (args : Args P) (newvalue old_values returns : mat F)
    (mb_inds : list nat) (A : nat) : list F :=
  flat_map
    (fun i =>
       map (fun a =>
              let t := default O (mb_inds !! i) in
              spec_v_term args (at2 newvalue i a) (at2 old_values t a)
                          (at2 returns t a))
           (seq 0 A))
    (seq 0 (length mb_inds)).

Definition spec_v_loss (args : Args P) (newvalue old_values returns : mat F)
    (mb_inds : list nat) (A : nat) : F :=
  fmul (promote (dec 5 10))
       (tmean (spec_v_terms args newvalue old_values returns mb_inds A)).

(** *** One minibatch (lines 431-496) *)

(** The variables of the update loop that outlive an iteration; a name that
    has not been assigned yet is [None]. *)
Record Trainer := {
  net : Net;
  rng : Rng;
  b_inds : list nat;
  clipfracs : list F;
  old_approx_kl : option F;
  approx_kl : option F;
  cur_v_loss : option F;
  cur_pg_loss : option F;
  cur_entropy_loss : option F;
}.

(** Policy loss of the minibatch, from the ratios and the advantages. *)
Definition pg_loss (args : Args P) (ratio mb_advantages : mat F) : option F :=
  let flat := concat mb_advantages in
  let mb_advantages :=
    if norm_adv args then
      mmap (fun x => fdiv (fsub x (tmean flat))
                          (fadd (tstd flat) (promote (dec 1 100000000))))
           mb_advantages
    else mb_advantages in
  pg_loss1 ← mop fmul (mmap fopp mb_advantages) ratio;
  pg_loss2 ←
    mop fmul (mmap fopp mb_advantages)
      (mmap (fun x => clamp x (promote (fsub (of_Z 1) (clip_coef args)))
                              (promote (fadd (of_Z 1) (clip_coef args))))
            ratio);
  both ← mop fmax pg_loss1 pg_loss2;
  Some (tmean (concat both)).

(** The body of [for start in range(...)] for one [start]. *)
Definition minibatch_step (args : Args P) (flags : BoolFlags) (lr : P)
    (buf : Rollout Obs F) (advantages returns : mat F)
    (size start : Z) (tr : Trainer) : option Trainer :=
  let mb_inds := py_slice (b_inds tr) start (start + size) in
  obs_mb ← gather (observations buf) mb_inds;
  act_mb ← gather (actions buf) mb_inds;
  let updated := forward (net tr) obs_mb act_mb in
  old_logprobs ← gather (logprobs buf) mb_inds;
  logratio ← mop fsub (out_logprobs updated) old_logprobs;
  let ratio := mmap texp logratio in
  let old_kl := tmean (concat (mmap fopp logratio)) in
  kl_terms ← mop fsub (mmap (fun x => fsub x (of_Z 1)) ratio) logratio;
  let kl := tmean (concat kl_terms) in
  let clipfrac :=
    tmean (concat
      (mmap (fun x => if fgtb (fabs (fsub x (of_Z 1))) (promote (clip_coef args))
                      then of_Z 1 else of_Z 0) ratio)) in
  mb_advantages ← gather advantages mb_inds;
  pg ← pg_loss args ratio mb_advantages;
  vl ← v_loss args (out_values updated) (values buf) returns mb_inds;
  let entropy_loss := tmean (out_entropy updated) in
  let net' :=
    if do_training flags
    then optimize lr (net tr) buf advantages returns mb_inds
    else net tr in
  Some {| net := net';
          rng := rng tr;
          b_inds := b_inds tr;
          clipfracs := clipfracs tr ++ [clipfrac];
          old_approx_kl := Some old_kl;
          approx_kl := Some kl;
          cur_v_loss := Some vl;
          cur_pg_loss := Some pg;
          cur_entropy_loss := Some entropy_loss |}.

(** [for start in range(0, args.batch_size, args.minibatch_size)]. *)
Fixpoint minibatch_loop (args : Args P) (flags : BoolFlags) (lr : P)
    (buf : Rollout Obs F) (advantages returns : mat F)
    (size : Z) (starts : list Z) (tr : Trainer) : option Trainer :=
  match starts with
  | [] => Some tr
  | start :: rest =>
      tr' ← minibatch_step args flags lr buf advantages returns size start tr;
      minibatch_loop args flags lr buf advantages returns size rest tr'
  end.

(** One pass of [for epoch in range(args.update_epochs)] up to, and not
    including, the test of [target_kl]: the shuffle and all minibatches. *)
Definition epoch (args : Args P) (flags : BoolFlags) (lr : P)
    (buf : Rollout Obs F) (advantages returns : mat F) (tr : Trainer)
    : option Trainer :=
  let '(rng', shuffled) := shuffle (rng tr) (b_inds tr) in
  let tr := {| net := net tr; rng := rng'; b_inds := shuffled;
               clipfracs := clipfracs tr;
               old_approx_kl := old_approx_kl tr;
               approx_kl := approx_kl tr;
               cur_v_loss := cur_v_loss tr;
               cur_pg_loss := cur_pg_loss tr;
               cur_entropy_loss := cur_entropy_loss tr |} in
  size ← minibatch_size args;
  starts ← py_range (batch_size args) size;
  minibatch_loop args flags lr buf advantages returns size starts tr.

(** The test at the end of an epoch, lines 499-501: [Some true] is [break].
    With a threshold configured, [approx_kl] must have been assigned. *)
Definition kl_break (args : Args P) (tr : Trainer) : option bool :=
  match target_kl args with
  | None => Some false
  | Some threshold =>
      kl ← approx_kl tr;
      Some (fgtb kl (promote threshold))
  end.

(** [for epoch in range(args.update_epochs)], [n] epochs to go. *)
Fixpoint epoch_loop (args : Args P) (flags : BoolFlags) (lr : P)
    (buf : Rollout Obs F) (advantages returns : mat F)
    (n : nat) (tr : Trainer) : option Trainer :=
  match n with
  | O => Some tr
  | S n' =>
      tr' ← epoch args flags lr buf advantages returns tr;
      stop ← kl_break args tr';
      if stop : bool then Some tr'
      else epoch_loop args flags lr buf advantages returns n' tr'
  end.

(** Lines 426-501: the optimisation phase of one update. *)
Definition optimize_policy (args : Args P) (flags : BoolFlags) (lr : P)
    (buf : Rollout Obs F) (advantages returns : mat F) (tr : Trainer)
    : option Trainer :=
  let tr := {| net := net tr; rng := rng tr;
               b_inds := arange (num_steps args);
               clipfracs := [];
               old_approx_kl := old_approx_kl tr;
               approx_kl := approx_kl tr;
               cur_v_loss := cur_v_loss tr;
               cur_pg_loss := cur_pg_loss tr;
               cur_entropy_loss := cur_entropy_loss tr |} in
  epoch_loop args flags lr buf advantages returns
    (Z.to_nat (update_epochs args)) tr.

(** [k] epochs in a row, without any test between them. *)
Fixpoint epochs (args : Args P) (flags : BoolFlags) (lr : P)
    (buf : Rollout Obs F) (advantages returns : mat F)
    (k : nat) (tr : Trainer) : option Trainer :=
  match k with
  | O => Some tr
  | S k' =>
      tr' ← epoch args flags lr buf advantages returns tr;
      epochs args flags lr buf advantages returns k' tr'
  end.

End Update.

Arguments Trainer : clear implicits.
Arguments net {F Net Rng}.
Arguments rng {F Net Rng}.
Arguments b_inds {F Net Rng}.
Arguments clipfracs {F Net Rng}.
Arguments old_approx_kl {F Net Rng}.
Arguments approx_kl {F Net Rng}.
Arguments cur_v_loss {F Net Rng}.
Arguments cur_pg_loss {F Net Rng}.
Arguments cur_entropy_loss {F Net Rng}.
Arguments minibatch_step {P F Obs _ _ _} tmean tstd texp {Net} forward optimize {Rng}.
Arguments minibatch_loop {P F Obs _ _ _} tmean tstd texp {Net} forward optimize {Rng}.
Arguments epoch {P F Obs _ _ _} tmean tstd texp {Net} forward optimize {Rng} shuffle.
Arguments kl_break {P F _ _ Net Rng}.
Arguments epoch_loop {P F Obs _ _ _} tmean tstd texp {Net} forward optimize {Rng} shuffle.
Arguments epochs {P F Obs _ _ _} tmean tstd texp {Net} forward optimize {Rng} shuffle.
Arguments optimize_policy {P F Obs _ _ _} tmean tstd texp {Net} forward optimize {Rng} shuffle.

(** ** Tensordicts and the rollout loop (lines 114-179 and 369-388) *)

Section Adapter.
Context {F : Type} `{!FloatOps F}.

(** Feature arrays are produced by the observation builder and only passed
    on; [Tensor] is their type.  [Sim] is the state of the flatland
    [RailEnv] that [RailEnvTd] extends. *)
Variable Tensor : Type.
Variable Sim : Type.

(** The list returned as observations by the simulator: [obs_list[0]] and
    [obs_list[1][0..3]]. *)
Record RawObs := {
  raw_agents_attr : Tensor;
  raw_node_attr : Tensor;
  raw_adjacency : Tensor;
  raw_node_order : Tensor;
  raw_edge_order : Tensor;
}.

(** [super().reset()], [super().step(actions)] (observations, the values of
    the reward dict, [done["__all__"]]) and the third component of
    [self.obs_builder.get_properties()]. *)
Variable rail_reset : Sim -> Sim * RawObs.
Variable rail_step : Sim -> list Z -> Sim * (RawObs * list Z * bool).
Variable get_properties : Sim -> Tensor.

(** The entries of a tensordict: a nested tensordict of feature tensors, a
    boolean scalar, an int64 tensor, a float32 tensor. *)
Inductive value :=
  | VObs (o : gmap string Tensor)
  | VBool (b : bool)
  | VInts (l : list Z)
  | VFloats (l : list F).

(** [obs_to_td]. *)
Definition obs_to_td (obs_list : RawObs) : gmap string Tensor :=
  <["agents_attr" := raw_agents_attr obs_list]>
  (<["node_attr" := raw_node_attr obs_list]>
  (<["adjacency" := raw_adjacency obs_list]>
  (<["node_order" := raw_node_order obs_list]>
  (<["edge_order" := raw_edge_order obs_list]> ∅)))).

(** [td[key][inner] = x] for a nested tensordict entry. *)
Definition set_nested (td : gmap string value) (key inner : string)
    (x : Tensor) : option (gmap string value) :=
  match td !! key with
  | Some (VObs o) => Some (<[key := VObs (<[inner := x]> o)]> td)
  | _ => None
  end.

(** [RailEnvTd.reset(tensordict=None)].  [tensordict_out] is bound only when
    no tensordict is passed; otherwise its first use raises
    [UnboundLocalError]. *)
Definition reset (env : Sim) (tensordict : option (gmap string value))
    : option (Sim * gmap string value) :=
  let '(env, observations) := rail_reset env in
  tensordict_out ←
    match tensordict with
    | None => Some (∅ : gmap string value)
    | Some _ => None
    end;
  let tensordict_out :=
    <["observations" := VObs (obs_to_td observations)]> tensordict_out in
  let valid_actions := get_properties env in
  tensordict_out ←
    set_nested tensordict_out "observations" "valid_actions" valid_actions;
  Some (env, tensordict_out).

(** [RailEnvTd.step(tensordict)]: returns [(observation_td, rewards_td)]. *)
Definition step (env : Sim) (tensordict : gmap string value)
    : option (Sim * gmap string value * gmap string value) :=
  actions ←
    match tensordict !! "actions" with
    | Some (VInts a) => Some a
    | _ => None
    end;
  let '(env, (observations, rewards, done)) := rail_step env actions in
  let valid_actions := get_properties env in
  let observation_td : gmap string value := ∅ in
  let rewards_td : gmap string value := ∅ in
  let observation_td :=
    <["observations" := VObs (obs_to_td observations)]> observation_td in
  let rewards_td := <["rewards" := VInts rewards]> rewards_td in
  let observation_td := <["done" := VBool done]> observation_td in
  observation_td ←
    set_nested observation_td "observations" "valid_actions" valid_actions;
  Some (env, observation_td, rewards_td).

(** [dst.update_(src)] on two tensordicts: the entries of [src] overwrite
    those of [dst]; a key unknown to [dst] raises. *)
Definition td_update_ (dst src : gmap string value)
    : option (gmap string value) :=
  if decide (dom src ⊆ dom dst) then Some (src ∪ dst) else None.

(** *** Rows of the rollout buffer *)

Abbreviation Buffer := (Rollout (gmap string Tensor) F).

(** [column[step] = x] for a column without inner shape. *)
Definition set_entry {A} (column : list A) (step : nat) (x : A)
    : option (list A) :=
  if decide (step < length column)%nat then Some (<[step := x]> column)
  else None.

(** Writing one entry of a tensordict into row [step] of the buffer; int64
    rewards are converted to the float32 of the column. *)
Definition write_value (data : Buffer) (step : nat) (key : string) (v : value)
    : option Buffer :=
  if String.eqb key "observations" then
    match v with
    | VObs o =>
        col ← set_entry (observations data) step o;
        Some {| observations := col; actions := actions data;
                logprobs := logprobs data; entropy := entropy data;
                rewards := rewards data; done := done data;
                values := values data |}
    | _ => None
    end
  else if String.eqb key "actions" then
    match v with
    | VInts a =>
        col ← set_row (actions data) step a;
        Some {| observations := observations data; actions := col;
                logprobs := logprobs data; entropy := entropy data;
                rewards := rewards data; done := done data;
                values := values data |}
    | _ => None
    end
  else if String.eqb key "logprobs" then
    match v with
    | VFloats x =>
        col ← set_row (logprobs data) step x;
        Some {| observations := observations data; actions := actions data;
                logprobs := col; entropy := entropy data;
                rewards := rewards data; done := done data;
                values := values data |}
    | _ => None
    end
  else if String.eqb key "entropy" then
    match v with
    | VFloats [x] =>
        col ← set_entry (entropy data) step x;
        Some {| observations := observations data; actions := actions data;
                logprobs := logprobs data; entropy := col;
                rewards := rewards data; done := done data;
                values := values data |}
    | _ => None
    end
  else if String.eqb key "rewards" then
    match v with
    | VInts r =>
        col ← set_row (rewards data) step (map of_Z r);
        Some {| observations := observations data; actions := actions data;
                logprobs := logprobs data; entropy := entropy data;
                rewards := col; done := done data;
                values := values data |}
    | VFloats r =>
        col ← set_row (rewards data) step r;
        Some {| observations := observations data; actions := actions data;
                logprobs := logprobs data; entropy := entropy data;
                rewards := col; done := done data;
                values := values data |}
    | _ => None
    end
  else if String.eqb key "done" then
    match v with
    | VBool b =>
        col ← set_entry (done data) step b;
        Some {| observations := observations data; actions := actions data;
                logprobs := logprobs data; entropy := entropy data;
                rewards := rewards data; done := col;
                values := values data |}
    | _ => None
    end
  else if String.eqb key "values" then
    match v with
    | VFloats x =>
        col ← set_row (values data) step x;
        Some {| observations := observations data; actions := actions data;
                logprobs := logprobs data; entropy := entropy data;
                rewards := rewards data; done := done data;
                values := col |}
    | _ => None
    end
  else None.

(** The keys of [rollout_data], lines 341-350. *)
Definition rollout_keys : list string :=
  ["observations"; "actions"; "logprobs"; "entropy"; "rewards"; "done";
   "values"].

Fixpoint write_keys (td : gmap string value) (step : nat)
    (keys : list string) (data : Buffer) : option Buffer :=
  match keys with
  | [] => Some data
  | key :: rest =>
      data' ←
        match td !! key with
        | None => Some data
        | Some v => write_value data step key v
        end;
      write_keys td step rest data'
  end.

(** [rollout_data[step].update_(td)]: every entry of [td] is written into
    row [step]; a key that the buffer does not have raises. *)
Definition row_update_ (data : Buffer) (step : nat) (td : gmap string value)
    : option Buffer :=
  if decide (dom td ⊆ list_to_set rollout_keys) then
    write_keys td step rollout_keys data
  else None.

(** The row [rollout_data[step]] as a tensordict. *)
Definition buffer_row (data : Buffer) (step : nat)
    : option (gmap string value) :=
  o ← observations data !! step;
  a ← actions data !! step;
  l ← logprobs data !! step;
  e ← entropy data !! step;
  r ← rewards data !! step;
  d ← done data !! step;
  v ← values data !! step;
  Some (<["observations" := VObs o]>
       (<["actions" := VInts a]>
       (<["logprobs" := VFloats l]>
       (<["entropy" := VFloats [e]]>
       (<["rewards" := VFloats r]>
       (<["done" := VBool d]>
       (<["values" := VFloats v]> ∅))))))).

(** *** One iteration of the rollout loop *)

Variable Net : Type.
Variable forward :
  Net -> list (gmap string Tensor) -> list (list Z) -> ModuleOut F.

(** The variables of the rollout loop. *)
Record Collector := {
  env : Sim;
  rollout_data : Buffer;
  next_obs : gmap string value;
  global_step : Z;
}.

(** [rollout_data[[step]] = td_module(rollout_data[[step]])]: the module is
    applied to the one-row batch and its outputs are written back. *)
Definition apply_module (net : Net) (data : Buffer) (step : nat)
    : option Buffer :=
  o ← observations data !! step;
  a ← actions data !! step;
  let out := forward net [o] [a] in
  match out_actions out, out_logprobs out, out_entropy out, out_values out with
  | [a'], [l'], [e'], [v'] =>
      data ← write_value data step "actions" (VInts a');
      data ← write_value data step "logprobs" (VFloats l');
      data ← write_value data step "entropy" (VFloats [e']);
      write_value data step "values" (VFloats v')
  | _, _, _, _ => None
  end.

(** [td["done"]] read as a Python condition. *)
Definition done_flag (td : gmap string value) : option bool :=
  match td !! "done" with
  | Some (VBool b) => Some b
  | _ => None
  end.

(** Lines 371-380 of the iteration with [step = t]: up to and including the storing of
    the rewards.  Returns the loop variables and the [next_obs] that
    [env.step] returned. *)
Definition rollout_act {P} (args : Args P) (net : Net) (t : nat)
    (st : Collector) : option Collector :=
  let global_step := global_step st + 1 * num_envs args in
  data ← row_update_ (rollout_data st) t (next_obs st);
  data ← apply_module net data t;
  row ← buffer_row data t;
  '(env, next_obs, rewards) ← step (env st) row;
  data ← row_update_ data t rewards;
  Some {| env := env; rollout_data := data; next_obs := next_obs;
          global_step := global_step |}.

(** Lines 382-383: the reset at the end of an episode. *)
Definition rollout_reset (st : Collector) : option Collector :=
  flag ← done_flag (next_obs st);
  if flag : bool then
    '(env, fresh) ← reset (env st) None;
    next_obs ← td_update_ (next_obs st) fresh;
    Some {| env := env; rollout_data := rollout_data st;
            next_obs := next_obs; global_step := global_step st |}
  else Some st.

(** The body of [for step in range(0, args.num_steps)]. *)
Definition rollout_step {P} (args : Args P) (net : Net) (t : nat)
    (st : Collector) : option Collector :=
  st ← rollout_act args net t st;
  rollout_reset st.

(** The loop over the steps [first, first + 1, ..., first + n - 1]. *)
Fixpoint rollout_loop {P} (args : Args P) (net : Net) (n first : nat)
    (st : Collector) : option Collector :=
  match n with
  | O => Some st
  | S n' =>
      st ← rollout_step args net first st;
      rollout_loop args net n' (S first) st
  end.

(** Lines 369-388: the actions are cleared, then the horizon is filled. *)
Definition rollout {P} (args : Args P) (net : Net) (st : Collector)
    : option Collector :=
  let data := rollout_data st in
  let data :=
    {| observations := observations data;
       actions := map (map (fun _ => 0)) (actions data);
       logprobs := logprobs data; entropy := entropy data;
       rewards := rewards data; done := done data;
       values := values data |} in
  rollout_loop args net (Z.to_nat (num_steps args)) O
    {| env := env st; rollout_data := data; next_obs := next_obs st;
       global_step := global_step st |}.

(** Line 397: [next_obs['actions'] = torch.ones_like(rollout_data[0]['actions'])]. *)
Definition mark_bootstrap (st : Collector) : option Collector :=
  a ← actions (rollout_data st) !! O;
  Some {| env := env st; rollout_data := rollout_data st;
          next_obs := <["actions" := VInts (map (fun _ => 1) a)]> (next_obs st);
          global_step := global_step st |}.

End Adapter.

Arguments value : clear implicits.
Arguments VObs {F Tensor}.
Arguments VBool {F Tensor}.
Arguments VInts {F Tensor}.
Arguments VFloats {F Tensor}.
Arguments raw_agents_attr {Tensor}.
Arguments raw_node_attr {Tensor}.
Arguments raw_adjacency {Tensor}.
Arguments raw_node_order {Tensor}.
Arguments raw_edge_order {Tensor}.
Arguments obs_to_td {Tensor}.
Arguments set_nested {F Tensor}.
Arguments reset {F Tensor Sim} rail_reset get_properties.
Arguments step {F Tensor Sim} rail_step get_properties.
Arguments td_update_ {F Tensor}.
Arguments write_value {F _ Tensor}.
Arguments write_keys {F _ Tensor}.
Arguments row_update_ {F _ Tensor}.
Arguments buffer_row {F Tensor}.
Arguments Collector : clear implicits.
Arguments env {F Tensor Sim}.
Arguments rollout_data {F Tensor Sim}.
Arguments next_obs {F Tensor Sim}.
Arguments global_step {F Tensor Sim}.
Arguments apply_module {F _ Tensor Net} forward.
Arguments done_flag {F Tensor}.
Arguments rollout_act {F _ Tensor Sim} rail_step get_properties {Net} forward {P}.
Arguments rollout_reset {F Tensor Sim} rail_reset get_properties.
Arguments rollout_step {F _ Tensor Sim} rail_reset rail_step get_properties {Net} forward {P}.
Arguments rollout_loop {F _ Tensor Sim} rail_reset rail_step get_properties {Net} forward {P}.
Arguments rollout {F _ Tensor Sim} rail_reset rail_step get_properties {Net} forward {P}.
Arguments mark_bootstrap {F Tensor Sim}.

(** ** The training loop (lines 357-514) *)

Section Training.
Context {P F : Type} `{!FloatOps P, !FloatOps F, !Promote P F}.
Variables (Tensor Sim : Type).
Variable rail_reset : Sim -> Sim * RawObs Tensor.
Variable rail_step : Sim -> list Z -> Sim * (RawObs Tensor * list Z * bool).
Variable get_properties : Sim -> Tensor.
Variables (tmean tstd : list F -> F) (texp : F -> F).
Variable Net : Type.
Variable forward :
  Net -> list (gmap string Tensor) -> list (list Z) -> ModuleOut F.
Variable optimize :
  P -> Net -> Rollout (gmap string Tensor) F -> mat F -> mat F -> list nat
  -> Net.
Variable Rng : Type.
Variable shuffle : Rng -> list nat -> Rng * list nat.

(** Everything that one update hands to the next: the rollout variables,
    the update variables and the learning rate held by the optimizer. *)
Record Training := {
  collector : Collector F Tensor Sim;
  trainer : Trainer F Net Rng;
  lr : P;
}.

(** [td_module(next_obs.unsqueeze(0))["values"]], line 400. *)
Definition bootstrap_value (net : Net) (td : gmap string (value F Tensor))
    : option (vec F) :=
  match td !! "observations", td !! "actions" with
  | Some (VObs o), Some (VInts a) =>
      match out_values (forward net [o] [a]) with
      | [v] => Some v
      | _ => None
      end
  | _, _ => None
  end.

(** The body of [for update in range(1, num_updates + 1)], without the
    calls to the summary writer. *)
Definition training_update (args : Args P) (flags : BoolFlags) (n update : Z)
    (s : Training) : option Training :=
  let lr := lr_of_update args n update (lr s) in
  c ← rollout rail_reset rail_step get_properties forward args
        (net (trainer s)) (collector s);
  c ← mark_bootstrap c;
  next_value ← bootstrap_value (net (trainer s)) (next_obs c);
  next_done ← done_flag (next_obs c);
  '(advantages, returns) ←
    estimate args (rollout_data c) next_value next_done;
  tr ← optimize_policy tmean tstd texp forward optimize shuffle args flags lr
         (rollout_data c) advantages returns (trainer s);
  Some {| collector := c; trainer := tr; lr := lr |}.

(** The loop over the updates of the list [us]. *)
Fixpoint training_loop (args : Args P) (flags : BoolFlags) (n : Z)
    (us : list Z) (s : Training) : option Training :=
  match us with
  | [] => Some s
  | u :: rest =>
      s' ← training_update args flags n u s;
      training_loop args flags n rest s'
  end.

(** Lines 357-514 from the state in which the optimizer has just been
    created with [lr = args.learning_rate] and [next_obs = env.reset()]. *)
Definition train (args : Args P) (flags : BoolFlags) (s : Training)
    : option Training :=
  n ← num_updates args;
  training_loop args flags n (updates n) s.

End Training.

(** ** The advantage as a discounted sum of temporal-difference errors *)

Section EstimatorSum.
Context {P F Obs : Type} `{!FloatOps P, !FloatOps F, !Promote P F}.

(** The factor that multiplies [lastgaelam] in iteration [t]:
    [args.gamma * args.gae_lambda * nextnonterminal]. *)
Definition gae_coef (args : Args P) (buf : Rollout Obs F)
    (bootstrap_done : bool) (t : nat) : F :=
  promote (fmul (fmul (gamma args) (gae_lambda args))
             (spec_nextnonterminal args buf bootstrap_done t)).

(** The product of the factors of the [m] iterations t, t+1, ..., t+m-1. *)
Definition gae_weight (args : Args P) (buf : Rollout Obs F)
    (bootstrap_done : bool) (t m : nat) : F :=
  foldr (fun j acc => fmul (gae_coef args buf bootstrap_done j) acc)
        (of_Z 1) (seq t m).

(** The sum over the steps k = t, ..., t+n-1 of the error [delta] of step k
    weighted by the factors of the steps before it. *)
Definition gae_sum (args : Args P) (buf : Rollout Obs F)
    (bootstrap_value : vec F) (bootstrap_done : bool) (t n a : nat) : F :=
  foldr fadd (of_Z 0)
    (map (fun k =>
            fmul (gae_weight args buf bootstrap_done t (k - t))
                 (spec_delta args buf bootstrap_value bootstrap_done k a))
         (seq t n)).

End EstimatorSum.

(** ** Rows of the buffer that an assignment leaves alone *)

(** A column keeps its length and every entry but, possibly, entry [t]. *)
Definition col_except {A} (t : nat) (c c' : list A) : Prop :=
  length c' = length c /\ forall s, s <> t -> c' !! s = c !! s.

(** The same for every column of the rollout buffer. *)
Definition rows_except {Obs F} (t : nat) (d d' : Rollout Obs F) : Prop :=
  col_except t (observations d) (observations d')
  /\ col_except t (actions d) (actions d')
  /\ col_except t (logprobs d) (logprobs d')
  /\ col_except t (entropy d) (entropy d')
  /\ col_except t (rewards d) (rewards d')
  /\ col_except t (done d) (done d')
  /\ col_except t (values d) (values d').

Arguments collector {P F Tensor Sim Net Rng}.
Arguments trainer {P F Tensor Sim Net Rng}.
Arguments lr {P F Tensor Sim Net Rng}.
Arguments training_update {P F _ _ _ Tensor Sim} rail_reset rail_step
  get_properties tmean tstd texp {Net} forward optimize {Rng} shuffle.
Arguments training_loop {P F _ _ _ Tensor Sim} rail_reset rail_step
  get_properties tmean tstd texp {Net} forward optimize {Rng} shuffle.
Arguments train {P F _ _ _ Tensor Sim} rail_reset rail_step
  get_properties tmean tstd texp {Net} forward optimize {Rng} shuffle.

(** ** Minibatch advantages as the policy loss uses them (lines 453-457) *)

Definition normalized {P F : Type} `{!FloatOps P, !FloatOps F, !Promote P F}
    (tmean tstd : list F -> F) (args : Args P) (mb_advantages : mat F)
    : mat F :=
  let flat := concat mb_advantages in
  if norm_adv args then
    mmap (fun x => fdiv (fsub x (tmean flat))
                        (fadd (tstd flat) (promote (dec 1 100000000))))
         mb_advantages
  else mb_advantages.

(** ** Concrete inputs *)

(** [args] with the defaults of [parse_args], except for the horizon, the
    number of agents and the two discount constants. *)
Definition args_with {T} `{!FloatOps T} (steps agents : Z) (g l : T) : Args T := {|
  num_agents := agents;
  total_timesteps := 100000;
  learning_rate := dec 25 100000;
  num_envs := 1;
  num_steps := steps;
  anneal_lr := true;
  gamma := g;
  gae_lambda := l;
  num_minibatches := 20;
  update_epochs := 4;
  norm_adv := true;
  clip_coef := dec 2 10;
  clip_vloss := true;
  ent_coef := dec 1 1000000000;
  vf_coef := dec 1 100000;
  max_grad_norm := dec 5 10;
  target_kl := None;
|}.

(** A buffer of which only the columns read by the estimator are filled. *)
Definition gae_buffer {F} (r : mat F) (d : list bool) (v : mat F) : Rollout unit F := {|
  observations := [];
  actions := [];
  logprobs := [];
  entropy := [];
  rewards := r;
  done := d;
  values := v;
|}.

(** Horizon 4, two agents, reward 1 and value 0 everywhere, gamma = 0.99,
    lambda = 0.95, bootstrap value 0 and bootstrap done: the end-to-end
    example of the specification, in exact arithmetic. *)
Definition example_args : Args Qc := args_with 4 2 (dec 99 100) (dec 95 100).
Definition example_buffer : Rollout unit Qc :=
  gae_buffer (replicate 4 [of_Z 1; of_Z 1]) (replicate 4 false)
             (replicate 4 [of_Z 0; of_Z 0]).
Definition example_bootstrap : list Qc := [of_Z 0; of_Z 0].

(** Horizon 2, one agent, gamma = lambda = 1, no episode end: reward -1 in
    both steps, values 0.3 and 0.1, bootstrap value 0.2.  In exact
    arithmetic, and in the formats the script runs with. *)
Definition mc_args {T} `{!FloatOps T} : Args T := args_with 2 1 (of_Z 1) (of_Z 1).
Definition mc_buffer {F} `{!FloatOps F} : Rollout unit F :=
  gae_buffer [[of_Z (-1)]; [of_Z (-1)]] [false; false]
             [[dec 3 10]; [dec 1 10]].
Definition mc_bootstrap {F} `{!FloatOps F} : list F := [dec 2 10].

(** What the estimator returns on this input in exact arithmetic. *)
Definition mc_exact : list (list Qc) * list (list Qc) :=
  default ([], []) (estimate (mc_args (T:=Qc)) mc_buffer mc_bootstrap false).

(** The default command line, in the formats the script runs with: 100000
    timesteps in rollouts of 1000 steps, hence 100 updates. *)
Definition default_args : Args binary64 := args_with 1000 1 (dec 99 100) (dec 95 100).

(** The same in exact arithmetic. *)
Definition default_args_exact : Args Qc := args_with 1000 1 (dec 99 100) (dec 95 100).

(** An environment with the default cancellation constants of flatland's
    [RailEnv] (factor 1, buffer 0) and one agent that arrived at step 100
    while due at step 90. *)
Definition late_agent : Agent :=
  {| state := DONE; latest_arrival := 90; arrival_time := Some 100 |}.
Definition late_env : RewardEnv unit := {|
  agents := [late_agent];
  sim := tt;
  cancellation_factor := 1;
  cancellation_time_buffer := 0;
  rewards_dict := {[ 0%nat := 0 ]};
|}.

(** The quoted configuration of the minibatch property: a horizon of 20
    steps with the default 20 minibatches and single environment. *)
Definition twenty_args : Args binary64 := args_with 20 1 (dec 99 100) (dec 95 100).

(** The same horizon and number of minibatches with [--num-envs 2]. *)
Definition two_envs_args : Args binary64 := {|
  num_agents := 1;
  total_timesteps := 100000;
  learning_rate := dec 25 100000;
  num_envs := 2;
  num_steps := 20;
  anneal_lr := true;
  gamma := dec 99 100;
  gae_lambda := dec 95 100;
  num_minibatches := 20;
  update_epochs := 4;
  norm_adv := true;
  clip_coef := dec 2 10;
  clip_vloss := true;
  ent_coef := dec 1 1000000000;
  vf_coef := dec 1 100000;
  max_grad_norm := dec 5 10;
  target_kl := None;
|}.

(** *** Reductions and a toy network, in float32 *)

(** The mean as the sum from left to right divided by the count. *)
Definition mean32 (l : list binary32) : binary32 :=
  fdiv (fold_left fadd l (of_Z 0)) (of_Z (Z.of_nat (length l))).

(** The sample standard deviation (divisor [n - 1]). *)
Definition std32 (l : list binary32) : binary32 :=
  let m := mean32 l in
  let ss := fold_left fadd (map (fun x => fmul (fsub x m) (fsub x m)) l) (of_Z 0) in
  B32 (SFsqrt 24 128 (b32 (fdiv ss (of_Z (Z.of_nat (length l) - 1))))).

(** A stand-in for [torch.exp] in examples: [1 + x + x^2 / 2]. *)
Definition exp32 (x : binary32) : binary32 :=
  fadd (fadd (of_Z 1) x) (fdiv (fmul x x) (of_Z 2)).

(** A network whose only parameter is the log-probability it assigns to
    every stored action; its value estimate is 0 and a gradient step halves
    the parameter. *)
Definition toy_forward {Obs} (net : binary32) (obs : list Obs)
    (acts : list (list Z)) : ModuleOut binary32 := {|
  out_actions := acts;
  out_logprobs := map (fun _ => [net]) obs;
  out_entropy := map (fun _ => of_Z 0) obs;
  out_values := map (fun _ => [of_Z 0]) obs;
|}.

Definition toy_optimize {Obs} (lr : binary64) (net : binary32)
    (buf : Rollout Obs binary32) (advantages returns : list (list binary32))
    (mb_inds : list nat) : binary32 :=
  fmul net (dec 5 10).

(** A shuffle that reverses the index array. *)
Definition toy_shuffle (g : unit) (inds : list nat) : unit * list nat :=
  (g, reverse inds).

(** Two steps, one agent, one minibatch per epoch, four epochs and a KL
    threshold of 0.01. *)
Definition kl_args : Args binary64 := {|
  num_agents := 1;
  total_timesteps := 100000;
  learning_rate := dec 25 100000;
  num_envs := 1;
  num_steps := 2;
  anneal_lr := true;
  gamma := dec 99 100;
  gae_lambda := dec 95 100;
  num_minibatches := 1;
  update_epochs := 4;
  norm_adv := true;
  clip_coef := dec 2 10;
  clip_vloss := true;
  ent_coef := dec 1 1000000000;
  vf_coef := dec 1 100000;
  max_grad_norm := dec 5 10;
  target_kl := Some (dec 1 100);
|}.

Definition kl_buffer : Rollout unit binary32 := {|
  observations := [tt; tt];
  actions := [[0]; [0]];
  logprobs := [[of_Z 0]; [of_Z 0]];
  entropy := [of_Z 0; of_Z 0];
  rewards := [[of_Z 1]; [of_Z 1]];
  done := [false; false];
  values := [[of_Z 0]; [of_Z 0]];
|}.

Definition kl_advantages : list (list binary32) := [[of_Z 2]; [of_Z 1]].
Definition kl_returns : list (list binary32) := [[of_Z 2]; [of_Z 1]].

(** The loop variables at line 428 for a network that assigns
    log-probability 1 where the rollout stored 0. *)
Definition kl_start : Trainer binary32 binary32 unit := {|
  net := of_Z 1;
  rng := tt;
  b_inds := arange 2;
  clipfracs := [];
  old_approx_kl := None;
  approx_kl := None;
  cur_v_loss := None;
  cur_pg_loss := None;
  cur_entropy_loss := None;
|}.

(** The state after the first epoch. *)
Definition kl_after_one : Trainer binary32 binary32 unit :=
  default kl_start
    (epochs mean32 std32 exp32 toy_forward toy_optimize toy_shuffle kl_args
       default_flags (learning_rate kl_args) kl_buffer kl_advantages
       kl_returns 1 kl_start).

(** *** A two-step episode *)

(** A simulator that counts its steps and reports the end of the episode at
    the second step after a reset; feature tensors are numbers. *)
Definition demo_raw (n : nat) : RawObs nat := {|
  raw_agents_attr := n;
  raw_node_attr := n;
  raw_adjacency := n;
  raw_node_order := n;
  raw_edge_order := n;
|}.
Definition demo_rail_reset (sim : nat) : nat * RawObs nat := (O, demo_raw O).
Definition demo_rail_step (sim : nat) (actions : list Z)
    : nat * (RawObs nat * list Z * bool) :=
  (S sim, (demo_raw (S sim), [-1], Nat.eqb (S sim) 2)).
Definition demo_properties (sim : nat) : nat := sim.

Definition demo_buffer : Rollout (gmap string nat) binary32 := {|
  observations := [∅; ∅; ∅];
  actions := [[0]; [0]; [0]];
  logprobs := [[of_Z 0]; [of_Z 0]; [of_Z 0]];
  entropy := [of_Z 0; of_Z 0; of_Z 0];
  rewards := [[of_Z 0]; [of_Z 0]; [of_Z 0]];
  done := [false; false; false];
  values := [[of_Z 0]; [of_Z 0]; [of_Z 0]];
|}.

Definition demo_args : Args binary64 := args_with 3 1 (dec 99 100) (dec 95 100).

(** The loop variables at line 369 of the first update: [next_obs] is what
    [env.reset()] returned at line 357. *)
Definition demo_start : Collector binary32 nat nat := {|
  env := O;
  rollout_data := demo_buffer;
  next_obs :=
    default ∅ (snd <$> reset demo_rail_reset demo_properties O None);
  global_step := 0;
|}.

(** After iteration 0, and after the first half of iteration 1. *)
Definition demo_after_0 : Collector binary32 nat nat :=
  default demo_start
    (rollout_step demo_rail_reset demo_rail_step demo_properties
       toy_forward demo_args (of_Z 1) 0 demo_start).
Definition demo_act_1 : Collector binary32 nat nat :=
  default demo_start
    (rollout_act demo_rail_step demo_properties toy_forward demo_args
       (of_Z 1) 1 demo_after_0).

(** ** Further inputs *)

(** What the estimator returns on the end-to-end example. *)
Definition example_exact : list (list Qc) * list (list Qc) :=
  default ([], [])
    (estimate example_args example_buffer example_bootstrap true).

(** Horizon 4, two agents, an episode that ends after step 1 (slot 2 is
    marked done) and a horizon that ends inside the second episode. *)
Definition episode_buffer : Rollout unit Qc :=
  gae_buffer [[of_Z (-1); of_Z (-2)]; [of_Z (-3); of_Z 0];
              [of_Z (-1); of_Z (-1)]; [of_Z (-2); of_Z (-1)]]
             [false; false; true; false]
             [[dec 5 10; dec 1 10]; [dec 2 10; dec 3 10];
              [dec 4 10; dec 7 10]; [dec 6 10; dec 9 10]].
Definition episode_bootstrap : list Qc := [dec 8 10; dec 2 10].
Definition episode_exact : list (list Qc) * list (list Qc) :=
  default ([], [])
    (estimate example_args episode_buffer episode_bootstrap false).

(** The same buffer with other rewards and values for agent 1, and a
    bootstrap value that differs for agent 1 only. *)
Definition episode_buffer' : Rollout unit Qc :=
  gae_buffer [[of_Z (-1); of_Z 5]; [of_Z (-3); of_Z 6];
              [of_Z (-1); of_Z 7]; [of_Z (-2); of_Z 8]]
             [false; false; true; false]
             [[dec 5 10; of_Z 1]; [dec 2 10; of_Z 2];
              [dec 4 10; of_Z 3]; [dec 6 10; of_Z 4]].
Definition episode_bootstrap' : list Qc := [dec 8 10; of_Z 9].

(** One-step temporal differences: lambda = 0. *)
Definition td_args : Args Qc := args_with 4 2 (dec 99 100) (of_Z 0).
Definition td_exact : list (list Qc) * list (list Qc) :=
  default ([], [])
    (estimate td_args episode_buffer episode_bootstrap false).

(** Undiscounted returns over the episode buffer: gamma = lambda = 1. *)
Definition undiscounted_args : Args Qc := args_with 4 2 (of_Z 1) (of_Z 1).
Definition undiscounted_exact : list (list Qc) * list (list Qc) :=
  default ([], [])
    (estimate undiscounted_args episode_buffer episode_bootstrap false).

(** The flags of a run with [--do_training] switched off. *)
Definition evaluation_flags : BoolFlags := {|
  use_pretrained_network := use_pretrained_network default_flags;
  do_training := false;
  do_render := do_render default_flags;
|}.

(** The optimisation phase on the two-step buffer, without and with
    training. *)
Definition kl_evaluated : Trainer binary32 binary32 unit :=
  default kl_start
    (optimize_policy mean32 std32 exp32 toy_forward toy_optimize toy_shuffle
       kl_args evaluation_flags (learning_rate kl_args) kl_buffer
       kl_advantages kl_returns kl_start).
Definition kl_trained : Trainer binary32 binary32 unit :=
  default kl_start
    (optimize_policy mean32 std32 exp32 toy_forward toy_optimize toy_shuffle
       kl_args default_flags (learning_rate kl_args) kl_buffer
       kl_advantages kl_returns kl_start).

(** The first half of iteration 0 from the start of the first update, and
    the state after the reset that ends iteration 1. *)
Definition demo_act_0 : Collector binary32 nat nat :=
  default demo_start
    (rollout_act demo_rail_step demo_properties toy_forward demo_args
       (of_Z 1) 0 demo_start).
Definition demo_after_1 : Collector binary32 nat nat :=
  default demo_start (rollout_reset demo_rail_reset demo_properties demo_act_1).

(** *** A short run *)

(** Rollouts of three steps with one agent, one minibatch and one epoch per
    update, no KL threshold, and a budget of [total] timesteps. *)
Definition budget_args (total : Z) : Args binary64 := {|
  num_agents := 1;
  total_timesteps := total;
  learning_rate := dec 25 100000;
  num_envs := 1;
  num_steps := 3;
  anneal_lr := true;
  gamma := dec 99 100;
  gae_lambda := dec 95 100;
  num_minibatches := 1;
  update_epochs := 1;
  norm_adv := true;
  clip_coef := dec 2 10;
  clip_vloss := true;
  ent_coef := dec 1 1000000000;
  vf_coef := dec 1 100000;
  max_grad_norm := dec 5 10;
  target_kl := None;
|}.

(** The state at line 359: [next_obs = env.reset()], a fresh optimizer. *)
Definition budget_start : Training nat nat binary32 unit := {|
  collector := demo_start;
  trainer := kl_start;
  lr := learning_rate (budget_args 7);
|}.

(** A budget of 7 timesteps: two updates. *)
Definition budget_end : Training nat nat binary32 unit :=
  default budget_start
    (train demo_rail_reset demo_rail_step demo_properties mean32 std32 exp32
       toy_forward toy_optimize toy_shuffle (budget_args 7) default_flags
       budget_start).

(** One rollout of three steps from the start of the first update. *)
Definition demo_rollout : Collector binary32 nat nat :=
  default demo_start
    (rollout demo_rail_reset demo_rail_step demo_properties toy_forward
       demo_args (of_Z 1) demo_start).

(** *** Exact losses *)

(** The mean in exact arithmetic. *)
Definition mean_exact (l : list Qc) : Qc :=
  fdiv (foldr fadd (of_Z 0) l) (of_Z (Z.of_nat (length l))).

(** The default command line with [--clip-vloss] switched off. *)
Definition unclipped_args : Args Qc := {|
  num_agents := 1;
  total_timesteps := 100000;
  learning_rate := dec 25 100000;
  num_envs := 1;
  num_steps := 1000;
  anneal_lr := true;
  gamma := dec 99 100;
  gae_lambda := dec 95 100;
  num_minibatches := 20;
  update_epochs := 4;
  norm_adv := true;
  clip_coef := dec 2 10;
  clip_vloss := false;
  ent_coef := dec 1 1000000000;
  vf_coef := dec 1 100000;
  max_grad_norm := dec 5 10;
  target_kl := None;
|}.

(** Re-evaluated values of a minibatch of two rows that moved by 0.1 and by
    -0.2 from the stored ones, with the stored values and the returns. *)
Definition near_values : list (list Qc) := [[dec 31 10]; [dec (-2) 10]].
Definition stored_values : list (list Qc) := [[of_Z 0]; [of_Z 5]; [of_Z 3]].
Definition stored_returns : list (list Qc) := [[of_Z 1]; [of_Z 1]; [of_Z 4]].

(** A stand-in for [.std()] in exact examples, where a square root has no
    counterpart: the constant 1. *)
Definition unit_spread (l : list Qc) : Qc := of_Z 1.

(** Ratios of a minibatch of two rows within 0.2 of 1, and advantages. *)
Definition near_ratio : list (list Qc) := [[dec 9 10]; [dec 12 10]].
Definition some_advantages : list (list Qc) := [[of_Z 2]; [of_Z (-1)]].

(** * Properties *)

(** ** Tensor helpers *)

Lemma vop_Some {F} (f : F -> F -> F) (x y : vec F) :
  length x = length y -> vop f x y = Some (zip_with f x y).
Proof. intros E. unfold vop. by rewrite decide_True. Qed.

Lemma shape_lookup {F} (H A : nat) (m : mat F) (t : nat) :
  shape H A m -> (t < H)%nat ->
  exists row, m !! t = Some row /\ length row = A.
Proof.
  intros [Hlen Hrows] Ht.
  destruct (lookup_lt_is_Some_2 m t) as [row Hrow]; [lia|].
  exists row. split; [done|].
  by apply (Forall_lookup_1 _ _ _ _ Hrows Hrow).
Qed.

Lemma shape_insert {F} (H A : nat) (m : mat F) (t : nat) (row : vec F) :
  shape H A m -> length row = A -> shape H A (<[t := row]> m).
Proof.
  intros [Hlen Hrows] Hrow. split.
  - by rewrite length_insert.
  - by apply Forall_insert.
Qed.

Lemma set_row_Some {F} (H A : nat) (m : mat F) (t : nat) (row : vec F) :
  shape H A m -> (t < H)%nat -> length row = A ->
  set_row m t row = Some (<[t := row]> m).
Proof.
  intros Hm Ht Hrow. unfold set_row.
  destruct (shape_lookup H A m t Hm Ht) as (old & -> & Hold). simpl.
  rewrite decide_True; [done | congruence].
Qed.

Lemma shape_zeros_like {F} `{!FloatOps F} (H A : nat) (m : mat F) :
  shape H A m -> shape H A (zeros_like m).
Proof.
  intros [Hlen Hrows]. split.
  - unfold zeros_like. by rewrite length_map.
  - unfold zeros_like. apply Forall_map. eapply Forall_impl; [exact Hrows|].
    intros r Hr. simpl. unfold zeros. by rewrite length_replicate.
Qed.

Lemma mop_spec {F} (f : F -> F -> F) (H A : nat) (x y : mat F) :
  shape H A x -> shape H A y ->
  exists z, mop f x y = Some z /\ shape H A z /\
    forall t r s, x !! t = Some r -> y !! t = Some s ->
                  z !! t = Some (zip_with f r s).
Proof.
  revert H y. induction x as [|r x IH]; intros H y [Hx Hxr] [Hy Hyr].
  - destruct y; [|simpl in *; lia].
    exists []. repeat split; simpl in *; try done.
  - destruct y as [|s y]; [simpl in *; lia|].
    simpl in Hx, Hy.
    apply Forall_cons in Hxr as [Hr Hxr]. apply Forall_cons in Hyr as [Hs Hyr].
    destruct (IH (length x) y) as (z & Hz & [Hzl Hzr] & Hlook);
      [by split | split; [lia | done] |].
    exists (zip_with f r s :: z). split; [|split].
    + simpl. rewrite vop_Some by congruence. simpl. by rewrite Hz.
    + split; [simpl; lia|]. apply Forall_cons. split; [|done].
      rewrite length_zip_with. lia.
    + intros [|t] r' s' Hr' Hs'; simpl in *.
      * congruence.
      * by apply Hlook.
Qed.

(** ** Advantage estimator *)

Section EstimatorProps.
Context {P F Obs : Type} `{!FloatOps P, !FloatOps F, !Promote P F}.
Variables (args : Args P) (buf : Rollout Obs F).
Variables (next_value : vec F) (next_done : bool).

Let H := Z.to_nat (num_steps args).
Let A := Z.to_nat (num_agents args).

Lemma at2_lookup (m : mat F) (t a : nat) (row : vec F) (x : F) :
  m !! t = Some row -> row !! a = Some x -> at2 m t a = x.
Proof. intros Hr Hx. unfold at2, tget. rewrite Hr. simpl. by rewrite Hx. Qed.

Lemma last_step_iff (t : nat) :
  (t < H)%nat -> (Z.of_nat t =? num_steps args - 1) = true <-> S t = H.
Proof. intros Ht. subst H. rewrite Z.eqb_eq. lia. Qed.

(** One iteration computes, entry by entry, [delta + coefficient * lastgaelam]. *)
Lemma gae_row_spec (t : nat) (lastgaelam : vec F) :
  filled args buf -> length next_value = A -> length lastgaelam = A ->
  (t < H)%nat ->
  exists row,
    gae_row args buf next_value next_done t lastgaelam = Some row
    /\ length row = A
    /\ forall a, (a < A)%nat ->
         row !! a = Some
           (fadd (spec_delta args buf next_value next_done t a)
              (fmul
                 (promote (fmul (fmul (gamma args) (gae_lambda args))
                            (spec_nextnonterminal args buf next_done t)))
                 (default (of_Z 0) (lastgaelam !! a)))).
Proof.
  intros (Hrew & Hval & Hdone) Hnv Hlast Ht.
  fold H A in Hrew, Hval, Hdone.
  destruct (shape_lookup H A _ t Hrew Ht) as (r & Hr & Hrl).
  destruct (shape_lookup H A _ t Hval Ht) as (v & Hv & Hvl).
  assert (exists nnt nv,
    gae_next args buf next_value next_done t = Some (nnt, nv)
    /\ nnt = spec_nextnonterminal args buf next_done t
    /\ length nv = A
    /\ forall a, (a < A)%nat ->
         nv !! a = Some (spec_nextvalue args buf next_value t a))
    as (nnt & nv & Hnext & -> & Hnvl & Hnva).
  { unfold gae_next, spec_nextnonterminal, spec_nextvalue.
    destruct (Z.of_nat t =? num_steps args - 1) eqn:E.
    - exists (nonterminal next_done), next_value. repeat split; try done.
      intros a Ha. destruct (lookup_lt_is_Some_2 next_value a) as [x Hx]; [lia|].
      by rewrite Hx.
    - assert (S t < H)%nat as Ht'.
      { destruct (decide (S t = H)) as [E'|]; [|lia].
        apply last_step_iff in E'; [congruence | done]. }
      replace (t + 1)%nat with (S t) by lia.
      destruct (lookup_lt_is_Some_2 (done buf) (S t)) as [d Hd]; [lia|].
      destruct (shape_lookup H A _ (S t) Hval Ht') as (v' & Hv' & Hvl').
      rewrite Hd, Hv'. simpl. exists (nonterminal d), v'.
      repeat split; try done.
      intros a Ha. destruct (lookup_lt_is_Some_2 v' a) as [x Hx]; [lia|].
      rewrite Hx. f_equal. symmetry. by eapply at2_lookup. }
  unfold gae_row. rewrite Hnext. simpl. rewrite Hr, Hv. simpl.
  set (coef := fmul (fmul (gamma args) (gae_lambda args))
                 (spec_nextnonterminal args buf next_done t)).
  rewrite vop_Some by (unfold scale_r, scale_l; rewrite !length_map; lia).
  simpl. rewrite vop_Some by (rewrite length_zip_with; unfold scale_r, scale_l;
                              rewrite !length_map; lia).
  simpl. rewrite vop_Some by (rewrite !length_zip_with; unfold scale_r, scale_l;
                              rewrite !length_map; lia).
  eexists. split; [done|]. split.
  { rewrite !length_zip_with. unfold scale_r, scale_l. rewrite !length_map. lia. }
  intros a Ha.
  destruct (lookup_lt_is_Some_2 r a) as [ra Hra]; [lia|].
  destruct (lookup_lt_is_Some_2 v a) as [va Hva]; [lia|].
  destruct (lookup_lt_is_Some_2 lastgaelam a) as [la Hla]; [lia|].
  rewrite !lookup_zip_with. unfold scale_r, scale_l.
  rewrite !list_lookup_fmap, Hra, Hva, Hla, (Hnva a Ha). simpl.
  unfold spec_delta.
  by rewrite (at2_lookup _ _ _ _ _ Hr Hra), (at2_lookup _ _ _ _ _ Hv Hva).
Qed.

(** The loop invariant: after the iterations n-1, ..., 0 the rows below [n]
    obey the recursion and the rows from [n] on are as before. *)
Lemma gae_loop_spec (n : nat) :
  filled args buf -> length next_value = A ->
  forall (adv : mat F) (last : vec F),
  (n <= H)%nat -> shape H A adv -> length last = A ->
  exists adv' last',
    gae_loop args buf next_value next_done n adv last = Some (adv', last')
    /\ shape H A adv'
    /\ (forall k, (n <= k)%nat -> adv' !! k = adv !! k)
    /\ forall t a, (t < n)%nat -> (a < A)%nat ->
         tget adv' t a = Some
           (fadd (spec_delta args buf next_value next_done t a)
              (fmul
                 (promote (fmul (fmul (gamma args) (gae_lambda args))
                            (spec_nextnonterminal args buf next_done t)))
                 (if decide (S t = n) then default (of_Z 0) (last !! a)
                  else at2 adv' (S t) a))).
Proof.
  intros Hfilled Hnv. induction n as [|n IH]; intros adv last Hn Hadv Hlast.
  - exists adv, last. simpl. repeat split; try done; try apply Hadv. lia.
  - destruct (gae_row_spec n last Hfilled Hnv Hlast) as (row & Hrow & Hrl & Hra);
      [lia|].
    simpl. rewrite Hrow. simpl.
    rewrite (set_row_Some H A) by (done || lia). simpl.
    destruct (IH (<[n := row]> adv) row) as (adv' & last' & Hloop & Hsh & Hfr & Hrec);
      [lia | by apply shape_insert | done |].
    exists adv', last'. split; [done|]. split; [done|]. split.
    + intros k Hk. rewrite Hfr by lia. apply list_lookup_insert_ne. lia.
    + intros t a Ht Ha.
      assert (adv' !! n = Some row) as Hn'.
      { rewrite Hfr by lia. apply list_lookup_insert_eq. destruct Hadv. lia. }
      destruct (decide (t = n)) as [->|Hne].
      * unfold tget. rewrite Hn'. simpl. rewrite decide_True by done.
        by apply Hra.
      * rewrite Hrec by (done || lia). do 3 f_equal.
        rewrite (decide_False (P := S t = S n)) by lia.
        destruct (decide (S t = n)) as [E|]; [|done].
        unfold at2, tget. by rewrite E, Hn'.
Qed.

(** What the estimator returns on a filled buffer: the advantages obey the
    recursion and the returns are the tensor sum of advantages and values. *)
Lemma estimate_spec :
  filled args buf -> length next_value = A ->
  exists advantages returns,
    estimate args buf next_value next_done = Some (advantages, returns)
    /\ shape H A advantages
    /\ mop fadd advantages (values buf) = Some returns
    /\ forall t a, (t < H)%nat -> (a < A)%nat ->
         tget advantages t a = Some
           (spec_advantage args buf next_value next_done advantages t a).
Proof.
  intros Hfilled Hnv.
  pose proof Hfilled as (Hrew & Hval & Hdone). fold H A in Hrew, Hval, Hdone.
  destruct (gae_loop_spec H Hfilled Hnv (zeros_like (rewards buf)) (zeros A))
    as (adv & last & Hloop & Hsh & _ & Hrec).
  { lia. }
  { by apply shape_zeros_like. }
  { unfold zeros. by rewrite length_replicate. }
  destruct (mop_spec fadd H A adv (values buf) Hsh Hval) as (ret & Hret & _).
  exists adv, ret. split; [|split; [done|split; [done|]]].
  { unfold estimate. fold H A. rewrite Hloop. simpl. by rewrite Hret. }
  intros t a Ht Ha. rewrite (Hrec t a Ht Ha).
  unfold spec_advantage, spec_lastgaelam. do 3 f_equal.
  destruct (Z.of_nat t =? num_steps args - 1) eqn:E.
  - apply last_step_iff in E; [|done]. rewrite decide_True by done.
    unfold zeros. by rewrite lookup_replicate_2.
  - rewrite decide_False.
    + by replace (t + 1)%nat with (S t) by lia.
    + intros E'. apply last_step_iff in E'; [congruence | done].
Qed.

(** C1. The estimator returns on every filled buffer, and the advantages it
    returns obey the backward recursion at every timestep and agent:
    [advantage[t] = delta + gamma * lambda * nextnonterminal * lastgaelam]
    with [delta = reward[t] + gamma * nextvalue * nextnonterminal - value[t]],
    where [nextnonterminal] and [nextvalue] come from slot t+1 (from the
    bootstrap at t = H-1) and [lastgaelam] is the advantage of t+1 (zero at
    t = H-1). *)
Theorem estimate_recursion :
  filled args buf -> length next_value = A ->
  exists advantages returns,
    estimate args buf next_value next_done = Some (advantages, returns)
    /\ shape H A advantages
    /\ forall t a, (t < H)%nat -> (a < A)%nat ->
         tget advantages t a = Some
           (spec_advantage args buf next_value next_done advantages t a).
Proof.
  intros Hfilled Hnv.
  destruct (estimate_spec Hfilled Hnv) as (adv & ret & Hest & Hsh & _ & Hrec).
  by exists adv, ret.
Qed.

(** C3. On every filled buffer the estimator's second result is, entry by
    entry, the sum [advantages[t] + values[t]] computed by the same
    addition the tensor elements use: an equality, not an approximation. *)
Theorem returns_exact :
  filled args buf -> length next_value = A ->
  exists advantages returns,
    estimate args buf next_value next_done = Some (advantages, returns)
    /\ shape H A returns
    /\ forall t a, (t < H)%nat -> (a < A)%nat ->
         tget returns t a = Some
           (fadd (at2 advantages t a) (at2 (values buf) t a)).
Proof.
  intros Hfilled Hnv.
  destruct (estimate_spec Hfilled Hnv) as (adv & ret & Hest & Hsh & Hmop & _).
  pose proof Hfilled as (_ & Hval & _). fold H A in Hval.
  destruct (mop_spec fadd H A adv (values buf) Hsh Hval)
    as (ret' & Hret' & Hshr & Hlook).
  assert (ret' = ret) as -> by congruence.
  exists adv, ret. split; [done|]. split; [done|].
  intros t a Ht Ha.
  destruct (shape_lookup H A adv t Hsh Ht) as (r & Hr & Hrl).
  destruct (shape_lookup H A _ t Hval Ht) as (v & Hv & Hvl).
  destruct (lookup_lt_is_Some_2 r a) as [x Hx]; [lia|].
  destruct (lookup_lt_is_Some_2 v a) as [y Hy]; [lia|].
  unfold tget. rewrite (Hlook t r v Hr Hv). simpl.
  rewrite lookup_zip_with, Hx, Hy. simpl.
  by rewrite (at2_lookup _ _ _ _ _ Hr Hx), (at2_lookup _ _ _ _ _ Hv Hy).
Qed.

End EstimatorProps.

Lemma estimate_recursion_witness :
  exists advantages returns,
    estimate example_args example_buffer example_bootstrap true
      = Some (advantages, returns)
    /\ shape 4 2 advantages
    /\ forall t a, (t < 4)%nat -> (a < 2)%nat ->
         tget advantages t a = Some
           (spec_advantage example_args example_buffer example_bootstrap true
              advantages t a).
Proof.
  apply (estimate_recursion example_args example_buffer example_bootstrap true).
  - repeat split; repeat constructor.
  - reflexivity.
Defined.

(** The advantages of the end-to-end example: 1, 1.9405, 2.82504025 and
    3.656950355125 from the last step back to the first, for both agents;
    the values are 0, so the returns are the same numbers. *)
Lemma example_advantages :
  (fun r => (map (map this) (fst r), map (map this) (snd r))) <$>
    estimate example_args example_buffer example_bootstrap true
  = Some ([[29255602841 # 8000000000; 29255602841 # 8000000000];
           [11300161 # 4000000; 11300161 # 4000000];
           [3881 # 2000; 3881 # 2000];
           [1 # 1; 1 # 1]],
          [[29255602841 # 8000000000; 29255602841 # 8000000000];
           [11300161 # 4000000; 11300161 # 4000000];
           [3881 # 2000; 3881 # 2000];
           [1 # 1; 1 # 1]])%Q.
Proof. vm_compute. reflexivity. Qed.

Lemma returns_exact_witness :
  exists advantages returns,
    estimate example_args example_buffer example_bootstrap true
      = Some (advantages, returns)
    /\ shape 4 2 returns
    /\ forall t a, (t < 4)%nat -> (a < 2)%nat ->
         tget returns t a = Some
           (fadd (at2 advantages t a) (at2 (values example_buffer) t a)).
Proof.
  apply (returns_exact example_args example_buffer example_bootstrap true).
  - repeat split; repeat constructor.
  - reflexivity.
Defined.

(** ** The estimator in exact arithmetic *)

Lemma Qc_of_Z_0 : (of_Z 0 : Qc) = 0%Qc.
Proof. by apply Qc_is_canon. Qed.

Lemma Qc_of_Z_1 : (of_Z 1 : Qc) = 1%Qc.
Proof. by apply Qc_is_canon. Qed.

Lemma Qc_nonterminal (flag : bool) :
  (nonterminal flag : Qc) = if flag then 0%Qc else 1%Qc.
Proof. destruct flag; by apply Qc_is_canon. Qed.

Lemma Qc_fadd (x y : Qc) : fadd x y = (x + y)%Qc.
Proof. reflexivity. Qed.

Lemma Qc_fsub (x y : Qc) : fsub x y = (x - y)%Qc.
Proof. reflexivity. Qed.

Lemma Qc_fmul (x y : Qc) : fmul x y = (x * y)%Qc.
Proof. reflexivity. Qed.

Lemma Qc_fdiv (x y : Qc) : fdiv x y = (x / y)%Qc.
Proof. reflexivity. Qed.

Lemma Qc_promote_id (x : Qc) : promote x = x.
Proof. reflexivity. Qed.

Ltac qc_norm :=
  rewrite ?Qc_nonterminal;
  change (@fadd Qc Qc_ops) with Qcplus;
  change (@fsub Qc Qc_ops) with Qcminus;
  change (@fmul Qc Qc_ops) with Qcmult;
  change (@fdiv Qc Qc_ops) with Qcdiv;
  change (@of_Z Qc Qc_ops 0) with 0%Qc;
  change (@of_Z Qc Qc_ops 1) with 1%Qc;
  repeat match goal with
         | |- context [@promote Qc Qc Qc_promote ?x] =>
             change (@promote Qc Qc Qc_promote x) with x
         end.

Section MonteCarlo.
Context {Obs : Type}.
Variables (args : Args Qc) (buf : Rollout Obs Qc).
Variables (next_value : list Qc) (next_done : bool).

Let H := Z.to_nat (num_steps args).
Let A := Z.to_nat (num_agents args).

(** Backward induction over the horizon: [n] is the number of steps from
    [t] to the end. *)
Lemma monte_carlo_rows (advantages : list (list Qc)) :
  gamma args = 1%Qc -> gae_lambda args = 1%Qc ->
  (forall t a, (t < H)%nat -> (a < A)%nat ->
     tget advantages t a = Some
       (spec_advantage args buf next_value next_done advantages t a)) ->
  forall n t a, (H - t = n)%nat -> (t < H)%nat -> (a < A)%nat ->
    at2 advantages t a =
    (episode_return args buf next_value next_done n t a
     - at2 (values buf) t a)%Qc.
Proof.
  intros Hg Hl Hrec. induction n as [|n IH]; intros t a Hn Ht Ha; [lia|].
  unfold at2 at 1. rewrite (Hrec t a Ht Ha).
  cbn [from_option id episode_return].
  unfold spec_advantage, spec_delta, spec_lastgaelam, spec_nextvalue,
    spec_nextnonterminal.
  rewrite Hg, Hl.
  destruct (Z.of_nat t =? num_steps args - 1) eqn:E.
  - qc_norm. destruct next_done; qc_norm; ring.
  - assert (S t < H)%nat as Ht'.
    { destruct (decide (S t = H)) as [E'|]; [|lia].
      subst H. apply Z.eqb_neq in E. lia. }
    rewrite (IH (t + 1)%nat a) by lia. qc_norm.
    destruct (default false (done buf !! (t + 1)%nat)); qc_norm; ring.
Qed.

Lemma monte_carlo_exact (advantages returns : list (list Qc)) :
  gamma args = of_Z 1 -> gae_lambda args = of_Z 1 ->
  filled args buf ->
  length next_value = A ->
  estimate args buf next_value next_done = Some (advantages, returns) ->
  forall t a, (t < H)%nat -> (a < A)%nat ->
    at2 advantages t a =
    fsub (episode_return args buf next_value next_done (H - t) t a)
         (at2 (values buf) t a).
Proof.
  intros Hg Hl Hfilled Hnv Hest t a Ht Ha.
  destruct (estimate_spec args buf next_value next_done Hfilled Hnv)
    as (adv & ret & Hest' & _ & _ & Hrec).
  assert (adv = advantages) as -> by congruence.
  change (@of_Z Qc Qc_ops 1) with 1%Qc in Hg, Hl.
  by apply monte_carlo_rows.
Qed.

(** C7, as amended.  In exact arithmetic, with gamma = 1 and lambda = 1, the
    advantage at every timestep and agent of a filled buffer is the
    undiscounted return from [t] to the end of the episode (completed by the
    bootstrap value when the horizon ends first) minus [value[t]]. *)
Theorem gae_monte_carlo_exact (advantages returns : list (list Qc)) :
  gamma args = of_Z 1 -> gae_lambda args = of_Z 1 ->
  filled args buf ->
  length next_value = A ->
  estimate args buf next_value next_done = Some (advantages, returns) ->
  forall t a, (t < H)%nat -> (a < A)%nat ->
    at2 advantages t a =
    fsub (episode_return args buf next_value next_done (H - t) t a)
         (at2 (values buf) t a).
Proof. apply monte_carlo_exact. Qed.

End MonteCarlo.

(** The identity, as one statement about the estimator over the rationals:
    the statement that the float32 estimator fails below. *)
Lemma monte_carlo_identity_exact {Obs : Type} :
  monte_carlo_identity (P := Qc) (F := Qc) (Obs := Obs).
Proof.
  intros args buf next_value next_done advantages returns.
  apply monte_carlo_exact.
Qed.

(** In exact arithmetic the identity holds on the two-step example: the
    advantage of step 0 is -1 - 1 + 0.2 - 0.3 = -2.1. *)
Lemma gae_monte_carlo_exact_witness :
  at2 (fst mc_exact) 0 0 =
  fsub (episode_return (mc_args (T:=Qc)) mc_buffer mc_bootstrap false 2 0 0)
       (at2 (values (mc_buffer (F:=Qc))) 0 0).
Proof.
  apply (gae_monte_carlo_exact (mc_args (T:=Qc)) mc_buffer mc_bootstrap false
           (fst mc_exact) (snd mc_exact)).
  - reflexivity.
  - reflexivity.
  - repeat split; repeat constructor.
  - reflexivity.
  - unfold mc_exact.
    destruct (estimate mc_args mc_buffer mc_bootstrap false) as [[adv ret]|] eqn:E.
    + reflexivity.
    + vm_compute in E. discriminate E.
  - simpl. lia.
  - simpl. lia.
Defined.

Lemma mc_exact_advantage : at2 (fst mc_exact) 0 0 = Q2Qc (-21 # 10).
Proof. apply Qc_is_canon. vm_compute. reflexivity. Qed.

(** C7, as stated, fails in the arithmetic the script runs with: on the
    two-step example the float32 advantage of step 0 is -8808039 * 2^-22
    while the return minus the value is -8808038 * 2^-22, one unit in the
    last place apart (both are roundings of -2.1). *)
Lemma gae_monte_carlo_float32_counterexample :
  ~ monte_carlo_identity (P := binary64) (F := binary32) (Obs := unit).
Proof.
  intros Hid.
  destruct (estimate (mc_args (T:=binary64)) (mc_buffer (F:=binary32))
              mc_bootstrap false) as [[adv ret]|] eqn:Hest;
    [|vm_compute in Hest; discriminate Hest].
  specialize (Hid mc_args mc_buffer mc_bootstrap false adv ret
                eq_refl eq_refl).
  assert (filled (mc_args (T:=binary64)) (mc_buffer (F:=binary32))) as Hf
    by (repeat split; repeat constructor).
  specialize (Hid Hf eq_refl Hest 0%nat 0%nat).
  assert (0 < Z.to_nat (num_steps (mc_args (T:=binary64))))%nat as H0
    by (simpl; lia).
  assert (0 < Z.to_nat (num_agents (mc_args (T:=binary64))))%nat as H1
    by (simpl; lia).
  specialize (Hid H0 H1).
  vm_compute in Hest. injection Hest as <- <-.
  vm_compute in Hid. discriminate Hid.
Qed.

(** The two float32 numbers of the counterexample. *)
Lemma gae_monte_carlo_float32_values :
  (fun r => at2 (fst r) 0 0) <$>
    estimate (mc_args (T:=binary64)) (mc_buffer (F:=binary32)) mc_bootstrap false
  = Some (B32 (S754_finite true 8808039 (-22)))
  /\ fsub (episode_return (mc_args (T:=binary64)) (mc_buffer (F:=binary32))
             mc_bootstrap false 2 0 0)
          (at2 (values (mc_buffer (F:=binary32))) 0 0)
     = B32 (S754_finite true 8808038 (-22)).
Proof. split; vm_compute; reflexivity. Qed.

(** ** Boolean command-line flags *)

Lemma is_value_no_dash (dash : string -> bool) (s : string) :
  (forall rest, s <> String "-"%char rest) -> is_value dash s = true.
Proof.
  intros Hs. destruct s as [|c rest]; [done|]. simpl.
  destruct c as [[] [] [] [] [] [] [] []]; try done.
  by destruct (Hs rest).
Qed.

Section ParseFlagsProps.
Variable dash_word_is_value : string -> bool.

Lemma parse_single (opt word : string) (ns : BoolFlags) :
  parse_bool_flags dash_word_is_value [opt; word] = Some ns ->
  store_flag opt (py_bool word) default_flags = Some ns.
Proof.
  unfold parse_bool_flags. simpl.
  destruct (is_value _ word); [|done].
  destruct (store_flag opt (py_bool word) default_flags); simpl; congruence.
Qed.

Lemma py_bool_true (word : string) : py_bool word = true <-> word <> EmptyString.
Proof. destruct word; simpl; split; congruence. Qed.

(** C10.  Each of the three flags, given any word that argparse takes as its
    value, is parsed to [bool(word)]: true for every non-empty word, false
    only for the empty one.  The word [False] is taken as a value, so
    [--do-training False] leaves training enabled, like every other word
    that does not start with a dash. *)
Theorem bool_flags_truthiness :
  (forall word ns,
     parse_bool_flags dash_word_is_value ["--use-pretrained-network"; word] = Some ns ->
     use_pretrained_network ns = true <-> word <> EmptyString)
  /\ (forall word ns,
        parse_bool_flags dash_word_is_value ["--do-training"; word] = Some ns ->
        do_training ns = true <-> word <> EmptyString)
  /\ (forall word ns,
        parse_bool_flags dash_word_is_value ["--do-render"; word] = Some ns ->
        do_render ns = true <-> word <> EmptyString)
  /\ (forall word, (forall rest, word <> String "-"%char rest) ->
        exists ns1 ns2 ns3,
          parse_bool_flags dash_word_is_value ["--use-pretrained-network"; word] = Some ns1
          /\ parse_bool_flags dash_word_is_value ["--do-training"; word] = Some ns2
          /\ parse_bool_flags dash_word_is_value ["--do-render"; word] = Some ns3)
  /\ (exists ns, parse_bool_flags dash_word_is_value ["--do-training"; "False"] = Some ns
                 /\ do_training ns = true).
Proof.
  split; [|split; [|split; [|split]]].
  - intros word ns Hp. apply parse_single in Hp.
    unfold store_flag in Hp. simpl in Hp.
    injection Hp as <-. apply py_bool_true.
  - intros word ns Hp. apply parse_single in Hp.
    unfold store_flag in Hp. simpl in Hp.
    injection Hp as <-. apply py_bool_true.
  - intros word ns Hp. apply parse_single in Hp.
    unfold store_flag in Hp. simpl in Hp.
    injection Hp as <-. apply py_bool_true.
  - intros word Hw. unfold parse_bool_flags. simpl.
    rewrite (is_value_no_dash _ _ Hw). simpl.
    do 3 eexists. repeat split; reflexivity.
  - eexists. split; reflexivity.
Qed.

End ParseFlagsProps.

Lemma bool_flags_truthiness_witness :
  parse_bool_flags (fun _ => false) ["--do-training"; "False"]
    = Some {| use_pretrained_network := true;
              do_training := true;
              do_render := false |}
  /\ (do_training {| use_pretrained_network := true;
                     do_training := true;
                     do_render := false |} = true
      <-> "False" <> EmptyString).
Proof.
  split; [reflexivity|].
  apply (proj1 (proj2 (bool_flags_truthiness (fun _ => false)))).
  reflexivity.
Defined.

(** ** Step rewards *)

Section RewardsProps.
Variable Sim : Type.
Variable get_travel_time_on_shortest_path : Agent -> Sim -> Z.
Variable get_current_delay : Agent -> Sim -> Z.

Abbreviation reward_of :=
  (step_reward get_travel_time_on_shortest_path get_current_delay).

(** The three cases of the reward rule partition the states. *)
Lemma reward_branches_partition (s : TrainState) :
  (s = DONE /\ is_off_map_state s = false /\ is_on_map_state s = false)
  \/ (s <> DONE /\ is_off_map_state s = true /\ is_on_map_state s = false)
  \/ (s <> DONE /\ is_off_map_state s = false /\ is_on_map_state s = true).
Proof. destruct s; simpl; auto 10. Qed.

(** C2.  The reward of an agent in one step: an agent that is DONE and
    arrived at [arrival] gets [min (latest_arrival - arrival) 0]; otherwise an
    agent in an off-map state gets minus [cancellation_factor] times the
    shortest-path travel time plus [cancellation_time_buffer]; otherwise an
    agent in an on-map state gets its current delay; and the state of every
    agent falls in exactly one of the three cases.  Arriving at 100 with
    latest arrival 90 gives -10, arriving at 80 gives 0. *)
Theorem step_reward_rule (env : RewardEnv Sim) (agent : Agent) :
  (forall arrival,
     state agent = DONE -> arrival_time agent = Some arrival ->
     reward_of env agent = Some (Z.min (latest_arrival agent - arrival) 0))
  /\ (state agent <> DONE -> is_off_map_state (state agent) = true ->
      reward_of env agent =
      Some (- (cancellation_factor env
               * (get_travel_time_on_shortest_path agent (sim env)
                  + cancellation_time_buffer env))))
  /\ (state agent <> DONE -> is_on_map_state (state agent) = true ->
      reward_of env agent = Some (get_current_delay agent (sim env)))
  /\ ((state agent = DONE
       /\ is_off_map_state (state agent) = false
       /\ is_on_map_state (state agent) = false)
      \/ (state agent <> DONE
          /\ is_off_map_state (state agent) = true
          /\ is_on_map_state (state agent) = false)
      \/ (state agent <> DONE
          /\ is_off_map_state (state agent) = false
          /\ is_on_map_state (state agent) = true))
  /\ reward_of env {| state := DONE; latest_arrival := 90;
                      arrival_time := Some 100 |} = Some (-10)
  /\ reward_of env {| state := DONE; latest_arrival := 90;
                      arrival_time := Some 80 |} = Some 0.
Proof.
  split; [|split; [|split; [|split; [|split]]]].
  - intros arrival Hs Ha. unfold step_reward.
    rewrite decide_True by done. by rewrite Ha.
  - intros Hs Hoff. unfold step_reward. rewrite decide_False by done.
    rewrite Hoff.
    destruct (reward_branches_partition (state agent))
      as [(? & _)|[(_ & _ & ->)|(_ & ? & _)]]; [done| |congruence].
    f_equal. lia.
  - intros Hs Hon. unfold step_reward. rewrite decide_False by done.
    by rewrite Hon.
  - apply reward_branches_partition.
  - reflexivity.
  - reflexivity.
Qed.

End RewardsProps.

Lemma step_reward_rule_witness :
  step_reward (fun _ _ => 7) (fun _ _ => -3) late_env late_agent = Some (-10).
Proof.
  apply (proj1 (step_reward_rule unit (fun _ _ => 7) (fun _ _ => -3)
                  late_env late_agent) 100).
  - reflexivity.
  - reflexivity.
Defined.

(** The reward is what [update_step_rewards] adds to the agent's total. *)
Lemma update_step_rewards_adds :
  rewards_dict <$> update_step_rewards (fun _ _ => 7) (fun _ _ => -3) late_env 0
  = Some {[ 0%nat := -10 ]}.
Proof. reflexivity. Qed.

(** ** Learning rate schedule *)

Lemma Qc_of_Z_add (a b : Z) : (of_Z (a + b) : Qc) = (of_Z a + of_Z b)%Qc.
Proof.
  apply Qc_is_canon. simpl. rewrite !Qred_correct, inject_Z_plus. reflexivity.
Qed.

Lemma Qc_of_Z_opp (a : Z) : (of_Z (- a) : Qc) = (- of_Z a)%Qc.
Proof.
  apply Qc_is_canon. simpl. rewrite !Qred_correct, inject_Z_opp. reflexivity.
Qed.

Lemma Qc_of_Z_sub (a b : Z) : (of_Z (a - b) : Qc) = (of_Z a - of_Z b)%Qc.
Proof.
  unfold Z.sub. rewrite Qc_of_Z_add, Qc_of_Z_opp. reflexivity.
Qed.

Lemma Qc_of_Z_nonzero (a : Z) : a <> 0 -> (of_Z a : Qc) <> 0%Qc.
Proof.
  intros Ha E. apply Ha.
  apply (f_equal this) in E. simpl in E.
  assert (Qred (inject_Z a) == 0)%Q as E' by (rewrite E; reflexivity).
  rewrite Qred_correct in E'. unfold Qeq in E'. simpl in E'. lia.
Qed.

Section ScheduleExact.
Variable args : Args Qc.
Variable n : Z.

Abbreviation lr0 := (learning_rate args).

Lemma lrnow_closed_form (u : Z) :
  n <> 0 -> lrnow args n u = (lr0 * (of_Z (n - u + 1) / of_Z n))%Qc.
Proof.
  intros Hn. unfold lrnow. qc_norm.
  rewrite Qc_of_Z_add, Qc_of_Z_sub. qc_norm.
  field. by apply Qc_of_Z_nonzero.
Qed.

(** C8, as amended.  With annealing enabled and in exact arithmetic, the
    rate of update [u] of [n] is the initial rate times the linear fraction
    [(n - u + 1) / n]: the initial rate at the first update, one [n]-th of
    the initial rate less at every next update, and one [n]-th of the
    initial rate, not zero, at the last update. *)
Theorem lr_anneal_linear (u : Z) (lr : Qc) :
  anneal_lr args = true -> 1 <= u <= n ->
  lr_of_update args n u lr = (lr0 * (of_Z (n - u + 1) / of_Z n))%Qc
  /\ lr_of_update args n 1 lr = lr0
  /\ lr_of_update args n n lr = (lr0 / of_Z n)%Qc
  /\ (u < n ->
      lr_of_update args n (u + 1) lr
      = (lr_of_update args n u lr - lr0 / of_Z n)%Qc)
  /\ (lr0 <> 0%Qc -> lr_of_update args n u lr <> 0%Qc).
Proof.
  intros Han Hu. unfold lr_of_update. rewrite Han.
  assert (n <> 0) as Hn by lia.
  pose proof (Qc_of_Z_nonzero n Hn) as Hn'.
  rewrite !lrnow_closed_form by done.
  split; [done|]. split; [|split; [|split]].
  - replace (n - 1 + 1) with n by lia. field. done.
  - replace (n - n + 1) with 1 by lia. qc_norm. field. done.
  - intros _. replace (n - (u + 1) + 1) with (n - u + 1 - 1) by lia.
    rewrite (Qc_of_Z_sub (n - u + 1) 1). qc_norm. field. done.
  - intros Hlr E.
    assert ((of_Z (n - u + 1) : Qc) <> 0%Qc) as Hk
      by (apply Qc_of_Z_nonzero; lia).
    apply Qcmult_integral in E as [E|E]; [done|].
    unfold Qcdiv in E. apply Qcmult_integral in E as [E|E]; [done|].
    pose proof (Qcmult_inv_r (of_Z n) Hn') as Hinv.
    rewrite E in Hinv. rewrite Qcmult_0_r in Hinv. discriminate Hinv.
Qed.

End ScheduleExact.

Lemma lr_anneal_linear_witness :
  lr_of_update default_args_exact 100 100 (learning_rate default_args_exact)
  = (learning_rate default_args_exact / of_Z 100)%Qc.
Proof.
  apply (lr_anneal_linear default_args_exact 100 100
           (learning_rate default_args_exact)).
  - reflexivity.
  - lia.
Defined.

(** In binary64 the first rate of the default run is the initial rate
    itself: [frac] is exactly 1.0. *)
Lemma lr_first_update_float :
  lr_of_update default_args 100 1 (learning_rate default_args)
  = learning_rate default_args.
Proof. vm_compute. reflexivity. Qed.

(** C8, as stated, fails: on the default command line the run has 100
    updates, and the rate of the last one is a hundredth of 2.5e-4, not
    zero. *)
Lemma lr_anneal_zero_counterexample : ~ anneals_to_zero binary64.
Proof.
  intros Hz.
  specialize (Hz default_args 100 eq_refl eq_refl).
  assert (1 <= 100) as H1 by lia. specialize (Hz H1).
  vm_compute in Hz. discriminate Hz.
Qed.

(** ** Minibatches *)

Lemma py_slice_chunk {A} (l : list A) (k : nat) (s : Z) :
  0 < s ->
  py_slice l (Z.of_nat k * s) (Z.of_nat k * s + s)
  = take (Z.to_nat s) (drop (k * Z.to_nat s) l).
Proof.
  intros Hs. unfold py_slice, slice_bound.
  assert (0 <= Z.of_nat k * s) as Hks by lia.
  destruct (Z.ltb_spec (Z.of_nat k * s) 0) as [?|_]; [lia|].
  destruct (Z.ltb_spec (Z.of_nat k * s + s) 0) as [?|_]; [lia|].
  assert (Z.to_nat (Z.of_nat k * s) = (k * Z.to_nat s)%nat) as Hnat by lia.
  destruct (Z.le_gt_cases (Z.of_nat (length l)) (Z.of_nat k * s)) as [Hge|Hlt].
  - rewrite !Z.min_r by lia. rewrite Z.sub_diag. simpl.
    rewrite (drop_ge l (k * Z.to_nat s)) by lia. by rewrite take_nil.
  - rewrite (Z.min_l (Z.of_nat k * s)) by lia. rewrite Hnat.
    destruct (Z.le_gt_cases (Z.of_nat k * s + s) (Z.of_nat (length l)))
      as [Hin|Hout].
    + rewrite Z.min_l by lia. f_equal. lia.
    + rewrite Z.min_r by lia.
      rewrite !take_ge; [done | rewrite length_drop; lia
                        | rewrite length_drop; lia].
Qed.

Lemma concat_chunks {A} (l : list A) (s m : nat) :
  concat (map (fun k => take s (drop (k * s) l)) (seq 0 m)) = take (m * s) l.
Proof.
  induction m as [|m IH]; [done|].
  rewrite seq_S, map_app, concat_app, IH. simpl. rewrite app_nil_r.
  rewrite take_take_drop. f_equal. lia.
Qed.

Lemma py_range_positive (stop step : Z) :
  0 < step ->
  exists m : nat,
    py_range stop step = Some (map (fun k => Z.of_nat k * step) (seq 0 m))
    /\ stop <= Z.of_nat m * step
    /\ (0 < stop -> Z.of_nat m = 1 + (stop - 1) / step).
Proof.
  intros Hs. unfold py_range.
  destruct (Z.eqb_spec step 0) as [?|_]; [lia|].
  destruct (Z.ltb_spec 0 step) as [_|?]; [|lia].
  destruct (Z.ltb_spec 0 stop) as [Hpos|Hnon].
  - exists (Z.to_nat (1 + (stop - 1) / step)). split; [done|].
    assert (0 <= (stop - 1) / step) by (apply Z.div_pos; lia).
    pose proof (Z.mod_pos_bound (stop - 1) step Hs).
    pose proof (Z.div_mod (stop - 1) step). split; [nia | lia].
  - exists 0%nat. split; [done|]. lia.
Qed.

(** With a positive minibatch size the minibatches are the consecutive
    pieces of [b_inds] of that size. *)
Lemma minibatches_chunks {P} (args : Args P) (b_inds : list nat) (size : Z) :
  minibatch_size args = Some size -> 0 < size ->
  exists m : nat,
    minibatches args b_inds
    = Some (map (fun k => take (Z.to_nat size)
                            (drop (k * Z.to_nat size) b_inds)) (seq 0 m))
    /\ batch_size args <= Z.of_nat m * size
    /\ (0 < batch_size args ->
        Z.of_nat m = 1 + (batch_size args - 1) / size).
Proof.
  intros Hsize Hpos. unfold minibatches. rewrite Hsize. simpl.
  destruct (py_range_positive (batch_size args) size Hpos) as (m & -> & Hm).
  simpl. exists m. split; [|done]. f_equal.
  rewrite map_map. apply map_ext. intros k. by apply py_slice_chunk.
Qed.

(** The minibatches of an epoch, concatenated in the order in which they
    are processed, are the shuffled index array, whenever the minibatch
    size is positive and the batch size covers the horizon. *)
Lemma minibatches_concat {P} (args : Args P) (b_inds : list nat) (size : Z) :
  minibatch_size args = Some size -> 0 < size ->
  Z.of_nat (length b_inds) <= batch_size args ->
  exists mbs, minibatches args b_inds = Some mbs /\ concat mbs = b_inds.
Proof.
  intros Hsize Hpos Hlen.
  destruct (minibatches_chunks args b_inds size Hsize Hpos) as (m & -> & Hm & _).
  eexists. split; [done|].
  rewrite concat_chunks. apply take_ge. nia.
Qed.

Lemma singletons_concat {A} (ls : list (list A)) :
  Forall (fun l => length l = 1%nat) ls ->
  ls = map (fun x => [x]) (concat ls).
Proof.
  induction 1 as [|l ls Hl _ IH]; [done|].
  destruct l as [|x [|? ?]]; try done. simpl. by f_equal.
Qed.

(** C5, as amended.  With [num_steps = 20], [num_minibatches = 20] and a
    single environment ([num_envs = 1], the default), the minibatch size is
    1, and for every shuffled order [b_inds] of the indices 0..19 the epoch
    has 20 minibatches of one index each whose concatenation is [b_inds]:
    every index of [0, 20) is in exactly one minibatch. *)
Theorem minibatch_partition {P} (args : Args P) (b_inds : list nat) :
  num_envs args = 1 -> num_steps args = 20 -> num_minibatches args = 20 ->
  b_inds ≡ₚ arange (num_steps args) ->
  minibatch_size args = Some 1
  /\ exists mbs,
       minibatches args b_inds = Some mbs
       /\ length mbs = 20%nat
       /\ Forall (fun mb => length mb = 1%nat) mbs
       /\ concat mbs = b_inds
       /\ forall i, (i < 20)%nat ->
            exists k, mbs !! k = Some [i]
                      /\ forall k' mb, mbs !! k' = Some mb -> i ∈ mb -> k' = k.
Proof.
  intros Henvs Hsteps Hmbs Hperm.
  assert (minibatch_size args = Some 1) as Hsize.
  { unfold minibatch_size, batch_size. by rewrite Henvs, Hsteps, Hmbs. }
  split; [done|].
  assert (length b_inds = 20%nat) as Hlen.
  { rewrite Hperm, Hsteps. reflexivity. }
  assert (NoDup b_inds) as Hnd.
  { rewrite Hperm. apply NoDup_ListNoDup, seq_NoDup. }
  destruct (minibatches_chunks args b_inds 1 Hsize) as (m & Hmb & Hm & Hm');
    [lia|].
  assert (m = 20%nat) as ->.
  { unfold batch_size in Hm'. rewrite Henvs, Hsteps in Hm'.
    change ((1 * 20 - 1) / 1) with 19 in Hm'. lia. }
  set (mbs := map (fun k => take (Z.to_nat 1) (drop (k * Z.to_nat 1) b_inds))
                (seq 0 20)) in *.
  assert (concat mbs = b_inds) as Hcat.
  { unfold mbs. rewrite concat_chunks. apply take_ge. lia. }
  assert (Forall (fun mb => length mb = 1%nat) mbs) as Hone.
  { apply Forall_forall. intros mb Hin.
    apply list_elem_of_In, in_map_iff in Hin as (k & <- & Hk).
    apply in_seq in Hk. rewrite length_take, length_drop. lia. }
  pose proof (singletons_concat mbs Hone) as Hmap. rewrite Hcat in Hmap.
  exists mbs. split; [done|]. split; [|split; [done|split; [done|]]].
  { rewrite Hmap, length_map. done. }
  intros i Hi.
  assert (i ∈ b_inds) as Hin.
  { rewrite Hperm, Hsteps. apply list_elem_of_In, in_seq. simpl. lia. }
  apply list_elem_of_lookup in Hin as [k Hk].
  exists k. split.
  - rewrite Hmap, list_lookup_fmap, Hk. done.
  - intros k' mb Hk' Hmem.
    rewrite Hmap, list_lookup_fmap in Hk'.
    destruct (b_inds !! k') as [j|] eqn:Hj; [|done].
    simpl in Hk'. injection Hk' as <-.
    apply list_elem_of_singleton in Hmem as ->.
    by eapply NoDup_lookup.
Qed.

(** ** Tensors as tables of entries *)

Lemma tabulate_S {F} (m A : nat) (g : nat -> nat -> F) :
  tabulate (S m) A g = map (g O) (seq 0 A) :: tabulate m A (fun i => g (S i)).
Proof.
  unfold tabulate. simpl. f_equal.
  rewrite <- seq_shift, map_map. reflexivity.
Qed.

Lemma tabulate_ext {F} (m A : nat) (g h : nat -> nat -> F) :
  (forall i a, (i < m)%nat -> (a < A)%nat -> g i a = h i a) ->
  tabulate m A g = tabulate m A h.
Proof.
  intros E. unfold tabulate. apply map_ext_in. intros i Hi.
  apply in_seq in Hi. apply map_ext_in. intros a Ha. apply in_seq in Ha.
  apply E; lia.
Qed.

Lemma row_tabulate {F} `{!FloatOps F} (r : list F) :
  r = map (fun a => default (of_Z 0) (r !! a)) (seq 0 (length r)).
Proof.
  induction r as [|x r IH]; [done|]. simpl. f_equal.
  rewrite <- seq_shift, map_map. exact IH.
Qed.

Section Tables.
Context {F : Type} `{!FloatOps F}.

Lemma shape_tabulate (m A : nat) (x : list (list F)) :
  shape m A x -> x = tabulate m A (at2 x).
Proof.
  revert m. induction x as [|r x IH]; intros m [Hlen Hrows].
  - simpl in Hlen. by subst m.
  - simpl in Hlen. subst m. apply Forall_cons in Hrows as [Hr Hrows].
    rewrite tabulate_S. f_equal.
    + rewrite (row_tabulate r) at 1. by rewrite Hr.
    + by apply IH.
Qed.

Lemma tabulate_shape (m A : nat) (g : nat -> nat -> F) :
  shape m A (tabulate m A g).
Proof.
  unfold tabulate. split.
  - by rewrite length_map, length_seq.
  - apply Forall_map, Forall_forall. intros i _. simpl.
    by rewrite length_map, length_seq.
Qed.

Lemma mop_tabulate (f : F -> F -> F) (m A : nat) (g h : nat -> nat -> F) :
  mop f (tabulate m A g) (tabulate m A h)
  = Some (tabulate m A (fun i a => f (g i a) (h i a))).
Proof.
  revert g h. induction m as [|m IH]; intros g h; [done|].
  rewrite !tabulate_S. simpl.
  rewrite vop_Some by (by rewrite !length_map). simpl.
  rewrite IH. simpl. do 2 f_equal.
  clear. induction (seq 0 A) as [|a l IHl]; [done|]. simpl. by f_equal.
Qed.

Lemma mmap_tabulate {G} (f : F -> G) (m A : nat) (g : nat -> nat -> F) :
  mmap f (tabulate m A g) = tabulate m A (fun i a => f (g i a)).
Proof.
  unfold mmap, tabulate. rewrite map_map. apply map_ext. intros i.
  by rewrite map_map.
Qed.

Lemma concat_tabulate (m A : nat) (g : nat -> nat -> F) :
  concat (tabulate m A g) = flat_map (fun i => map (g i) (seq 0 A)) (seq 0 m).
Proof. unfold tabulate. by rewrite flat_map_concat_map. Qed.

Lemma gather_tabulate (H A : nat) (x : list (list F)) (inds : list nat) :
  shape H A x -> Forall (fun i => (i < H)%nat) inds ->
  gather x inds
  = Some (tabulate (length inds) A
            (fun i a => at2 x (default O (inds !! i)) a)).
Proof.
  intros Hx. induction 1 as [|i inds Hi _ IH]; [done|].
  destruct (shape_lookup H A x i Hx Hi) as (r & Hr & Hrl).
  unfold gather in *. simpl. rewrite Hr. simpl. rewrite IH. simpl.
  rewrite tabulate_S. simpl. do 2 f_equal.
  rewrite (row_tabulate r) at 1. rewrite Hrl. apply map_ext. intros a.
  unfold at2, tget. by rewrite Hr.
Qed.

End Tables.

(** ** Value loss *)

Section ValueLoss.
Context {P F : Type} `{!FloatOps P, !FloatOps F, !Promote P F}.
Variable tmean : list F -> F.
Variable args : Args P.

(** C4.  For a minibatch [mb_inds] of a buffer with [H] rows of [A] agents,
    the value loss is 0.5 times the mean over all entries of the minibatch
    of: with clipping enabled, the larger of the squared error of the new
    value and the squared error of the clipped value (the old stored value
    plus the change clamped to [-clip_coef, clip_coef]), both against the
    return; with clipping disabled, the squared error of the new value. *)
Theorem v_loss_formula (newvalue old_values returns : list (list F))
    (mb_inds : list nat) (H A : nat) :
  shape (length mb_inds) A newvalue ->
  shape H A old_values -> shape H A returns ->
  Forall (fun i => (i < H)%nat) mb_inds ->
  v_loss tmean args newvalue old_values returns mb_inds
  = Some (spec_v_loss tmean args newvalue old_values returns mb_inds A).
Proof.
  intros Hnew Hold Hret Hinds.
  unfold spec_v_loss, spec_v_terms, spec_v_term, v_loss.
  pose proof (shape_tabulate _ _ newvalue Hnew) as Enew.
  set (nv := at2 newvalue) in *. rewrite Enew.
  rewrite (gather_tabulate H A returns mb_inds Hret Hinds).
  destruct (clip_vloss args); simpl.
  - rewrite mop_tabulate. simpl.
    rewrite (gather_tabulate H A old_values mb_inds Hold Hinds). simpl.
    rewrite mop_tabulate. simpl. unfold msquare.
    rewrite !mmap_tabulate, mop_tabulate. simpl.
    rewrite mop_tabulate. simpl. rewrite mmap_tabulate, mop_tabulate. simpl.
    by rewrite concat_tabulate.
  - rewrite mop_tabulate. simpl. unfold msquare.
    by rewrite mmap_tabulate, concat_tabulate.
Qed.

End ValueLoss.

(** ** Early stop on the KL threshold *)

Lemma mmap_mmap {F G K} (f : G -> K) (g : F -> G) (x : list (list F)) :
  mmap f (mmap g x) = mmap (fun e => f (g e)) x.
Proof.
  unfold mmap. rewrite map_map. apply map_ext. intros r. by rewrite map_map.
Qed.

Lemma concat_mmap {F G} (f : F -> G) (x : list (list F)) :
  concat (mmap f x) = map f (concat x).
Proof. unfold mmap. by rewrite concat_map. Qed.

Lemma mop_self_map {F} (f : F -> F -> F) (g : F -> F) (x : list (list F)) :
  mop f (mmap g x) x = Some (mmap (fun e => f (g e) e) x).
Proof.
  induction x as [|r x IH]; [done|].
  change (mmap g (r :: x)) with (map g r :: mmap g x).
  cbn [mop]. rewrite vop_Some by (by rewrite length_map).
  cbn [mbind option_bind]. rewrite IH. cbn [mbind option_bind].
  change (mmap (fun e => f (g e) e) (r :: x))
    with (map (fun e => f (g e) e) r :: mmap (fun e => f (g e) e) x).
  do 2 f_equal. clear. induction r as [|e r IHr]; [done|]. simpl. by f_equal.
Qed.

(** Inversion of one monadic step of a computation that returned. *)
Ltac bind_inv H x E :=
  match type of H with
  | (mbind _ ?m = Some _) => destruct m as [x|] eqn:E; simpl in H; [|done]
  end.

Section EarlyStop.
Context {P F Obs : Type} `{!FloatOps P, !FloatOps F, !Promote P F}.
Variables (tmean tstd : list F -> F) (texp : F -> F).
Variable Net : Type.
Variable forward : Net -> list Obs -> list (list Z) -> ModuleOut F.
Variable optimize :
  P -> Net -> Rollout Obs F -> list (list F) -> list (list F) -> list nat -> Net.
Variable Rng : Type.
Variable shuffle : Rng -> list nat -> Rng * list nat.
Variables (args : Args P) (flags : BoolFlags) (lr : P).
Variables (buf : Rollout Obs F) (advantages returns : list (list F)).

Abbreviation one_epoch :=
  (epoch tmean tstd texp forward optimize shuffle args flags lr buf
     advantages returns).
Abbreviation run_epochs :=
  (epochs tmean tstd texp forward optimize shuffle args flags lr buf
     advantages returns).
Abbreviation loop :=
  (epoch_loop tmean tstd texp forward optimize shuffle args flags lr buf
     advantages returns).

(** The value tested against the threshold is the one assigned by the
    minibatch that ran last: the mean of [(ratio - 1) - logratio] over its
    entries, with [ratio = exp logratio]. *)
Lemma minibatch_step_kl (size start : Z) (tr tr' : Trainer F Net Rng) :
  minibatch_step tmean tstd texp forward optimize args flags lr buf
    advantages returns size start tr = Some tr' ->
  exists logratio : list (list F),
    approx_kl tr'
    = Some (tmean (map (fun x => fsub (fsub (texp x) (of_Z 1)) x)
                       (concat logratio)))
    /\ clipfracs tr' = clipfracs tr ++ [
         tmean (map (fun x => if fgtb (fabs (fsub (texp x) (of_Z 1)))
                                      (promote (clip_coef args))
                              then of_Z 1 else of_Z 0)
                    (concat logratio))].
Proof.
  unfold minibatch_step. intros Hstep.
  bind_inv Hstep obs_mb Eobs. bind_inv Hstep act_mb Eact.
  bind_inv Hstep old_lp Eold. bind_inv Hstep logratio Elog.
  bind_inv Hstep kl_terms Ekl. bind_inv Hstep mb_adv Eadv.
  bind_inv Hstep pg Epg. bind_inv Hstep vl Evl.
  injection Hstep as <-. simpl. exists logratio.
  rewrite mmap_mmap, mop_self_map in Ekl. injection Ekl as <-.
  by rewrite mmap_mmap, !concat_mmap.
Qed.

Lemma minibatch_loop_count (size : Z) (starts : list Z) (tr tr' : Trainer F Net Rng) :
  minibatch_loop tmean tstd texp forward optimize args flags lr buf
    advantages returns size starts tr = Some tr' ->
  length (clipfracs tr') = (length (clipfracs tr) + length starts)%nat.
Proof.
  revert tr. induction starts as [|start starts IH]; intros tr Hloop.
  - injection Hloop as <-. simpl. lia.
  - simpl in Hloop. bind_inv Hloop tr1 Estep.
    apply IH in Hloop. rewrite Hloop.
    destruct (minibatch_step_kl _ _ _ _ Estep) as (? & _ & ->).
    rewrite length_app. simpl. lia.
Qed.

(** An epoch that is entered runs every minibatch of the range: each one
    appends one entry to [clipfracs]. *)
Lemma epoch_count (size : Z) (starts : list Z) (tr tr' : Trainer F Net Rng) :
  minibatch_size args = Some size ->
  py_range (batch_size args) size = Some starts ->
  one_epoch tr = Some tr' ->
  length (clipfracs tr') = (length (clipfracs tr) + length starts)%nat.
Proof.
  intros Hsize Hstarts. unfold epoch.
  destruct (shuffle (rng tr) (b_inds tr)) as [rng' shuffled].
  rewrite Hsize. simpl. rewrite Hstarts. simpl.
  intros Hloop. by apply minibatch_loop_count in Hloop.
Qed.

Lemma epochs_count (size : Z) (starts : list Z) (k : nat)
    (tr tr' : Trainer F Net Rng) :
  minibatch_size args = Some size ->
  py_range (batch_size args) size = Some starts ->
  run_epochs k tr = Some tr' ->
  length (clipfracs tr') = (length (clipfracs tr) + k * length starts)%nat.
Proof.
  intros Hsize Hstarts. revert tr. induction k as [|k IH]; intros tr Hrun.
  - injection Hrun as <-. lia.
  - simpl in Hrun. bind_inv Hrun tr1 Eepoch.
    apply IH in Hrun. rewrite Hrun.
    rewrite (epoch_count size starts tr tr1 Hsize Hstarts Eepoch). lia.
Qed.

Lemma loop_without_threshold (n : nat) (tr : Trainer F Net Rng) :
  target_kl args = None -> loop n tr = run_epochs n tr.
Proof.
  intros Hnone. revert tr. induction n as [|n IH]; intros tr; [done|].
  simpl. destruct (one_epoch tr) as [tr1|]; [|done]. simpl.
  unfold kl_break. rewrite Hnone. simpl. apply IH.
Qed.

Lemma loop_breaks (threshold : P) (n j : nat) (tr tr_j : Trainer F Net Rng)
    (kl : F) :
  target_kl args = Some threshold -> (j < n)%nat ->
  (forall i tr_i, (i < j)%nat -> run_epochs (S i) tr = Some tr_i ->
     exists kl_i, approx_kl tr_i = Some kl_i
                  /\ fgtb kl_i (promote threshold) = false) ->
  run_epochs (S j) tr = Some tr_j ->
  approx_kl tr_j = Some kl -> fgtb kl (promote threshold) = true ->
  loop n tr = Some tr_j.
Proof.
  intros Hth. revert j tr. induction n as [|n IH]; intros j tr Hj Hbefore Hrun Hkl Hgt;
    [lia|].
  cbn [epochs] in Hrun. bind_inv Hrun tr1 Eepoch.
  cbn [epoch_loop]. rewrite Eepoch. cbn [mbind option_bind].
  destruct j as [|j].
  - injection Hrun as ->. unfold kl_break. rewrite Hth, Hkl. simpl.
    by rewrite Hgt.
  - destruct (Hbefore O tr1) as (kl1 & Hkl1 & Hle1); [lia | |].
    { cbn [epochs]. rewrite Eepoch. done. }
    unfold kl_break. rewrite Hth, Hkl1. simpl. rewrite Hle1.
    apply (IH j tr1); [lia | | done | done | done].
    intros i tr_i Hi Hrun_i. apply (Hbefore (S i) tr_i); [lia|].
    cbn [epochs]. rewrite Eepoch. exact Hrun_i.
Qed.

(** C6.  Without a threshold the loop is [n] epochs in a row.  With a
    threshold, if the approximate KL left by the last minibatch of an epoch
    exceeds it for the first time after epoch number [j] (counted from 0),
    the loop ends in the state reached after these [j + 1] epochs: no
    further epoch runs.  In both cases the epochs that run are whole: [k]
    epochs process [k] times the number of minibatches of the range, one
    [clipfracs] entry each, whatever the KL of the minibatches inside. *)
Theorem kl_early_stop (n : nat) (tr : Trainer F Net Rng) :
  (target_kl args = None ->
   epoch_loop tmean tstd texp forward optimize shuffle args flags lr buf
     advantages returns n tr
   = epochs tmean tstd texp forward optimize shuffle args flags lr buf
       advantages returns n tr)
  /\ (forall threshold j tr_j kl,
        target_kl args = Some threshold -> (j < n)%nat ->
        (forall i tr_i, (i < j)%nat ->
           epochs tmean tstd texp forward optimize shuffle args flags lr buf
             advantages returns (S i) tr = Some tr_i ->
           exists kl_i, approx_kl tr_i = Some kl_i
                        /\ fgtb kl_i (promote threshold) = false) ->
        epochs tmean tstd texp forward optimize shuffle args flags lr buf
          advantages returns (S j) tr = Some tr_j ->
        approx_kl tr_j = Some kl -> fgtb kl (promote threshold) = true ->
        epoch_loop tmean tstd texp forward optimize shuffle args flags lr buf
          advantages returns n tr = Some tr_j)
  /\ (forall size starts k tr_k,
        minibatch_size args = Some size ->
        py_range (batch_size args) size = Some starts ->
        epochs tmean tstd texp forward optimize shuffle args flags lr buf
          advantages returns k tr = Some tr_k ->
        length (clipfracs tr_k)
        = (length (clipfracs tr) + k * length starts)%nat).
Proof.
  split; [|split].
  - intros Hnone. by apply loop_without_threshold.
  - intros threshold j tr_j kl. apply loop_breaks.
  - intros size starts k tr_k. apply epochs_count.
Qed.

(** Without a threshold the optimisation phase of an update is
    [update_epochs] whole epochs from the fresh index array. *)
Lemma optimize_policy_all_epochs (tr : Trainer F Net Rng) :
  target_kl args = None ->
  optimize_policy tmean tstd texp forward optimize shuffle args flags lr buf
    advantages returns tr
  = run_epochs (Z.to_nat (update_epochs args))
      {| net := net tr; rng := rng tr; b_inds := arange (num_steps args);
         clipfracs := [];
         old_approx_kl := old_approx_kl tr; approx_kl := approx_kl tr;
         cur_v_loss := cur_v_loss tr; cur_pg_loss := cur_pg_loss tr;
         cur_entropy_loss := cur_entropy_loss tr |}.
Proof. intros Hnone. unfold optimize_policy. by apply loop_without_threshold. Qed.

End EarlyStop.

(** ** Reset, and the done flag across it *)

Section AdapterProps.
Context {F : Type} `{!FloatOps F}.
Variables (Tensor Sim : Type).
Variable rail_reset : Sim -> Sim * RawObs Tensor.
Variable rail_step : Sim -> list Z -> Sim * (RawObs Tensor * list Z * bool).
Variable get_properties : Sim -> Tensor.
Variable Net : Type.
Variable forward :
  Net -> list (gmap string Tensor) -> list (list Z) -> ModuleOut F.

Abbreviation tdict := (gmap string (value F Tensor)).

Lemma reset_returns (sim : Sim) :
  reset rail_reset get_properties sim None
  = Some (fst (rail_reset sim),
          ({[ "observations" :=
                VObs (<["valid_actions" := get_properties (fst (rail_reset sim))]>
                        (obs_to_td (snd (rail_reset sim)))) ]} : tdict)).
Proof.
  unfold reset. destruct (rail_reset sim) as [sim' obs]. simpl.
  unfold set_nested. rewrite lookup_insert_eq. simpl.
  reflexivity.
Qed.

Lemma reset_with_argument (sim : Sim) (td : tdict) :
  reset rail_reset get_properties sim (Some td) = None.
Proof. unfold reset. by destruct (rail_reset sim). Qed.

Lemma reset_keys (sim sim' : Sim) (arg : option tdict) (td : tdict) :
  reset rail_reset get_properties sim arg = Some (sim', td) ->
  dom td = {["observations"]}.
Proof.
  destruct arg as [td0|].
  - by rewrite reset_with_argument.
  - rewrite reset_returns. intros [= _ <-]. by rewrite dom_singleton_L.
Qed.

Lemma td_update_other (dst src dst' : tdict) (key : string) :
  td_update_ dst src = Some dst' -> src !! key = None ->
  dst' !! key = dst !! key.
Proof.
  unfold td_update_. case_decide; [|done]. intros [= <-] Hkey.
  by rewrite lookup_union_r.
Qed.

Lemma set_entry_lookup {A} (col col' : list A) (t : nat) (x : A) :
  set_entry col t x = Some col' -> col' !! t = Some x.
Proof.
  unfold set_entry. case_decide; [|done]. intros [= <-].
  by apply list_lookup_insert_eq.
Qed.

Lemma write_value_done (data data' : Rollout (gmap string Tensor) F)
    (t : nat) (b : bool) :
  write_value data t "done" (VBool b) = Some data' ->
  done data' !! t = Some b.
Proof.
  unfold write_value. simpl. intros Hw. bind_inv Hw col Ecol.
  injection Hw as <-. simpl. by eapply set_entry_lookup.
Qed.

Lemma write_value_done_frame (data data' : Rollout (gmap string Tensor) F)
    (t : nat) (key : string) (v : value F Tensor) :
  key <> "done" -> write_value data t key v = Some data' ->
  done data' = done data.
Proof.
  intros Hkey. unfold write_value.
  repeat match goal with
         | |- context [String.eqb key ?s] => destruct (String.eqb_spec key s)
         end; try done;
    destruct v as [o|b|l|l]; try done;
    try (destruct l as [|x [|? ?]]; try done);
    intros Hw; try (bind_inv Hw col Ecol); by injection Hw as <-.
Qed.

Lemma write_keys_done_frame (td : tdict) (t : nat) (keys : list string)
    (data data' : Rollout (gmap string Tensor) F) :
  ("done" ∉ keys \/ td !! "done" = None) ->
  write_keys td t keys data = Some data' -> done data' = done data.
Proof.
  intros Hfree. revert data.
  induction keys as [|key keys IH]; intros data Hw.
  - by injection Hw as <-.
  - simpl in Hw. bind_inv Hw data1 Ekey.
    assert (done data1 = done data) as <-.
    { destruct (td !! key) as [v|] eqn:Ev; [|by injection Ekey as <-].
      eapply write_value_done_frame; [|exact Ekey].
      intros ->. destruct Hfree as [Hnot|Hnone]; [|congruence].
      apply Hnot. by left. }
    apply IH; [|done].
    destruct Hfree as [Hnot|Hnone]; [left|by right].
    intros Hin. apply Hnot. by right.
Qed.

Lemma write_keys_done (td : tdict) (t : nat) (keys : list string)
    (data data' : Rollout (gmap string Tensor) F) (b : bool) :
  NoDup keys -> "done" ∈ keys -> td !! "done" = Some (VBool b) ->
  write_keys td t keys data = Some data' -> done data' !! t = Some b.
Proof.
  intros Hnd Hin Htd. revert data.
  induction keys as [|key keys IH]; intros data Hw.
  - by apply not_elem_of_nil in Hin.
  - simpl in Hw. bind_inv Hw data1 Ekey.
    apply NoDup_cons in Hnd as [Hfresh Hnd].
    destruct (decide (key = "done")) as [->|Hne].
    + rewrite Htd in Ekey. apply write_value_done in Ekey.
      rewrite (write_keys_done_frame td t keys data1 data'); [done | by left | done].
    + apply elem_of_cons in Hin as [Heq|Hin]; [congruence|].
      by apply (IH Hnd Hin data1).
Qed.

Lemma rollout_keys_NoDup : NoDup rollout_keys.
Proof. apply (bool_decide_unpack _). by vm_compute. Qed.

Lemma row_update_done (data data' : Rollout (gmap string Tensor) F)
    (t : nat) (td : tdict) (b : bool) :
  row_update_ data t td = Some data' -> done_flag td = Some b ->
  done data' !! t = Some b.
Proof.
  unfold row_update_, done_flag. case_decide; [|done]. intros Hw Hflag.
  destruct (td !! "done") as [[| b' | |]|] eqn:Htd; try done.
  injection Hflag as ->.
  eapply write_keys_done; [apply rollout_keys_NoDup | | exact Htd | exact Hw].
  apply list_elem_of_In. simpl. auto 10.
Qed.

Lemma row_update_frame (data data' : Rollout (gmap string Tensor) F)
    (t : nat) (td : tdict) :
  row_update_ data t td = Some data' -> td !! "done" = None ->
  done data' = done data.
Proof.
  unfold row_update_. case_decide; [|done]. intros Hw Hnone.
  eapply write_keys_done_frame; [by right | exact Hw].
Qed.

Lemma apply_module_frame (net : Net)
    (data data' : Rollout (gmap string Tensor) F) (t : nat) :
  apply_module forward net data t = Some data' -> done data' = done data.
Proof.
  unfold apply_module. intros Hm.
  bind_inv Hm o Eo. bind_inv Hm a Ea.
  destruct (out_actions _) as [|a' [|? ?]]; try done.
  destruct (out_logprobs _) as [|l' [|? ?]]; try done.
  destruct (out_entropy _) as [|e' [|? ?]]; try done.
  destruct (out_values _) as [|v' [|? ?]]; try done.
  bind_inv Hm d1 E1. bind_inv Hm d2 E2. bind_inv Hm d3 E3.
  apply write_value_done_frame in E1, E2, E3, Hm; try done.
  congruence.
Qed.

(** What [env.step] returns: a [next_obs] with a done flag and the
    observations, and rewards without a done entry. *)
Lemma step_returns (sim sim' : Sim) (row no rw : tdict) :
  step rail_step get_properties sim row = Some (sim', no, rw) ->
  rw !! "done" = None
  /\ done_flag no = Some (snd (snd (rail_step sim
        (match row !! "actions" with Some (VInts a) => a | _ => [] end))))
  /\ dom no = {["observations"; "done"]}.
Proof.
  unfold step. destruct (row !! "actions") as [[| |a|]|]; try done. simpl.
  destruct (rail_step sim a) as [sim1 [[obs rewards] flag]]. simpl.
  unfold set_nested. rewrite lookup_insert_ne by done.
  rewrite lookup_insert_eq. simpl. intros [= <- <- <-].
  split; [done|]. split; [done|].
  rewrite !dom_insert_L, dom_empty_L.
  apply set_eq. intros k. rewrite !elem_of_union, !elem_of_singleton.
  rewrite elem_of_empty. tauto.
Qed.

Section Iteration.
Context {P : Type}.
Variables (args : Args P) (net : Net).

Abbreviation act := (rollout_act rail_step get_properties forward args net).
Abbreviation after_done := (rollout_reset rail_reset get_properties).
Abbreviation iteration :=
  (rollout_step rail_reset rail_step get_properties forward args net).

(** The first half of an iteration stores the done flag that [next_obs]
    carries into slot [t], and leaves in [next_obs] what [env.step]
    returned. *)
Lemma rollout_act_stores (t : nat) (st st' : Collector F Tensor Sim) (b : bool) :
  act t st = Some st' -> done_flag (next_obs st) = Some b ->
  done (rollout_data st') !! t = Some b.
Proof.
  unfold rollout_act. intros Hact Hflag.
  bind_inv Hact d1 E1. bind_inv Hact d2 E2. bind_inv Hact row Erow.
  bind_inv Hact res Estep. destruct res as [[sim' no] rw].
  bind_inv Hact d3 E3. injection Hact as <-. simpl.
  destruct (step_returns _ _ _ _ _ Estep) as (Hrw & _ & Hdom).
  rewrite (row_update_frame _ _ _ _ E3 Hrw), (apply_module_frame _ _ _ _ E2).
  by eapply row_update_done.
Qed.

Lemma rollout_act_keys (t : nat) (st st' : Collector F Tensor Sim) :
  act t st = Some st' -> dom (next_obs st') = {["observations"; "done"]}.
Proof.
  unfold rollout_act. intros Hact.
  bind_inv Hact d1 E1. bind_inv Hact d2 E2. bind_inv Hact row Erow.
  bind_inv Hact res Estep. destruct res as [[sim' no] rw].
  bind_inv Hact d3 E3. injection Hact as <-. simpl.
  by destruct (step_returns _ _ _ _ _ Estep) as (_ & _ & Hdom).
Qed.

(** The reset at the end of an episode replaces the observations only. *)
Lemma rollout_reset_keeps (st st' : Collector F Tensor Sim) :
  after_done st = Some st' ->
  done_flag (next_obs st') = done_flag (next_obs st)
  /\ rollout_data st' = rollout_data st.
Proof.
  unfold rollout_reset. intros Hr. bind_inv Hr flag Eflag.
  destruct flag; [|by injection Hr as <-].
  rewrite reset_returns in Hr. simpl in Hr. bind_inv Hr no Eno.
  injection Hr as <-. simpl. split; [|done].
  unfold done_flag. by rewrite (td_update_other _ _ _ "done" Eno).
Qed.

Lemma rollout_reset_returns (st : Collector F Tensor Sim) (b : bool) :
  done_flag (next_obs st) = Some b ->
  dom (next_obs st) = {["observations"; "done"]} ->
  exists st', after_done st = Some st'.
Proof.
  intros Hflag Hdom. unfold rollout_reset. rewrite Hflag. simpl.
  destruct b; [|by eexists].
  rewrite reset_returns. simpl. unfold td_update_.
  rewrite decide_True; [by eexists|].
  rewrite Hdom, dom_singleton_L. apply union_subseteq_l.
Qed.

Lemma rollout_step_stores (t : nat) (st st' : Collector F Tensor Sim) (b : bool) :
  iteration t st = Some st' -> done_flag (next_obs st) = Some b ->
  done (rollout_data st') !! t = Some b.
Proof.
  unfold rollout_step. intros Hstep Hflag. bind_inv Hstep st1 Eact.
  pose proof (rollout_act_stores t st st1 b Eact Hflag) as Hstored.
  destruct (rollout_reset_keeps st1 st' Hstep) as [_ ->]. exact Hstored.
Qed.

(** C9.  [reset], called without a tensordict as the script does, returns
    a tensordict whose only entry is ["observations"]; whatever is returned
    by [reset] has no ["done"] and no ["rewards"] entry.  So when the step of
    iteration [t] reports the end of the episode, the update of [next_obs]
    from [reset] leaves the flag true, and the next iteration, in this
    rollout or after [next_obs] has been prepared for the bootstrap, stores
    true in the slot it fills. *)
Theorem reset_keeps_done :
  (forall sim, exists sim' td,
     reset rail_reset get_properties sim None = Some (sim', td)
     /\ dom (td : tdict) = {["observations"]})
  /\ (forall sim arg sim' (td : tdict),
        reset rail_reset get_properties sim arg = Some (sim', td) ->
        dom td = {["observations"]}
        /\ td !! "done" = None /\ td !! "rewards" = None)
  /\ (forall t st st_act,
        rollout_act rail_step get_properties forward args net t st
          = Some st_act ->
        done_flag (next_obs st_act) = Some true ->
        exists st1,
          rollout_step rail_reset rail_step get_properties forward args net
            t st = Some st1
          /\ done_flag (next_obs st1) = Some true
          /\ (forall st2,
                rollout_step rail_reset rail_step get_properties forward
                  args net (S t) st1 = Some st2 ->
                done (rollout_data st2) !! S t = Some true)
          /\ (forall st1' st2,
                mark_bootstrap st1 = Some st1' ->
                rollout_step rail_reset rail_step get_properties forward
                  args net O st1' = Some st2 ->
                done (rollout_data st2) !! O = Some true)).
Proof.
  split; [|split].
  - intros sim. do 2 eexists. split; [apply reset_returns|].
    by rewrite dom_singleton_L.
  - intros sim arg sim' td Hreset.
    pose proof (reset_keys _ _ _ _ Hreset) as Hdom. split; [done|].
    split; apply not_elem_of_dom; rewrite Hdom;
      by intros ?%elem_of_singleton.
  - intros t st st_act Hact Htrue.
    pose proof (rollout_act_keys t st st_act Hact) as Hdom.
    destruct (rollout_reset_returns st_act true Htrue Hdom) as [st1 Hst1].
    destruct (rollout_reset_keeps st_act st1 Hst1) as [Hkeep _].
    exists st1. split; [|split; [|split]].
    + unfold rollout_step. by rewrite Hact.
    + by rewrite Hkeep.
    + intros st2 Hnext. eapply rollout_step_stores; [exact Hnext|].
      by rewrite Hkeep.
    + intros st1' st2 Hmark Hnext.
      eapply rollout_step_stores; [exact Hnext|].
      unfold mark_bootstrap in Hmark. bind_inv Hmark a Ea.
      injection Hmark as <-. simpl. unfold done_flag.
      rewrite lookup_insert_ne by done. fold (done_flag (next_obs st1)).
      by rewrite Hkeep.
Qed.

End Iteration.

End AdapterProps.

(** ** The theorems on concrete inputs *)

Lemma minibatch_partition_witness :
  minibatch_size twenty_args = Some 1
  /\ exists mbs,
       minibatches twenty_args (reverse (arange 20)) = Some mbs
       /\ length mbs = 20%nat
       /\ Forall (fun mb => length mb = 1%nat) mbs
       /\ concat mbs = reverse (arange 20)
       /\ forall i, (i < 20)%nat ->
            exists k, mbs !! k = Some [i]
                      /\ forall k' mb, mbs !! k' = Some mb -> i ∈ mb -> k' = k.
Proof.
  apply (minibatch_partition twenty_args (reverse (arange 20))).
  - reflexivity.
  - reflexivity.
  - reflexivity.
  - apply reverse_Permutation.
Defined.

(** What the script computes with [--num-envs 2]: [batch_size] is 40 and
    [minibatch_size] is 40 // 20 = 2, so [range(0, 40, 2)] gives ten slices
    of two indices followed by ten empty slices past the end of [b_inds]. *)
Lemma two_envs_minibatches :
  batch_size two_envs_args = 40
  /\ minibatch_size two_envs_args = Some 2
  /\ minibatches two_envs_args (arange 20)
     = Some ([[0; 1]; [2; 3]; [4; 5]; [6; 7]; [8; 9]; [10; 11]; [12; 13];
              [14; 15]; [16; 17]; [18; 19]] ++ replicate 10 [])%nat.
Proof. vm_compute. repeat split. Qed.

(** C5, as stated, fails: the horizon of 20 steps and the 20 minibatches do
    not fix the minibatch size, which is
    [num_envs * num_steps // num_minibatches]; with two environments it is
    2, not 1. *)
Lemma minibatch_partition_counterexample : ~ partitions_horizon binary64.
Proof.
  intros Hp.
  destruct (Hp two_envs_args (arange 20) eq_refl eq_refl) as [Hsize _].
  - reflexivity.
  - vm_compute in Hsize. discriminate Hsize.
Qed.

Lemma v_loss_formula_witness :
  v_loss mean32 default_args
    [[of_Z 1]; [of_Z 2]]
    [[of_Z 0]; [of_Z 5]; [of_Z 3]]
    [[of_Z 1]; [of_Z 1]; [of_Z 4]]
    [2%nat; 0%nat]
  = Some (spec_v_loss mean32 default_args
            [[of_Z 1]; [of_Z 2]]
            [[of_Z 0]; [of_Z 5]; [of_Z 3]]
            [[of_Z 1]; [of_Z 1]; [of_Z 4]]
            [2%nat; 0%nat] 1).
Proof.
  apply (v_loss_formula mean32 default_args
           [[of_Z 1]; [of_Z 2]]
           [[of_Z 0]; [of_Z 5]; [of_Z 3]]
           [[of_Z 1]; [of_Z 1]; [of_Z 4]]
           [2%nat; 0%nat] 3 1).
  - repeat split; repeat constructor.
  - repeat split; repeat constructor.
  - repeat split; repeat constructor.
  - repeat constructor.
Defined.

(** The loss of that minibatch, computed: the clipped values are 2.8 and
    0.2, the larger squared errors are the unclipped ones, 9 and 1, and the
    loss is half of their mean. *)
Lemma v_loss_example :
  v_loss mean32 default_args
    [[of_Z 1]; [of_Z 2]]
    [[of_Z 0]; [of_Z 5]; [of_Z 3]]
    [[of_Z 1]; [of_Z 1]; [of_Z 4]]
    [2%nat; 0%nat]
  = Some (fmul (dec 5 10) (mean32 [of_Z 9; of_Z 1])).
Proof. vm_compute. reflexivity. Qed.

(** With the threshold 0.01 and an approximate KL of 0.5 after the first
    epoch, the loop of four epochs ends after one. *)
Lemma kl_early_stop_witness :
  epoch_loop mean32 std32 exp32 toy_forward toy_optimize toy_shuffle kl_args
    default_flags (learning_rate kl_args) kl_buffer kl_advantages kl_returns
    4 kl_start
  = Some kl_after_one.
Proof.
  apply (proj1 (proj2 (kl_early_stop mean32 std32 exp32 binary32 toy_forward
                         toy_optimize unit toy_shuffle kl_args default_flags
                         (learning_rate kl_args) kl_buffer kl_advantages
                         kl_returns 4 kl_start))
           (dec 1 100) 0%nat kl_after_one (dec 5 10)).
  - reflexivity.
  - lia.
  - intros i tr_i Hi. lia.
  - vm_compute. reflexivity.
  - vm_compute. reflexivity.
  - vm_compute. reflexivity.
Defined.

Lemma kl_after_one_minibatches : length (clipfracs kl_after_one) = 1%nat.
Proof. vm_compute. reflexivity. Qed.

(** The episode of the two-step simulator ends in iteration 1; the flag is
    still true after the reset and is what iteration 2 stores. *)
Lemma reset_keeps_done_witness :
  exists st1,
    rollout_step demo_rail_reset demo_rail_step demo_properties toy_forward
      demo_args (of_Z 1) 1 demo_after_0 = Some st1
    /\ done_flag (next_obs st1) = Some true
    /\ (forall st2,
          rollout_step demo_rail_reset demo_rail_step demo_properties
            toy_forward demo_args (of_Z 1) 2 st1 = Some st2 ->
          done (rollout_data st2) !! 2%nat = Some true)
    /\ (forall st1' st2,
          mark_bootstrap st1 = Some st1' ->
          rollout_step demo_rail_reset demo_rail_step demo_properties
            toy_forward demo_args (of_Z 1) 0 st1' = Some st2 ->
          done (rollout_data st2) !! 0%nat = Some true).
Proof.
  apply (proj2 (proj2 (reset_keeps_done nat nat demo_rail_reset
                         demo_rail_step demo_properties binary32 toy_forward
                         demo_args (of_Z 1)))
           1%nat demo_after_0 demo_act_1).
  - vm_compute. reflexivity.
  - vm_compute. reflexivity.
Defined.

(** The whole rollout of three steps on the two-step simulator: the flag of
    the episode that ended in iteration 1 is in slot 2. *)
Lemma rollout_done_column :
  done <$> (rollout_data <$>
    rollout demo_rail_reset demo_rail_step demo_properties toy_forward
      demo_args (of_Z 1) demo_start)
  = Some [false; false; true].
Proof. vm_compute. reflexivity. Qed.

(** In float32 too the returns are the sums of advantages and values, entry
    by entry: here on the two-step example with gamma = lambda = 1. *)
Lemma returns_float32_example :
  match estimate (mc_args (T:=binary64)) (mc_buffer (F:=binary32))
          mc_bootstrap false with
  | Some (advantages, returns) =>
      returns = zip_with (zip_with fadd) advantages
                  (values (mc_buffer (F:=binary32)))
  | None => False
  end.
Proof. vm_compute. reflexivity. Qed.

(** * Further properties of the script *)

(** ** Advantage estimator: independence, closed form, boundaries *)

Section EstimatorMore.
Context {P F Obs : Type} `{!FloatOps P, !FloatOps F, !Promote P F}.
Variable args : Args P.

Let H := Z.to_nat (num_steps args).
Let A := Z.to_nat (num_agents args).

Lemma at2_of_tget (m : list (list F)) (t a : nat) (x : F) :
  tget m t a = Some x -> at2 m t a = x.
Proof. unfold at2. by intros ->. Qed.

(** X1.  The advantages of one agent are computed from that agent's rewards and
    values and from the done flags alone: two filled buffers that agree on
    the done flags and on the column of agent [a] give the same advantages in
    column [a], whatever the other agents' entries are. *)
Theorem advantages_per_agent (buf1 buf2 : Rollout Obs F)
    (next_value1 next_value2 : list F) (next_done : bool) (a : nat) :
  filled args buf1 -> filled args buf2 ->
  length next_value1 = A -> length next_value2 = A ->
  (a < A)%nat ->
  done buf1 = done buf2 ->
  next_value1 !! a = next_value2 !! a ->
  (forall t, (t < H)%nat ->
     at2 (rewards buf1) t a = at2 (rewards buf2) t a
     /\ at2 (values buf1) t a = at2 (values buf2) t a) ->
  exists adv1 ret1 adv2 ret2,
    estimate args buf1 next_value1 next_done = Some (adv1, ret1)
    /\ estimate args buf2 next_value2 next_done = Some (adv2, ret2)
    /\ forall t, (t < H)%nat -> at2 adv1 t a = at2 adv2 t a.
Proof.
  intros Hf1 Hf2 Hnv1 Hnv2 Ha Hdone Hnv Hcol.
  destruct (estimate_spec args buf1 next_value1 next_done Hf1 Hnv1)
    as (adv1 & ret1 & Hest1 & _ & _ & Hrec1).
  destruct (estimate_spec args buf2 next_value2 next_done Hf2 Hnv2)
    as (adv2 & ret2 & Hest2 & _ & _ & Hrec2).
  exists adv1, ret1, adv2, ret2. split; [done|]. split; [done|].
  assert (forall n t, (H - t = n)%nat -> (t < H)%nat ->
            at2 adv1 t a = at2 adv2 t a) as Hall.
  { induction n as [|n IH]; intros t Hn Ht; [lia|].
    rewrite (at2_of_tget _ _ _ _ (Hrec1 t a Ht Ha)).
    rewrite (at2_of_tget _ _ _ _ (Hrec2 t a Ht Ha)).
    destruct (Hcol t Ht) as [Hr Hv].
    unfold spec_advantage, spec_delta, spec_lastgaelam, spec_nextvalue,
      spec_nextnonterminal.
    rewrite Hr, Hv, Hdone, Hnv.
    destruct (Z.of_nat t =? num_steps args - 1) eqn:E; [done|].
    assert (S t < H)%nat as Ht'.
    { subst H. apply Z.eqb_neq in E. lia. }
    replace (t + 1)%nat with (S t) by lia.
    rewrite (IH (S t)) by lia.
    destruct (Hcol (S t) Ht') as [_ ->]. done. }
  intros t Ht. by apply (Hall (H - t)%nat).
Qed.

End EstimatorMore.

Section EstimatorExact.
Context {Obs : Type}.
Variables (args : Args Qc) (buf : Rollout Obs Qc).
Variables (next_value : list Qc) (next_done : bool).

Let H := Z.to_nat (num_steps args).
Let A := Z.to_nat (num_agents args).

Lemma gae_weight_S (t m : nat) :
  gae_weight args buf next_done t (S m)
  = (gae_coef args buf next_done t
     * gae_weight args buf next_done (S t) m)%Qc.
Proof. reflexivity. Qed.

Lemma Qc_sum_scale (c : Qc) (l : list Qc) :
  foldr fadd (of_Z 0) (map (fun x => fmul c x) l)
  = (c * foldr fadd (of_Z 0) l)%Qc.
Proof.
  induction l as [|x l IH]; cbn [map foldr].
  - qc_norm. ring.
  - rewrite IH. qc_norm. ring.
Qed.

Lemma gae_sum_S (t n a : nat) :
  gae_sum args buf next_value next_done t (S n) a
  = (spec_delta args buf next_value next_done t a
     + gae_coef args buf next_done t
       * gae_sum args buf next_value next_done (S t) n a)%Qc.
Proof.
  unfold gae_sum. cbn [seq map foldr]. rewrite Nat.sub_diag.
  change (gae_weight args buf next_done t 0) with (of_Z 1 : Qc).
  rewrite <- Qc_sum_scale, map_map. qc_norm. f_equal; [ring|].
  f_equal. apply map_ext_in. intros k Hk. apply in_seq in Hk.
  replace (k - t)%nat with (S (k - S t)) by lia.
  rewrite gae_weight_S. qc_norm. ring.
Qed.

(** X2.  In exact arithmetic the advantage of step [t] is the sum, over the steps
    k from t to the end of the horizon, of the temporal-difference error of
    step k times the product of [gamma * lambda * nextnonterminal] over the
    steps from t to k-1: the discounted sum that the recursion unrolls, cut
    at every episode end. *)
Theorem advantage_closed_form (advantages returns : list (list Qc)) :
  filled args buf -> length next_value = A ->
  estimate args buf next_value next_done = Some (advantages, returns) ->
  forall t a, (t < H)%nat -> (a < A)%nat ->
    at2 advantages t a
    = gae_sum args buf next_value next_done t (H - t) a.
Proof.
  intros Hfilled Hnv Hest.
  destruct (estimate_spec args buf next_value next_done Hfilled Hnv)
    as (adv & ret & Hest' & _ & _ & Hrec).
  assert (adv = advantages) as -> by congruence.
  assert (forall n t a, (H - t = n)%nat -> (t < H)%nat -> (a < A)%nat ->
            at2 advantages t a
            = gae_sum args buf next_value next_done t n a) as Hall.
  { induction n as [|n IH]; intros t a Hn Ht Ha; [lia|].
    rewrite gae_sum_S. unfold at2 at 1. rewrite (Hrec t a Ht Ha).
    cbn [from_option id]. unfold spec_advantage, spec_lastgaelam, gae_coef.
    destruct (Z.of_nat t =? num_steps args - 1) eqn:E.
    - assert (n = O) as -> by (subst H; apply Z.eqb_eq in E; lia).
      unfold gae_sum. cbn [seq map foldr]. qc_norm. ring.
    - assert (S t < H)%nat as Ht' by (subst H; apply Z.eqb_neq in E; lia).
      replace (t + 1)%nat with (S t) by lia.
      rewrite (IH (S t) a) by lia. qc_norm. ring. }
  intros t a Ht Ha. by apply Hall.
Qed.

(** X3.  In exact arithmetic nothing crosses the end of an episode: when the
    slot after [t] is marked done (for the last step: when the bootstrap
    step is done), the advantage of [t] is [reward[t] - value[t]], whatever
    the values and advantages of the later steps are. *)
Theorem advantage_at_episode_end (advantages returns : list (list Qc)) :
  filled args buf -> length next_value = A ->
  estimate args buf next_value next_done = Some (advantages, returns) ->
  forall t a, (t < H)%nat -> (a < A)%nat ->
    (if decide (S t = H) then next_done = true
     else done buf !! S t = Some true) ->
    at2 advantages t a
    = (at2 (rewards buf) t a - at2 (values buf) t a)%Qc.
Proof.
  intros Hfilled Hnv Hest t a Ht Ha Hend.
  destruct (estimate_spec args buf next_value next_done Hfilled Hnv)
    as (adv & ret & Hest' & _ & _ & Hrec).
  assert (adv = advantages) as -> by congruence.
  unfold at2 at 1. rewrite (Hrec t a Ht Ha). cbn [from_option id].
  unfold spec_advantage, spec_delta, spec_nextnonterminal.
  destruct (Z.of_nat t =? num_steps args - 1) eqn:E.
  - rewrite decide_True in Hend by (subst H; apply Z.eqb_eq in E; lia).
    rewrite Hend. qc_norm. ring.
  - rewrite decide_False in Hend by (subst H; apply Z.eqb_neq in E; lia).
    replace (t + 1)%nat with (S t) by lia. rewrite Hend.
    cbn [from_option id]. qc_norm. ring.
Qed.

(** X4.  In exact arithmetic, [gae_lambda = 0] makes the advantage the one-step
    temporal-difference error
    [reward[t] + gamma * nextvalue * nextnonterminal - value[t]]. *)
Theorem advantage_lambda_zero (advantages returns : list (list Qc)) :
  gae_lambda args = of_Z 0 ->
  filled args buf -> length next_value = A ->
  estimate args buf next_value next_done = Some (advantages, returns) ->
  forall t a, (t < H)%nat -> (a < A)%nat ->
    at2 advantages t a = spec_delta args buf next_value next_done t a.
Proof.
  intros Hl Hfilled Hnv Hest t a Ht Ha.
  destruct (estimate_spec args buf next_value next_done Hfilled Hnv)
    as (adv & ret & Hest' & _ & _ & Hrec).
  assert (adv = advantages) as -> by congruence.
  unfold at2 at 1. rewrite (Hrec t a Ht Ha). cbn [from_option id].
  unfold spec_advantage. rewrite Hl. qc_norm. ring.
Qed.

(** X5.  In exact arithmetic, with gamma = 1 and lambda = 1 the value baseline
    cancels in the returns: [returns[t]] is the undiscounted return from [t]
    to the end of the episode, bootstrap value included when the horizon
    ends first. *)
Theorem returns_monte_carlo (advantages returns : list (list Qc)) :
  gamma args = of_Z 1 -> gae_lambda args = of_Z 1 ->
  filled args buf -> length next_value = A ->
  estimate args buf next_value next_done = Some (advantages, returns) ->
  forall t a, (t < H)%nat -> (a < A)%nat ->
    at2 returns t a
    = episode_return args buf next_value next_done (H - t) t a.
Proof.
  intros Hg Hl Hfilled Hnv Hest t a Ht Ha.
  pose proof (monte_carlo_exact args buf next_value next_done advantages
                returns Hg Hl Hfilled Hnv Hest t a Ht Ha) as Hadv.
  destruct (estimate_spec args buf next_value next_done Hfilled Hnv)
    as (adv & ret & Hest' & Hsh & Hmop & _).
  assert (adv = advantages /\ ret = returns) as [-> ->]
    by (split; congruence).
  pose proof Hfilled as (_ & Hval & _). fold H A in Hval.
  destruct (mop_spec fadd H A advantages (values buf) Hsh Hval)
    as (ret' & Hret' & _ & Hlook).
  assert (ret' = returns) as -> by congruence.
  destruct (shape_lookup H A advantages t Hsh Ht) as (r & Hr & Hrl).
  destruct (shape_lookup H A _ t Hval Ht) as (v & Hv & Hvl).
  destruct (lookup_lt_is_Some_2 r a) as [x Hx]; [lia|].
  destruct (lookup_lt_is_Some_2 v a) as [y Hy]; [lia|].
  rewrite (at2_lookup advantages t a r x Hr Hx) in Hadv.
  rewrite (at2_lookup (values buf) t a v y Hv Hy) in Hadv.
  assert (zip_with fadd r v !! a = Some (fadd x y)) as Hxy
    by (by rewrite lookup_zip_with, Hx, Hy).
  rewrite (at2_lookup returns t a _ _ (Hlook t r v Hr Hv) Hxy).
  rewrite Hadv. qc_norm. fold H. ring.
Qed.

End EstimatorExact.

(** ** Instances of the estimator properties *)

Lemma advantages_per_agent_witness :
  exists adv1 ret1 adv2 ret2,
    estimate example_args episode_buffer episode_bootstrap false
      = Some (adv1, ret1)
    /\ estimate example_args episode_buffer' episode_bootstrap' false
       = Some (adv2, ret2)
    /\ forall t, (t < Z.to_nat (num_steps example_args))%nat ->
         at2 adv1 t 0 = at2 adv2 t 0.
Proof.
  apply (advantages_per_agent example_args episode_buffer episode_buffer'
           episode_bootstrap episode_bootstrap' false 0).
  - repeat split; repeat constructor.
  - repeat split; repeat constructor.
  - reflexivity.
  - reflexivity.
  - simpl. lia.
  - reflexivity.
  - reflexivity.
  - intros t Ht. simpl in Ht.
    destruct t as [|[|[|[|t]]]]; [split; reflexivity ..|lia].
Defined.

Lemma advantage_closed_form_witness :
  at2 (fst episode_exact) 0 1
  = gae_sum example_args episode_buffer episode_bootstrap false 0 4 1.
Proof.
  apply (advantage_closed_form example_args episode_buffer episode_bootstrap
           false (fst episode_exact) (snd episode_exact)).
  - repeat split; repeat constructor.
  - reflexivity.
  - unfold episode_exact.
    destruct (estimate example_args episode_buffer episode_bootstrap false)
      as [[adv ret]|] eqn:E.
    + reflexivity.
    + vm_compute in E. discriminate E.
  - simpl. lia.
  - simpl. lia.
Defined.

Lemma advantage_at_episode_end_witness :
  at2 (fst episode_exact) 1 0
  = (at2 (rewards episode_buffer) 1 0 - at2 (values episode_buffer) 1 0)%Qc.
Proof.
  apply (advantage_at_episode_end example_args episode_buffer
           episode_bootstrap false (fst episode_exact) (snd episode_exact)).
  - repeat split; repeat constructor.
  - reflexivity.
  - unfold episode_exact.
    destruct (estimate example_args episode_buffer episode_bootstrap false)
      as [[adv ret]|] eqn:E.
    + reflexivity.
    + vm_compute in E. discriminate E.
  - simpl. lia.
  - simpl. lia.
  - reflexivity.
Defined.

Lemma advantage_lambda_zero_witness :
  at2 (fst td_exact) 2 1
  = spec_delta td_args episode_buffer episode_bootstrap false 2 1.
Proof.
  apply (advantage_lambda_zero td_args episode_buffer episode_bootstrap
           false (fst td_exact) (snd td_exact)).
  - reflexivity.
  - repeat split; repeat constructor.
  - reflexivity.
  - unfold td_exact.
    destruct (estimate td_args episode_buffer episode_bootstrap false)
      as [[adv ret]|] eqn:E.
    + reflexivity.
    + vm_compute in E. discriminate E.
  - simpl. lia.
  - simpl. lia.
Defined.

Lemma returns_monte_carlo_witness :
  at2 (snd undiscounted_exact) 0 0
  = episode_return undiscounted_args episode_buffer episode_bootstrap false
      4 0 0.
Proof.
  apply (returns_monte_carlo undiscounted_args episode_buffer
           episode_bootstrap false (fst undiscounted_exact)
           (snd undiscounted_exact)).
  - reflexivity.
  - reflexivity.
  - repeat split; repeat constructor.
  - reflexivity.
  - unfold undiscounted_exact.
    destruct (estimate undiscounted_args episode_buffer episode_bootstrap
                false) as [[adv ret]|] eqn:E.
    + reflexivity.
    + vm_compute in E. discriminate E.
  - simpl. lia.
  - simpl. lia.
Defined.

(** ** Step rewards: sign, accumulation, failures *)

Section RewardsMore.
Variable Sim : Type.
Variable get_travel_time_on_shortest_path : Agent -> Sim -> Z.
Variable get_current_delay : Agent -> Sim -> Z.

(** X6.  The reward of an agent that is DONE is never positive; it is zero
    exactly when the agent arrived no later than its latest arrival, and
    minus the lateness otherwise. *)
Theorem done_reward_sign (env : RewardEnv Sim) (agent : Agent)
    (arrival reward : Z) :
  state agent = DONE -> arrival_time agent = Some arrival ->
  step_reward get_travel_time_on_shortest_path get_current_delay env agent
    = Some reward ->
  reward <= 0
  /\ (reward = 0 <-> arrival <= latest_arrival agent)
  /\ (latest_arrival agent < arrival ->
      reward = - (arrival - latest_arrival agent)).
Proof.
  intros Hs Ha. unfold step_reward. rewrite decide_True by done.
  rewrite Ha. simpl. intros [= <-]. lia.
Qed.

(** X7.  A successful [update_step_rewards] adds the reward of the step to the
    entry of that agent in [rewards_dict] and changes nothing else: not the
    entries of the other agents, not the agents, not the constants. *)
Theorem update_step_rewards_frame (env env' : RewardEnv Sim) (i : nat) :
  update_step_rewards get_travel_time_on_shortest_path get_current_delay
    env i = Some env' ->
  exists agent reward total,
    agents env !! i = Some agent
    /\ step_reward get_travel_time_on_shortest_path get_current_delay
         env agent = Some reward
    /\ rewards_dict env !! i = Some total
    /\ rewards_dict env' !! i = Some (total + reward)
    /\ (forall j, j <> i -> rewards_dict env' !! j = rewards_dict env !! j)
    /\ agents env' = agents env /\ sim env' = sim env
    /\ cancellation_factor env' = cancellation_factor env
    /\ cancellation_time_buffer env' = cancellation_time_buffer env.
Proof.
  unfold update_step_rewards. intros Hu.
  bind_inv Hu agent Eagent. bind_inv Hu reward Ereward.
  bind_inv Hu tot Etotal. injection Hu as <-. simpl.
  exists agent, reward, tot. repeat split; try done.
  - by rewrite lookup_insert_eq.
  - intros j Hj. by rewrite lookup_insert_ne.
Qed.

(** X8.  [update_step_rewards] raises in three cases only: the index is not that
    of an agent, the agent is DONE without an arrival time, or
    [rewards_dict] has no entry for the index.  In particular the initial
    [reward = None] never reaches the addition: every state that is not
    DONE is off the map or on it. *)
Theorem update_step_rewards_fails (env : RewardEnv Sim) (i : nat) :
  update_step_rewards get_travel_time_on_shortest_path get_current_delay
    env i = None
  <-> (agents env !! i = None
       \/ (exists agent, agents env !! i = Some agent
                         /\ state agent = DONE
                         /\ arrival_time agent = None)
       \/ rewards_dict env !! i = None).
Proof.
  unfold update_step_rewards.
  destruct (agents env !! i) as [agent|] eqn:Eagent; simpl;
    [|split; [by left | done]].
  assert (step_reward get_travel_time_on_shortest_path get_current_delay
            env agent = None
          <-> state agent = DONE /\ arrival_time agent = None) as Hreward.
  { unfold step_reward. destruct (decide (state agent = DONE)) as [Hd|Hd].
    - destruct (arrival_time agent); simpl; split; try done.
      by intros [_ ?].
    - split; [|by intros [? _]].
      destruct (state agent); simpl in *; done. }
  destruct (step_reward _ _ env agent) as [reward|] eqn:Ereward; simpl.
  - destruct (rewards_dict env !! i) as [total|] eqn:Etotal; simpl.
    + split; [done|]. intros [?|[(ag & [= <-] & Hd & Hn)|?]]; try done.
      destruct Hreward as [_ Hr]. by specialize (Hr (conj Hd Hn)).
    + split; [by right; right | done].
  - split; [|done]. intros _. right. left. exists agent.
    destruct Hreward as [Hr _]. by destruct (Hr eq_refl).
Qed.

End RewardsMore.

Lemma done_reward_sign_witness :
  -10 <= 0
  /\ (-10 = 0 <-> 100 <= latest_arrival late_agent)
  /\ (latest_arrival late_agent < 100 ->
      -10 = - (100 - latest_arrival late_agent)).
Proof.
  apply (done_reward_sign unit (fun _ _ => 7) (fun _ _ => -3)
           late_env late_agent 100 (-10)).
  - reflexivity.
  - reflexivity.
  - reflexivity.
Defined.

Lemma update_step_rewards_frame_witness :
  exists agent reward total,
    agents late_env !! 0%nat = Some agent
    /\ step_reward (fun _ _ => 7) (fun _ _ => -3) late_env agent = Some reward
    /\ rewards_dict late_env !! 0%nat = Some total
    /\ rewards_dict
         {| agents := [late_agent]; sim := tt; cancellation_factor := 1;
            cancellation_time_buffer := 0;
            rewards_dict := {[ 0%nat := -10 ]} |} !! 0%nat
       = Some (total + reward)
    /\ (forall j, j <> 0%nat ->
          rewards_dict
            {| agents := [late_agent]; sim := tt; cancellation_factor := 1;
               cancellation_time_buffer := 0;
               rewards_dict := {[ 0%nat := -10 ]} |} !! j
          = rewards_dict late_env !! j)
    /\ agents
         {| agents := [late_agent]; sim := tt; cancellation_factor := 1;
            cancellation_time_buffer := 0;
            rewards_dict := {[ 0%nat := -10 ]} |} = agents late_env
    /\ sim {| agents := [late_agent]; sim := tt; cancellation_factor := 1;
              cancellation_time_buffer := 0;
              rewards_dict := {[ 0%nat := -10 ]} |} = sim late_env
    /\ cancellation_factor
         {| agents := [late_agent]; sim := tt; cancellation_factor := 1;
            cancellation_time_buffer := 0;
            rewards_dict := {[ 0%nat := -10 ]} |}
       = cancellation_factor late_env
    /\ cancellation_time_buffer
         {| agents := [late_agent]; sim := tt; cancellation_factor := 1;
            cancellation_time_buffer := 0;
            rewards_dict := {[ 0%nat := -10 ]} |}
       = cancellation_time_buffer late_env.
Proof.
  apply (update_step_rewards_frame unit (fun _ _ => 7) (fun _ _ => -3)
           late_env _ 0%nat).
  reflexivity.
Defined.

(** ** Minibatches: sizes, counts, the zero step *)

(** X9.  With fewer samples in the batch than minibatches asked for, the
    minibatch size is [batch_size // num_minibatches = 0], and
    [range(0, batch_size, 0)] raises: no epoch can run. *)
Theorem minibatches_zero_size {P} (args : Args P) (b_inds : list nat) :
  0 <= batch_size args < num_minibatches args ->
  minibatch_size args = Some 0 /\ minibatches args b_inds = None.
Proof.
  intros Hb. unfold minibatches, minibatch_size.
  destruct (num_minibatches args =? 0) eqn:E; [apply Z.eqb_eq in E; lia|].
  rewrite Z.div_small by lia. done.
Qed.

Lemma minibatches_zero_size_witness :
  minibatch_size (args_with (T:=Qc) 10 1 (of_Z 1) (of_Z 1)) = Some 0
  /\ minibatches (args_with (T:=Qc) 10 1 (of_Z 1) (of_Z 1)) (arange 10)
     = None.
Proof.
  apply (minibatches_zero_size (args_with (T:=Qc) 10 1 (of_Z 1) (of_Z 1))
           (arange 10)).
  vm_compute. split; [discriminate | reflexivity].
Defined.

(** X10.  Whenever the batch has at least as many samples as minibatches asked
    for, the minibatches of an epoch are consecutive slices of [b_inds]
    that together give back [b_inds], none longer than the minibatch size.
    Their number is [num_minibatches] when that divides the batch size, and
    larger otherwise: the remainder is not dropped but forms further
    minibatches. *)
Theorem minibatches_cover {P} (args : Args P) (b_inds : list nat) :
  0 < num_minibatches args <= batch_size args ->
  Z.of_nat (length b_inds) <= batch_size args ->
  exists size mbs,
    minibatch_size args = Some size /\ 0 < size
    /\ minibatches args b_inds = Some mbs
    /\ concat mbs = b_inds
    /\ Forall (fun mb => Z.of_nat (length mb) <= size) mbs
    /\ (if decide (batch_size args mod num_minibatches args = 0)
        then Z.of_nat (length mbs) = num_minibatches args
        else num_minibatches args < Z.of_nat (length mbs)).
Proof.
  intros Hn Hlen.
  set (n := num_minibatches args) in *. set (B := batch_size args) in *.
  assert (minibatch_size args = Some (B / n)) as Hsize.
  { unfold minibatch_size. fold n B.
    destruct (n =? 0) eqn:E; [apply Z.eqb_eq in E; lia|done]. }
  assert (0 < B / n) as Hpos by (apply Z.div_str_pos; lia).
  destruct (minibatches_chunks args b_inds (B / n) Hsize Hpos)
    as (m & Hmbs & Hcover & Hm). fold B in Hcover, Hm.
  exists (B / n), (map (fun k => take (Z.to_nat (B / n))
                            (drop (k * Z.to_nat (B / n)) b_inds)) (seq 0 m)).
  split; [done|]. split; [done|]. split; [done|]. split; [|split].
  - rewrite concat_chunks. apply take_ge. nia.
  - apply Forall_map, Forall_forall. intros k _. simpl.
    rewrite length_take. lia.
  - rewrite length_map, length_seq, Hm by lia.
    pose proof (Z.div_mod B n ltac:(lia)) as Hdm.
    pose proof (Z.mod_pos_bound B n ltac:(lia)) as Hr.
    destruct (decide (B mod n = 0)) as [E|E].
    + assert (B - 1 = (n - 1) * (B / n) + (B / n - 1)) as -> by nia.
      rewrite Z.div_add_l by lia. rewrite Z.div_small by lia. lia.
    + assert (n <= (B - 1) / (B / n)); [|lia].
      apply Z.div_le_lower_bound; [lia|]. nia.
Qed.

Lemma minibatches_cover_witness :
  exists size mbs,
    minibatch_size default_args_exact = Some size /\ 0 < size
    /\ minibatches default_args_exact (arange 1000) = Some mbs
    /\ concat mbs = arange 1000
    /\ Forall (fun mb => Z.of_nat (length mb) <= size) mbs
    /\ (if decide (batch_size default_args_exact
                   mod num_minibatches default_args_exact = 0)
        then Z.of_nat (length mbs) = num_minibatches default_args_exact
        else num_minibatches default_args_exact < Z.of_nat (length mbs)).
Proof.
  apply (minibatches_cover default_args_exact (arange 1000)).
  - vm_compute. split; [reflexivity | discriminate].
  - vm_compute. discriminate.
Defined.

(** ** The optimisation phase: what it keeps *)

Section UpdateMore.
Context {P F Obs : Type} `{!FloatOps P, !FloatOps F, !Promote P F}.
Variables (tmean tstd : list F -> F) (texp : F -> F).
Variable Net : Type.
Variable forward : Net -> list Obs -> list (list Z) -> ModuleOut F.
Variable optimize :
  P -> Net -> Rollout Obs F -> list (list F) -> list (list F) -> list nat -> Net.
Variable Rng : Type.
Variable shuffle : Rng -> list nat -> Rng * list nat.
Variables (args : Args P) (flags : BoolFlags) (lr : P).
Variables (buf : Rollout Obs F) (advantages returns : list (list F)).

(** A minibatch leaves the generator and the index array alone, and
    changes the network only through [optimize]. *)
Lemma minibatch_step_keeps (size start : Z) (tr tr' : Trainer F Net Rng) :
  minibatch_step tmean tstd texp forward optimize args flags lr buf
    advantages returns size start tr = Some tr' ->
  rng tr' = rng tr /\ b_inds tr' = b_inds tr
  /\ net tr' = (if do_training flags
                then optimize lr (net tr) buf advantages returns
                       (py_slice (b_inds tr) start (start + size))
                else net tr).
Proof.
  unfold minibatch_step. intros Hstep.
  bind_inv Hstep obs_mb Eobs. bind_inv Hstep act_mb Eact.
  bind_inv Hstep old_lp Eold. bind_inv Hstep logratio Elog.
  bind_inv Hstep kl_terms Ekl. bind_inv Hstep mb_adv Eadv.
  bind_inv Hstep pg Epg. bind_inv Hstep vl Evl.
  by injection Hstep as <-.
Qed.

Lemma minibatch_loop_keeps (size : Z) (starts : list Z)
    (tr tr' : Trainer F Net Rng) :
  minibatch_loop tmean tstd texp forward optimize args flags lr buf
    advantages returns size starts tr = Some tr' ->
  rng tr' = rng tr /\ b_inds tr' = b_inds tr
  /\ (do_training flags = false -> net tr' = net tr).
Proof.
  revert tr. induction starts as [|start starts IH]; intros tr Hloop.
  - by injection Hloop as <-.
  - simpl in Hloop. bind_inv Hloop tr1 Estep.
    destruct (IH _ Hloop) as (-> & -> & Hnet).
    destruct (minibatch_step_keeps _ _ _ _ Estep) as (-> & -> & Hnet1).
    split; [done|]. split; [done|]. intros Hoff.
    rewrite (Hnet Hoff), Hnet1. by rewrite Hoff.
Qed.

(** One epoch: the index array it leaves is the shuffled one, and without
    training the network is the one it started from. *)
Lemma epoch_keeps (tr tr' : Trainer F Net Rng) :
  epoch tmean tstd texp forward optimize shuffle args flags lr buf
    advantages returns tr = Some tr' ->
  b_inds tr' = snd (shuffle (rng tr) (b_inds tr))
  /\ (do_training flags = false -> net tr' = net tr).
Proof.
  unfold epoch. destruct (shuffle (rng tr) (b_inds tr)) as [rng' shuffled].
  intros Hep. bind_inv Hep sz Esize. bind_inv Hep starts Estarts.
  by destruct (minibatch_loop_keeps _ _ _ _ Hep) as (_ & -> & Hnet).
Qed.

Lemma epoch_loop_keeps (Inv : list nat -> Prop) (n : nat)
    (tr tr' : Trainer F Net Rng) :
  (forall g l, Inv l -> Inv (snd (shuffle g l))) ->
  epoch_loop tmean tstd texp forward optimize shuffle args flags lr buf
    advantages returns n tr = Some tr' ->
  (Inv (b_inds tr) -> Inv (b_inds tr'))
  /\ (do_training flags = false -> net tr' = net tr).
Proof.
  intros Hshuffle. revert tr. induction n as [|n IH]; intros tr Hloop.
  - by injection Hloop as <-.
  - simpl in Hloop. bind_inv Hloop tr1 Eepoch. bind_inv Hloop stop Estop.
    destruct (epoch_keeps _ _ Eepoch) as [Hinds Hnet].
    assert ((Inv (b_inds tr) -> Inv (b_inds tr1))
            /\ (do_training flags = false -> net tr1 = net tr)) as [Hi1 Hn1].
    { split; [|done]. rewrite Hinds. apply Hshuffle. }
    destruct stop.
    + by injection Hloop as <-.
    + destruct (IH _ Hloop) as [Hi Hn]. split; [auto|].
      intros Hoff. by rewrite (Hn Hoff), (Hn1 Hoff).
Qed.

(** X11.  With [--do_training] off the optimisation phase of an update computes
    the losses of every minibatch but returns the network it was given:
    no gradient step is taken, in any epoch. *)
Theorem evaluation_keeps_net (tr tr' : Trainer F Net Rng) :
  do_training flags = false ->
  optimize_policy tmean tstd texp forward optimize shuffle args flags lr buf
    advantages returns tr = Some tr' ->
  net tr' = net tr.
Proof.
  intros Hoff Hopt. unfold optimize_policy in Hopt.
  destruct (epoch_loop_keeps (fun _ => True) _ _ _ (fun _ _ _ => I) Hopt)
    as [_ Hnet].
  by rewrite (Hnet Hoff).
Qed.

(** X12.  If the shuffle permutes its argument, the index array stays a
    permutation of [0, ..., num_steps - 1] through all epochs of the
    optimisation phase, wherever the loop ends: every epoch visits every
    stored step of the rollout, none twice, and no index outside the
    buffer is ever formed. *)
Theorem indices_stay_permutation (tr tr' : Trainer F Net Rng) :
  (forall g l, snd (shuffle g l) ≡ₚ l) ->
  optimize_policy tmean tstd texp forward optimize shuffle args flags lr buf
    advantages returns tr = Some tr' ->
  b_inds tr' ≡ₚ arange (num_steps args).
Proof.
  intros Hperm Hopt. unfold optimize_policy in Hopt.
  destruct (epoch_loop_keeps (fun l => l ≡ₚ arange (num_steps args))
              _ _ _ (fun g l Hl => transitivity (Hperm g l) Hl) Hopt)
    as [Hinv _].
  by apply Hinv.
Qed.

End UpdateMore.

Lemma evaluation_keeps_net_witness : net kl_evaluated = net kl_start.
Proof.
  apply (evaluation_keeps_net mean32 std32 exp32 binary32 toy_forward
           toy_optimize unit toy_shuffle kl_args evaluation_flags
           (learning_rate kl_args) kl_buffer kl_advantages kl_returns
           kl_start kl_evaluated).
  - reflexivity.
  - unfold kl_evaluated.
    destruct (optimize_policy mean32 std32 exp32 toy_forward toy_optimize
                toy_shuffle kl_args evaluation_flags (learning_rate kl_args)
                kl_buffer kl_advantages kl_returns kl_start) as [tr|] eqn:E.
    + reflexivity.
    + vm_compute in E. discriminate E.
Defined.

Lemma indices_stay_permutation_witness :
  b_inds kl_trained ≡ₚ arange (num_steps kl_args).
Proof.
  apply (indices_stay_permutation mean32 std32 exp32 binary32 toy_forward
           toy_optimize unit toy_shuffle kl_args default_flags
           (learning_rate kl_args) kl_buffer kl_advantages kl_returns
           kl_start kl_trained).
  - intros g l. simpl. apply reverse_Permutation.
  - unfold kl_trained.
    destruct (optimize_policy mean32 std32 exp32 toy_forward toy_optimize
                toy_shuffle kl_args default_flags (learning_rate kl_args)
                kl_buffer kl_advantages kl_returns kl_start) as [tr|] eqn:E.
    + reflexivity.
    + vm_compute in E. discriminate E.
Defined.

(** ** The rollout loop: rows, alignment, step counts *)

Section RolloutMore.
Context {F : Type} `{!FloatOps F}.
Variables (Tensor Sim : Type).
Variable rail_reset : Sim -> Sim * RawObs Tensor.
Variable rail_step : Sim -> list Z -> Sim * (RawObs Tensor * list Z * bool).
Variable get_properties : Sim -> Tensor.
Variable Net : Type.
Variable forward :
  Net -> list (gmap string Tensor) -> list (list Z) -> ModuleOut F.

Lemma col_except_refl {A} (t : nat) (c : list A) : col_except t c c.
Proof. by split. Qed.

Lemma col_except_trans {A} (t : nat) (c1 c2 c3 : list A) :
  col_except t c1 c2 -> col_except t c2 c3 -> col_except t c1 c3.
Proof.
  intros [Hl1 Hs1] [Hl2 Hs2]. split; [congruence|].
  intros s Hs. by rewrite Hs2, Hs1.
Qed.

Lemma rows_except_refl {Obs} (t : nat) (d : Rollout Obs F) :
  rows_except t d d.
Proof. repeat split. Qed.

Lemma rows_except_trans {Obs} (t : nat) (d1 d2 d3 : Rollout Obs F) :
  rows_except t d1 d2 -> rows_except t d2 d3 -> rows_except t d1 d3.
Proof.
  intros (?&?&?&?&?&?&?) (?&?&?&?&?&?&?). unfold rows_except.
  repeat match goal with |- _ /\ _ => split end;
    eauto using col_except_trans.
Qed.

Lemma set_entry_except {A} (c c' : list A) (t : nat) (x : A) :
  set_entry c t x = Some c' -> col_except t c c'.
Proof.
  unfold set_entry. case_decide; [|done]. intros [= <-]. split.
  - by rewrite length_insert.
  - intros s Hs. by rewrite list_lookup_insert_ne.
Qed.

Lemma set_row_except {A} (m m' : list (list A)) (t : nat) (row : list A) :
  set_row m t row = Some m' -> col_except t m m'.
Proof.
  unfold set_row. intros Hs. bind_inv Hs old Eold.
  case_decide; [|done]. injection Hs as <-. split.
  - by rewrite length_insert.
  - intros s Hs. by rewrite list_lookup_insert_ne.
Qed.

Lemma write_value_except (data data' : Rollout (gmap string Tensor) F)
    (t : nat) (key : string) (v : value F Tensor) :
  write_value data t key v = Some data' -> rows_except t data data'.
Proof.
  unfold write_value.
  repeat match goal with
         | |- context [String.eqb key ?s] => destruct (String.eqb key s)
         end; try done;
    destruct v as [o|b|l|l]; try done;
    try (destruct l as [|x [|? ?]]; try done);
    intros Hw; bind_inv Hw col Ecol; injection Hw as <-;
    repeat split; simpl; try done;
    try (by apply set_entry_except in Ecol as [? ?]);
    try (by apply set_row_except in Ecol as [? ?]).
Qed.

Lemma write_keys_except (td : gmap string (value F Tensor)) (t : nat)
    (keys : list string) (data data' : Rollout (gmap string Tensor) F) :
  write_keys td t keys data = Some data' -> rows_except t data data'.
Proof.
  revert data. induction keys as [|key keys IH]; intros data Hw.
  - injection Hw as <-. apply rows_except_refl.
  - simpl in Hw. bind_inv Hw data1 Ekey.
    apply (rows_except_trans t data data1 data'); [|by apply IH].
    destruct (td !! key) as [v|].
    + by apply write_value_except in Ekey.
    + injection Ekey as <-. apply rows_except_refl.
Qed.

Lemma row_update_except (data data' : Rollout (gmap string Tensor) F)
    (t : nat) (td : gmap string (value F Tensor)) :
  row_update_ data t td = Some data' -> rows_except t data data'.
Proof.
  unfold row_update_. case_decide; [|done]. apply write_keys_except.
Qed.

Lemma apply_module_except (net : Net)
    (data data' : Rollout (gmap string Tensor) F) (t : nat) :
  apply_module forward net data t = Some data' -> rows_except t data data'.
Proof.
  unfold apply_module. intros Hm.
  bind_inv Hm o Eo. bind_inv Hm a Ea.
  destruct (out_actions _) as [|a' [|? ?]]; try done.
  destruct (out_logprobs _) as [|l' [|? ?]]; try done.
  destruct (out_entropy _) as [|e' [|? ?]]; try done.
  destruct (out_values _) as [|v' [|? ?]]; try done.
  bind_inv Hm d1 E1. bind_inv Hm d2 E2. bind_inv Hm d3 E3.
  apply write_value_except in E1, E2, E3, Hm.
  eauto using rows_except_trans.
Qed.

Lemma set_row_lookup {A} (m m' : list (list A)) (t : nat) (row : list A) :
  set_row m t row = Some m' -> m' !! t = Some row.
Proof.
  unfold set_row. intros Hs. bind_inv Hs old Eold.
  case_decide; [|done]. injection Hs as <-.
  apply list_lookup_insert_eq. by apply lookup_lt_Some in Eold.
Qed.

Lemma write_value_actions (data data' : Rollout (gmap string Tensor) F)
    (t : nat) (a : list Z) :
  write_value data t "actions" (VInts a) = Some data' ->
  actions data' !! t = Some a.
Proof.
  unfold write_value. simpl. intros Hw. bind_inv Hw col Ecol.
  injection Hw as <-. simpl. by eapply set_row_lookup.
Qed.

Lemma write_value_actions_frame
    (data data' : Rollout (gmap string Tensor) F)
    (t : nat) (key : string) (v : value F Tensor) :
  key <> "actions" -> write_value data t key v = Some data' ->
  actions data' = actions data.
Proof.
  intros Hkey. unfold write_value.
  repeat match goal with
         | |- context [String.eqb key ?s] => destruct (String.eqb_spec key s)
         end; try done;
    destruct v as [o|b|l|l]; try done;
    try (destruct l as [|x [|? ?]]; try done);
    intros Hw; try (bind_inv Hw col Ecol); by injection Hw as <-.
Qed.

(** After the module has been applied to row [t], the actions of that row
    are the ones the module returned. *)
Lemma apply_module_actions (net : Net)
    (data data' : Rollout (gmap string Tensor) F) (t : nat) :
  apply_module forward net data t = Some data' ->
  exists o a0 a,
    observations data !! t = Some o /\ actions data !! t = Some a0
    /\ out_actions (forward net [o] [a0]) = [a]
    /\ actions data' !! t = Some a.
Proof.
  unfold apply_module. intros Hm.
  bind_inv Hm o Eo. bind_inv Hm a0 Ea.
  destruct (out_actions _) as [|a' [|? ?]] eqn:Eout; try done.
  destruct (out_logprobs _) as [|l' [|? ?]]; try done.
  destruct (out_entropy _) as [|e' [|? ?]]; try done.
  destruct (out_values _) as [|v' [|? ?]]; try done.
  bind_inv Hm d1 E1. bind_inv Hm d2 E2. bind_inv Hm d3 E3.
  exists o, a0, a'. split; [done|]. split; [done|]. split; [done|].
  apply write_value_actions in E1.
  apply write_value_actions_frame in E2, E3, Hm; try done.
  congruence.
Qed.

Lemma buffer_row_actions (data : Rollout (gmap string Tensor) F) (t : nat)
    (row : gmap string (value F Tensor)) :
  buffer_row data t = Some row ->
  exists a, actions data !! t = Some a /\ row !! "actions" = Some (VInts a).
Proof.
  unfold buffer_row. intros Hr.
  bind_inv Hr o Eo. bind_inv Hr a Ea. bind_inv Hr l El. bind_inv Hr e Ee.
  bind_inv Hr r Er. bind_inv Hr d Ed. bind_inv Hr v Ev.
  injection Hr as <-. exists a. split; [done|].
  rewrite lookup_insert_ne by done. by rewrite lookup_insert_eq.
Qed.

(** What [env.step] does with a row: the simulator is stepped once with the
    row's actions, and its observation, done flag and rewards are
    returned. *)
Lemma step_spec (sim sim' : Sim) (row no rw : gmap string (value F Tensor))
    (a : list Z) :
  row !! "actions" = Some (VInts a) ->
  step rail_step get_properties sim row = Some (sim', no, rw) ->
  exists obs r d,
    rail_step sim a = (sim', (obs, r, d))
    /\ no = <["observations" :=
               VObs (<["valid_actions" := get_properties sim']>
                       (obs_to_td obs))]>
              (<["done" := VBool d]> ∅)
    /\ rw = <["rewards" := VInts r]> ∅.
Proof.
  unfold step. intros ->. simpl.
  destruct (rail_step sim a) as [sim1 [[obs r] d]]. simpl.
  unfold set_nested. rewrite lookup_insert_ne by done.
  rewrite lookup_insert_eq. simpl. intros [= <- <- <-].
  exists obs, r, d. split; [done|]. split; [|done].
  apply map_eq. intros k.
  destruct (decide (k = "observations")) as [->|Hk].
  - by rewrite !lookup_insert_eq.
  - rewrite !(lookup_insert_ne _ "observations") by done.
    destruct (decide (k = "done")) as [->|Hk'].
    + by rewrite !lookup_insert_eq.
    + by rewrite !lookup_insert_ne.
Qed.

Lemma row_update_rewards (data data' : Rollout (gmap string Tensor) F)
    (t : nat) (r : list Z) :
  row_update_ data t (<["rewards" := VInts r]> ∅) = Some data' ->
  rewards data' !! t = Some (map of_Z r) /\ actions data' = actions data.
Proof.
  unfold row_update_. case_decide; [|done].
  unfold rollout_keys. cbn [write_keys].
  repeat (rewrite lookup_insert_ne by done). rewrite lookup_insert_eq.
  repeat (rewrite lookup_insert_ne by done).
  rewrite !lookup_empty. cbn [mbind option_bind].
  intros Hw. bind_inv Hw data1 E1. injection Hw as <-.
  unfold write_value in E1. simpl in E1. bind_inv E1 col Ecol.
  injection E1 as <-. simpl. split; [|done]. by eapply set_row_lookup.
Qed.

Section IterationMore.
Context {P : Type}.
Variables (args : Args P) (net : Net).

Lemma rollout_step_except (t : nat) (st st' : Collector F Tensor Sim) :
  rollout_step rail_reset rail_step get_properties forward args net t st
    = Some st' ->
  rows_except t (rollout_data st) (rollout_data st').
Proof.
  unfold rollout_step, rollout_act, rollout_reset. intros Hs.
  bind_inv Hs st1 Eact.
  bind_inv Eact d1 E1. bind_inv Eact d2 E2. bind_inv Eact row Erow.
  bind_inv Eact res Estep. destruct res as [[env' no] rw].
  bind_inv Eact d3 E3. injection Eact as <-. simpl in Hs.
  apply row_update_except in E1, E3. apply apply_module_except in E2.
  assert (rows_except t (rollout_data st) d3) as Hrows
    by eauto using rows_except_trans.
  bind_inv Hs flag Eflag. destruct flag.
  - bind_inv Hs fr Efresh. destruct fr as [env'' td].
    simpl in Hs. bind_inv Hs no' Eno. by injection Hs as <-.
  - by injection Hs as <-.
Qed.

(** X13.  Iteration [t] of the rollout loop writes row [t] of the buffer and no
    other: every column keeps its length, and all its entries at the other
    steps. *)
Theorem rollout_step_one_row (t : nat) (st st' : Collector F Tensor Sim) :
  rollout_step rail_reset rail_step get_properties forward args net t st
    = Some st' ->
  rows_except t (rollout_data st) (rollout_data st').
Proof. apply rollout_step_except. Qed.

(** X14.  Row [t] after the first half of iteration [t]: the simulator has been
    stepped exactly once, with the actions that the module returned for the
    row and that the row now stores, and the row's rewards are the rewards
    of that step, converted to the buffer's float type.  [next_obs] is the
    observation and the done flag of that step. *)
Theorem rollout_act_alignment (t : nat) (st st' : Collector F Tensor Sim) :
  rollout_act rail_step get_properties forward args net t st = Some st' ->
  exists a obs r d,
    actions (rollout_data st') !! t = Some a
    /\ rail_step (env st) a = (env st', (obs, r, d))
    /\ rewards (rollout_data st') !! t = Some (map of_Z r)
    /\ next_obs st'
       = <["observations" :=
            VObs (<["valid_actions" := get_properties (env st')]>
                    (obs_to_td obs))]>
           (<["done" := VBool d]> ∅).
Proof.
  unfold rollout_act. intros Eact.
  bind_inv Eact d1 E1. bind_inv Eact d2 E2. bind_inv Eact row Erow.
  bind_inv Eact res Estep. destruct res as [[env' no] rw].
  bind_inv Eact d3 E3. injection Eact as <-. simpl.
  destruct (apply_module_actions _ _ _ _ E2) as (o & a0 & a & _ & _ & _ & Ha).
  destruct (buffer_row_actions _ _ _ Erow) as (a' & Ha' & Hrow).
  assert (a' = a) as -> by congruence.
  destruct (step_spec _ _ _ _ _ _ Hrow Estep) as (obs & r & d & Hrail & -> & ->).
  destruct (row_update_rewards _ _ _ _ E3) as [Hr Hact].
  exists a, obs, r, d. by rewrite Hact.
Qed.

(** X15.  A [next_obs] without a done entry, as [env.reset()] returns it before
    the first update, leaves the done column of the buffer as it is: the
    flag of the very first slot is the one the buffer was allocated
    with. *)
Theorem first_slot_done_untouched (t : nat) (st st' : Collector F Tensor Sim) :
  next_obs st !! "done" = None ->
  rollout_act rail_step get_properties forward args net t st = Some st' ->
  done (rollout_data st') = done (rollout_data st).
Proof.
  unfold rollout_act. intros Hnone Eact.
  bind_inv Eact d1 E1. bind_inv Eact d2 E2. bind_inv Eact row Erow.
  bind_inv Eact res Estep. destruct res as [[env' no] rw].
  bind_inv Eact d3 E3. injection Eact as <-. simpl.
  destruct (buffer_row_actions _ _ _ Erow) as (a & _ & Hrow).
  destruct (step_spec _ _ _ _ _ _ Hrow Estep) as (obs & r & d & _ & _ & ->).
  apply (row_update_frame _ _ _ _ _ E1) in Hnone.
  apply (apply_module_frame _ _ _ _ _ _ _) in E2.
  apply row_update_frame in E3; [congruence|].
  by rewrite lookup_insert_ne.
Qed.

(** X16.  The end of an episode: when [next_obs] is marked done, the simulator is
    reset and the observations in [next_obs] are replaced by those of the
    fresh episode; every other entry of [next_obs], the buffer and the step
    counter stay.  When it is not marked done, nothing changes. *)
Theorem rollout_reset_fresh (st st' : Collector F Tensor Sim) (flag : bool) :
  done_flag (next_obs st) = Some flag ->
  rollout_reset rail_reset get_properties st = Some st' ->
  if flag then
    env st' = fst (rail_reset (env st))
    /\ next_obs st' !! "observations"
       = Some (VObs (<["valid_actions" := get_properties (env st')]>
                       (obs_to_td (snd (rail_reset (env st))))))
    /\ (forall key, key <> "observations" ->
          next_obs st' !! key = next_obs st !! key)
    /\ rollout_data st' = rollout_data st
    /\ global_step st' = global_step st
  else st' = st.
Proof.
  unfold rollout_reset. intros -> Hr. simpl in Hr. destruct flag.
  - rewrite reset_returns in Hr. simpl in Hr.
    bind_inv Hr no Eno. injection Hr as <-. simpl.
    unfold td_update_ in Eno. case_decide; [|done]. injection Eno as <-.
    split; [done|]. split; [|split; [|done]].
    + apply lookup_union_Some_l. by rewrite lookup_singleton_eq.
    + intros key Hkey. apply lookup_union_r.
      by rewrite lookup_singleton_ne.
  - by injection Hr as <-.
Qed.

End IterationMore.

End RolloutMore.

Lemma rollout_step_one_row_witness :
  rows_except 0 (rollout_data demo_start) (rollout_data demo_after_0).
Proof.
  apply (rollout_step_one_row nat nat demo_rail_reset demo_rail_step
           demo_properties binary32 toy_forward demo_args (of_Z 1) 0%nat
           demo_start demo_after_0).
  vm_compute. reflexivity.
Defined.

Lemma rollout_act_alignment_witness :
  exists a obs r d,
    actions (rollout_data demo_act_1) !! 1%nat = Some a
    /\ demo_rail_step (env demo_after_0) a = (env demo_act_1, (obs, r, d))
    /\ rewards (rollout_data demo_act_1) !! 1%nat = Some (map of_Z r)
    /\ next_obs demo_act_1
       = <["observations" :=
            VObs (<["valid_actions" := demo_properties (env demo_act_1)]>
                    (obs_to_td obs))]>
           (<["done" := VBool d]> ∅).
Proof.
  apply (rollout_act_alignment nat nat demo_rail_step demo_properties
           binary32 toy_forward demo_args (of_Z 1) 1%nat demo_after_0
           demo_act_1).
  vm_compute. reflexivity.
Defined.

Lemma first_slot_done_untouched_witness :
  done (rollout_data demo_act_0) = done (rollout_data demo_start).
Proof.
  apply (first_slot_done_untouched nat nat demo_rail_step demo_properties
           binary32 toy_forward demo_args (of_Z 1) 0%nat demo_start
           demo_act_0).
  - vm_compute. reflexivity.
  - vm_compute. reflexivity.
Defined.

Lemma rollout_reset_fresh_witness :
  env demo_after_1 = fst (demo_rail_reset (env demo_act_1))
  /\ next_obs demo_after_1 !! "observations"
     = Some (VObs (<["valid_actions" := demo_properties (env demo_after_1)]>
                     (obs_to_td (snd (demo_rail_reset (env demo_act_1))))))
  /\ (forall key, key <> "observations" ->
        next_obs demo_after_1 !! key = next_obs demo_act_1 !! key)
  /\ rollout_data demo_after_1 = rollout_data demo_act_1
  /\ global_step demo_after_1 = global_step demo_act_1.
Proof.
  apply (rollout_reset_fresh nat nat demo_rail_reset demo_properties
           demo_act_1 demo_after_1 true).
  - vm_compute. reflexivity.
  - vm_compute. reflexivity.
Defined.

(** ** Counting environment steps *)

Section StepCount.
Context {P F : Type} `{!FloatOps P, !FloatOps F, !Promote P F}.
Variables (Tensor Sim : Type).
Variable rail_reset : Sim -> Sim * RawObs Tensor.
Variable rail_step : Sim -> list Z -> Sim * (RawObs Tensor * list Z * bool).
Variable get_properties : Sim -> Tensor.
Variables (tmean tstd : list F -> F) (texp : F -> F).
Variable Net : Type.
Variable forward :
  Net -> list (gmap string Tensor) -> list (list Z) -> ModuleOut F.
Variable optimize :
  P -> Net -> Rollout (gmap string Tensor) F -> list (list F)
  -> list (list F) -> list nat -> Net.
Variable Rng : Type.
Variable shuffle : Rng -> list nat -> Rng * list nat.
Variables (args : Args P) (flags : BoolFlags).

Lemma rollout_step_count (net : Net) (t : nat)
    (st st' : Collector F Tensor Sim) :
  rollout_step rail_reset rail_step get_properties forward args net t st
    = Some st' ->
  global_step st' = global_step st + num_envs args
  /\ length (observations (rollout_data st'))
     = length (observations (rollout_data st)).
Proof.
  intros Hs.
  pose proof (rollout_step_except _ _ _ _ _ _ _ _ _ _ _ _ Hs)
    as ([Hlen _] & _).
  split; [|done].
  unfold rollout_step, rollout_act, rollout_reset in Hs.
  bind_inv Hs st1 Eact.
  bind_inv Eact d1 E1. bind_inv Eact d2 E2. bind_inv Eact row Erow.
  bind_inv Eact res Estep. destruct res as [[env' no] rw].
  bind_inv Eact d3 E3. injection Eact as <-. simpl in Hs.
  bind_inv Hs flag Eflag. destruct flag.
  - bind_inv Hs fr Efresh. destruct fr as [env'' td].
    simpl in Hs. bind_inv Hs no' Eno. injection Hs as <-. simpl. lia.
  - injection Hs as <-. simpl. lia.
Qed.

(** An iteration needs its row: at a step past the end of the buffer the
    loop body raises. *)
Lemma rollout_step_out_of_range (net : Net) (t : nat)
    (st : Collector F Tensor Sim) :
  (length (observations (rollout_data st)) <= t)%nat ->
  rollout_step rail_reset rail_step get_properties forward args net t st
    = None.
Proof.
  intros Ht. unfold rollout_step, rollout_act.
  destruct (row_update_ (rollout_data st) t (next_obs st)) as [d1|] eqn:E1;
    [|done].
  apply row_update_except in E1 as ([Hlen _] & _). simpl.
  unfold apply_module.
  rewrite (lookup_ge_None_2 (observations d1) t) by lia. done.
Qed.

Lemma rollout_loop_count (net : Net) (n first : nat)
    (st st' : Collector F Tensor Sim) :
  rollout_loop rail_reset rail_step get_properties forward args net n first
    st = Some st' ->
  global_step st' = global_step st + Z.of_nat n * num_envs args
  /\ (n = 0 \/ first + n <= length (observations (rollout_data st)))%nat.
Proof.
  revert first st. induction n as [|n IH]; intros first st Hl.
  - injection Hl as <-. split; [lia | by left].
  - simpl in Hl. bind_inv Hl st1 Estep.
    destruct (decide (length (observations (rollout_data st)) <= first)%nat)
      as [Hout|Hin].
    { by rewrite rollout_step_out_of_range in Estep. }
    destruct (rollout_step_count _ _ _ _ Estep) as [Hg Hlen].
    destruct (IH _ _ Hl) as [Hg' Hlen']. split; lia.
Qed.

Lemma rollout_count (net : Net) (st st' : Collector F Tensor Sim) :
  0 <= num_steps args ->
  rollout rail_reset rail_step get_properties forward args net st
    = Some st' ->
  global_step st' = global_step st + batch_size args
  /\ num_steps args
     <= Z.of_nat (length (observations (rollout_data st))).
Proof.
  intros Hn Hr. unfold rollout in Hr.
  apply rollout_loop_count in Hr as [Hg Hlen]. simpl in Hg, Hlen.
  rewrite Z2Nat.id in Hg by done. unfold batch_size. split; lia.
Qed.

(** X17.  A rollout that returns has taken [num_steps] iterations and counted
    [num_envs * num_steps = batch_size] environment steps; it returns only
    if the buffer has at least [num_steps] rows. *)
Theorem rollout_counts_steps (net : Net) (st st' : Collector F Tensor Sim) :
  0 <= num_steps args ->
  rollout rail_reset rail_step get_properties forward args net st
    = Some st' ->
  global_step st' = global_step st + batch_size args
  /\ num_steps args
     <= Z.of_nat (length (observations (rollout_data st))).
Proof. apply rollout_count. Qed.

Lemma training_update_count (n update : Z) (s s' : Training Tensor Sim Net Rng) :
  0 <= num_steps args ->
  training_update rail_reset rail_step get_properties tmean tstd
    texp forward optimize shuffle args flags n update s = Some s' ->
  global_step (collector s')
  = global_step (collector s) + batch_size args.
Proof.
  intros Hn. unfold training_update. intros Hu.
  bind_inv Hu c Eroll. bind_inv Hu c' Emark. bind_inv Hu nv Env.
  bind_inv Hu nd End. bind_inv Hu est Eest. destruct est as [adv ret].
  bind_inv Hu tr Etr. injection Hu as <-. simpl.
  unfold mark_bootstrap in Emark. bind_inv Emark a Ea.
  injection Emark as <-. simpl.
  by apply (rollout_count _ _ _ Hn) in Eroll as [-> _].
Qed.

Lemma training_loop_count (n : Z) (us : list Z)
    (s s' : Training Tensor Sim Net Rng) :
  0 <= num_steps args ->
  training_loop rail_reset rail_step get_properties tmean tstd
    texp forward optimize shuffle args flags n us s = Some s' ->
  global_step (collector s')
  = global_step (collector s) + Z.of_nat (length us) * batch_size args.
Proof.
  intros Hn. revert s. induction us as [|u us IH]; intros s Hl.
  - injection Hl as <-. simpl. lia.
  - simpl in Hl. bind_inv Hl s1 Eupd.
    rewrite (IH _ Hl), (training_update_count _ _ _ _ Hn Eupd).
    simpl length. lia.
Qed.

(** X18.  A run that returns has counted
    [(total_timesteps // batch_size) * batch_size] environment steps: the
    budget rounded down to whole rollouts.  It never exceeds
    [total_timesteps], and falls short of it by less than one rollout. *)
Theorem train_counts_steps (s s' : Training Tensor Sim Net Rng) :
  0 <= num_steps args -> 0 <= num_envs args -> 0 <= total_timesteps args ->
  train rail_reset rail_step get_properties tmean tstd texp
    forward optimize shuffle args flags s = Some s' ->
  global_step (collector s')
  = global_step (collector s)
    + total_timesteps args / batch_size args * batch_size args
  /\ total_timesteps args - batch_size args
     < global_step (collector s') - global_step (collector s)
     <= total_timesteps args.
Proof.
  intros Hn He Ht. unfold train, num_updates. intros Hrun.
  destruct (batch_size args =? 0) eqn:E; [done|]. simpl in Hrun.
  apply Z.eqb_neq in E.
  assert (0 < batch_size args) as Hb by (unfold batch_size in *; nia).
  apply (training_loop_count _ _ _ _ Hn) in Hrun.
  unfold updates in Hrun. rewrite length_map, length_seq in Hrun.
  pose proof (Z.div_pos (total_timesteps args) (batch_size args) Ht Hb).
  rewrite Z2Nat.id in Hrun by done.
  pose proof (Z.div_mod (total_timesteps args) (batch_size args) E).
  pose proof (Z.mod_pos_bound (total_timesteps args) (batch_size args) Hb).
  split; [done|]. nia.
Qed.

(** X19.  With a budget smaller than one rollout no update runs at all: the
    script returns without a single environment step or gradient step. *)
Theorem train_without_update (s : Training Tensor Sim Net Rng) :
  0 <= total_timesteps args < batch_size args ->
  train rail_reset rail_step get_properties tmean tstd texp
    forward optimize shuffle args flags s = Some s.
Proof.
  intros Ht. unfold train, num_updates.
  destruct (batch_size args =? 0) eqn:E; [apply Z.eqb_eq in E; lia|].
  simpl. by rewrite Z.div_small.
Qed.

End StepCount.

Lemma rollout_counts_steps_witness :
  global_step demo_rollout = global_step demo_start + batch_size demo_args
  /\ num_steps demo_args
     <= Z.of_nat (length (observations (rollout_data demo_start))).
Proof.
  apply (rollout_counts_steps nat nat demo_rail_reset demo_rail_step
           demo_properties binary32 toy_forward demo_args (of_Z 1)
           demo_start demo_rollout).
  - vm_compute. discriminate.
  - vm_compute. reflexivity.
Defined.

Lemma train_counts_steps_witness :
  global_step (collector budget_end)
  = global_step (collector budget_start)
    + total_timesteps (budget_args 7) / batch_size (budget_args 7)
      * batch_size (budget_args 7)
  /\ total_timesteps (budget_args 7) - batch_size (budget_args 7)
     < global_step (collector budget_end)
       - global_step (collector budget_start)
     <= total_timesteps (budget_args 7).
Proof.
  apply (train_counts_steps nat nat demo_rail_reset demo_rail_step
           demo_properties mean32 std32 exp32 binary32 toy_forward
           toy_optimize unit toy_shuffle (budget_args 7) default_flags
           budget_start budget_end).
  - vm_compute. discriminate.
  - vm_compute. discriminate.
  - vm_compute. discriminate.
  - vm_compute. reflexivity.
Defined.

Lemma train_without_update_witness :
  train demo_rail_reset demo_rail_step demo_properties mean32 std32 exp32
    toy_forward toy_optimize toy_shuffle (budget_args 2) default_flags
    budget_start
  = Some budget_start.
Proof.
  apply (train_without_update nat nat demo_rail_reset demo_rail_step
           demo_properties mean32 std32 exp32 binary32 toy_forward
           toy_optimize unit toy_shuffle (budget_args 2) default_flags
           budget_start).
  vm_compute. split; [discriminate | reflexivity].
Defined.

(** ** The observations of [reset] and of [step] *)

Section ObservationKeys.
Context {F : Type} `{!FloatOps F}.
Variables (Tensor Sim : Type).
Variable rail_reset : Sim -> Sim * RawObs Tensor.
Variable rail_step : Sim -> list Z -> Sim * (RawObs Tensor * list Z * bool).
Variable get_properties : Sim -> Tensor.

Lemma obs_keys (obs : RawObs Tensor) (x : Tensor) :
  dom (<["valid_actions" := x]> (obs_to_td obs))
  = ({["agents_attr"; "node_attr"; "adjacency"; "node_order"; "edge_order";
       "valid_actions"]} : gset string).
Proof.
  unfold obs_to_td. rewrite !dom_insert_L, dom_empty_L.
  apply set_eq. intros k. rewrite !elem_of_union, !elem_of_singleton.
  rewrite elem_of_empty. tauto.
Qed.

(** X20.  [reset] and [step] return observations of the same layout: a nested
    tensordict with the five feature tensors of the observation builder and
    the valid actions, six entries in all.  So the observation of a reset
    can overwrite, entry by entry, the one that a step returned. *)
Theorem observation_keys_agree (sim1 sim1' sim2 sim2' : Sim)
    (td row no rw : gmap string (value F Tensor)) :
  reset rail_reset get_properties sim1 None = Some (sim1', td) ->
  step rail_step get_properties sim2 row = Some (sim2', no, rw) ->
  exists o o',
    td !! "observations" = Some (VObs o)
    /\ no !! "observations" = Some (VObs o')
    /\ dom o = dom o'
    /\ dom o = {["agents_attr"; "node_attr"; "adjacency"; "node_order";
                 "edge_order"; "valid_actions"]}.
Proof.
  rewrite reset_returns. intros [= <- <-] Hstep.
  assert (exists a, row !! "actions" = Some (VInts a)) as [a Ha].
  { unfold step in Hstep.
    destruct (row !! "actions") as [[| |a|]|]; try done. by exists a. }
  destruct (step_spec _ _ _ _ _ _ _ _ _ _ Ha Hstep)
    as (obs & r & d & _ & -> & _).
  eexists _, _. split; [by rewrite lookup_singleton_eq|].
  split; [by rewrite lookup_insert_eq|].
  by rewrite !obs_keys.
Qed.

End ObservationKeys.

Lemma observation_keys_agree_witness :
  exists o o',
    next_obs demo_start !! "observations" = Some (VObs o)
    /\ next_obs demo_act_0 !! "observations" = Some (VObs o')
    /\ dom o = dom o'
    /\ dom o = {["agents_attr"; "node_attr"; "adjacency"; "node_order";
                 "edge_order"; "valid_actions"]}.
Proof.
  apply (observation_keys_agree nat nat demo_rail_reset demo_rail_step
           demo_properties 0%nat 0%nat 0%nat 1%nat (next_obs demo_start)
           (default ∅ (buffer_row (rollout_data demo_act_0) 0))
           (next_obs demo_act_0)
           (<["rewards" := VInts [-1]]> ∅)).
  - vm_compute. reflexivity.
  - vm_compute. reflexivity.
Defined.

(** ** Value clipping that does not bite *)

Section ClipInactive.
Variable tmean : list Qc -> Qc.

Lemma Qc_ltb_false (x y : Qc) : (y <= x)%Qc -> Qc_ltb x y = false.
Proof.
  intros Hle. unfold Qc_ltb. destruct (x ?= y)%Qc eqn:E; try done.
  exfalso. apply (Qclt_not_le x y); [exact E | exact Hle].
Qed.

(** Inside the interval [torch.clamp] returns its argument. *)
Lemma Qc_clamp_inside (x lo hi : Qc) :
  (lo <= x)%Qc -> (x <= hi)%Qc -> clamp x lo hi = x.
Proof.
  intros Hlo Hhi. unfold clamp, fmin, fmax. simpl.
  rewrite (Qc_ltb_false x lo Hlo). by rewrite (Qc_ltb_false hi x Hhi).
Qed.

Lemma Qc_fmax_same (x : Qc) : fmax x x = x.
Proof.
  unfold fmax. simpl. rewrite Qc_ltb_false; [done|]. apply Qcle_refl.
Qed.

(** X21.  In exact arithmetic, if every re-evaluated value of the minibatch lies
    within [clip_coef] of the stored value it replaces, the clipped value
    loss is the unclipped one: [--clip-vloss] makes no difference to the
    loss of that minibatch. *)
Theorem v_loss_clip_inactive (args args' : Args Qc)
    (newvalue old_values returns : list (list Qc)) (mb_inds : list nat)
    (H A : nat) :
  clip_vloss args = true -> clip_vloss args' = false ->
  shape (length mb_inds) A newvalue ->
  shape H A old_values -> shape H A returns ->
  Forall (fun i => (i < H)%nat) mb_inds ->
  (forall i a t, mb_inds !! i = Some t -> (a < A)%nat ->
     (- clip_coef args <= at2 newvalue i a - at2 old_values t a)%Qc
     /\ (at2 newvalue i a - at2 old_values t a <= clip_coef args)%Qc) ->
  v_loss tmean args newvalue old_values returns mb_inds
  = v_loss tmean args' newvalue old_values returns mb_inds.
Proof.
  intros Hon Hoff Hnew Hold Hret Hinds Hnear.
  unfold v_loss. rewrite Hon, Hoff.
  pose proof (shape_tabulate _ _ newvalue Hnew) as Enew.
  set (nv := at2 newvalue) in *. rewrite Enew.
  rewrite (gather_tabulate H A returns mb_inds Hret Hinds). simpl.
  rewrite mop_tabulate. simpl.
  rewrite (gather_tabulate H A old_values mb_inds Hold Hinds). simpl.
  rewrite mop_tabulate. simpl. unfold msquare.
  rewrite !mmap_tabulate, mop_tabulate. simpl.
  rewrite mop_tabulate. simpl. rewrite mmap_tabulate, mop_tabulate. simpl.
  do 4 f_equal. apply tabulate_ext. intros i a Hi Ha.
  destruct (lookup_lt_is_Some_2 mb_inds i Hi) as [t Ht].
  rewrite Ht. simpl.
  destruct (Hnear i a t Ht Ha) as [Hlo Hhi].
  rewrite Qc_clamp_inside by done.
  replace (at2 old_values t a + (nv i a - at2 old_values t a))%Qc
    with (nv i a) by ring.
  apply Qc_fmax_same.
Qed.

End ClipInactive.

Lemma v_loss_clip_inactive_witness :
  v_loss mean_exact default_args_exact near_values stored_values
    stored_returns [2%nat; 0%nat]
  = v_loss mean_exact unclipped_args near_values stored_values
      stored_returns [2%nat; 0%nat].
Proof.
  apply (v_loss_clip_inactive mean_exact default_args_exact unclipped_args
           near_values stored_values stored_returns [2%nat; 0%nat] 3 1).
  - reflexivity.
  - reflexivity.
  - repeat split; repeat constructor.
  - repeat split; repeat constructor.
  - repeat split; repeat constructor.
  - repeat constructor.
  - intros i a t Hi Ha.
    destruct a as [|a]; [|simpl in Ha; lia].
    destruct i as [|[|i]]; [| |discriminate Hi];
      injection Hi as <-; split; vm_compute; discriminate.
Defined.

(** ** Policy clipping that does not bite *)

Section PolicyClipInactive.
Variables (tmean tstd : list Qc -> Qc).
Variable args : Args Qc.

Lemma shape_mmap {G K} (f : G -> K) (m A : nat) (x : list (list G)) :
  shape m A x -> shape m A (mmap f x).
Proof.
  intros [Hlen Hrows]. unfold mmap. split.
  - by rewrite length_map.
  - apply Forall_map. eapply Forall_impl; [exact Hrows|].
    intros r Hr. simpl. by rewrite length_map.
Qed.

(** X22.  In exact arithmetic, if every probability ratio of the minibatch lies
    in [1 - clip_coef, 1 + clip_coef], the clipped surrogate equals the
    unclipped one and the policy loss is the mean of
    [-mb_advantages * ratio]. *)
Theorem pg_loss_clip_inactive (ratio mb_advantages : list (list Qc))
    (m A : nat) :
  shape m A ratio -> shape m A mb_advantages ->
  (forall i a, (i < m)%nat -> (a < A)%nat ->
     (fsub (of_Z 1) (clip_coef args) <= at2 ratio i a)%Qc
     /\ (at2 ratio i a <= fadd (of_Z 1) (clip_coef args))%Qc) ->
  pg_loss tmean tstd args ratio mb_advantages
  = (pg_loss1 ←
       mop fmul (mmap fopp (normalized tmean tstd args mb_advantages)) ratio;
     Some (tmean (concat pg_loss1))).
Proof.
  intros Hratio Hadv Hnear. unfold pg_loss.
  fold (normalized tmean tstd args mb_advantages).
  assert (shape m A (normalized tmean tstd args mb_advantages)) as Hnorm.
  { unfold normalized. destruct (norm_adv args); [|done].
    by apply shape_mmap. }
  rewrite (shape_tabulate _ _ _ Hnorm).
  set (adv := at2 (normalized tmean tstd args mb_advantages)).
  pose proof (shape_tabulate _ _ ratio Hratio) as Eratio.
  set (r := at2 ratio) in *. rewrite Eratio.
  rewrite !mmap_tabulate, !mop_tabulate. simpl.
  rewrite mop_tabulate. simpl. do 3 f_equal.
  apply tabulate_ext. intros i a Hi Ha.
  destruct (Hnear i a Hi Ha) as [Hlo Hhi].
  rewrite Qc_clamp_inside by done. apply Qc_fmax_same.
Qed.

End PolicyClipInactive.

Lemma pg_loss_clip_inactive_witness :
  pg_loss mean_exact unit_spread default_args_exact near_ratio
    some_advantages
  = (pg_loss1 ←
       mop fmul
         (mmap fopp
            (normalized mean_exact unit_spread default_args_exact
               some_advantages))
         near_ratio;
     Some (mean_exact (concat pg_loss1))).
Proof.
  apply (pg_loss_clip_inactive mean_exact unit_spread default_args_exact
           near_ratio some_advantages 2 1).
  - repeat split; repeat constructor.
  - repeat split; repeat constructor.
  - intros i a Hi Ha.
    destruct a as [|a]; [|lia].
    destruct i as [|[|i]]; [| |lia]; split; vm_compute; discriminate.
Defined.
